(** * NBT2CDB: a shallow embedding of [nbt2cdb.py]

    The development follows the source top to bottom: the position codec,
    [struct.pack], the index record, the chunk writer, the structure parser
    and the insertion loop.  Python integers are unbounded and are modelled
    as [Z]; a byte of a [bytes]/[bytearray] object is a [Z] in [0, 256) and
    every operation that Python range-checks ([bytearray.append], item
    assignment, [struct.pack]) is range-checked here as well.  Exceptions
    are values of [exn]; a computation that can raise returns a [result]. *)

From Stdlib Require Import ZArith Lia List Bool Btauto.
From Stdlib Require Import Ascii String.
From stdpp Require Import base option list strings gmap.

Local Open Scope Z_scope.
Set Warnings "-register-all".

(** ** Position codec *)

Module Position.

(** [encode_position], lines 40-48. *)
Definition encode_position (x z dim : Z) : Z :=
  let x := if x <? 0 then x + Z.shiftl 1 14 else x in
  let z := if z <? 0 then z + Z.shiftl 1 14 else z in
  let x := Z.land x 0x3FFF in
  let z := Z.land z 0x3FFF in
  let dim := Z.land dim 0xF in
  Z.lor (Z.lor (Z.shiftl dim 28) (Z.shiftl z 14)) x.

(** The [CDBPosition] object: three mutable attributes. *)
Record CDBPosition := mkCDBPosition { px : Z; pz : Z; dimension : Z }.

(** [CDBPosition.__init__], lines 51-54. *)
Definition init (val : Z) : CDBPosition :=
  {| px := Z.land val 0x3FFF;
     pz := Z.land (Z.shiftr val 14) 0x3FFF;
     dimension := Z.land (Z.shiftr val 28) 0xF |}.

(** [CDBPosition.to_signed], lines 56-62: mutates [self]. *)
Definition to_signed (self : CDBPosition) : CDBPosition :=
  let signed_size := Z.shiftl 1 13 in
  let unsigned_size := Z.shiftl 1 14 in
  let self :=
    if signed_size <=? px self
    then {| px := px self - unsigned_size; pz := pz self; dimension := dimension self |}
    else self in
  if signed_size <=? pz self
  then {| px := px self; pz := pz self - unsigned_size; dimension := dimension self |}
  else self.

(** [CDBPosition.parse_position], lines 64-66: the returned triple together
    with the object as [to_signed] left it. *)
Definition parse_position (self : CDBPosition) : (Z * Z * Z) * CDBPosition :=
  let self := to_signed self in
  ((px self, pz self, dimension self), self).

(** [CDBPosition(val).parse_position()]. *)
Definition decode (val : Z) : Z * Z * Z := fst (parse_position (init val)).

(** The two sign conventions of a 14-bit coordinate, named for the proofs:
    [wrap14] is the adjustment [to_signed] makes, [unwrap14] the one
    [encode_position] makes. *)
Definition wrap14 (u : Z) : Z := if Z.shiftl 1 13 <=? u then u - Z.shiftl 1 14 else u.
Definition unwrap14 (s : Z) : Z := if s <? 0 then s + Z.shiftl 1 14 else s.

End Position.

Import Position.

(** ** Exceptions and results *)

Inductive exn :=
| InvalidNBT        (* ValueError("Invalid NBT") *)
| SizeMismatch      (* ValueError("Size mismatch") *)
| BadFileHeader     (* ValueError("Bad FileHeader") *)
| EmptyName         (* ValueError: the path has an empty name (Path.with_name) *)
| StructError       (* struct.error: argument out of range for the format *)
| ByteRange         (* ValueError: byte must be in range(0, 256) *)
| UnpackError       (* ValueError: wrong number of values to unpack *)
| IntError          (* ValueError: invalid literal for int() *)
| IndexError
| KeyError
| TypeError
| AttributeError
| OSError.

Inductive result (A : Type) :=
| Ok (a : A)
| Raise (e : exn).
Arguments Ok {A} a.
Arguments Raise {A} e.

Definition bind {A B} (m : result A) (k : A -> result B) : result B :=
  match m with
  | Ok a => k a
  | Raise e => Raise e
  end.

Notation "x <- m ;; k" := (bind m (fun x => k))
  (at level 100, m at next level, right associativity).

(** [for i in l: s = body(i, s)], leaving the loop at the first exception. *)
Fixpoint for_in {A S} (l : list A) (body : A -> S -> result S) (s : S) : result S :=
  match l with
  | [] => Ok s
  | i :: l => s <- body i s ;; for_in l body s
  end.

(** The same loop over state that outlives an exception (open files): the
    state reached is returned together with the exception, if any. *)
Fixpoint for_io {A S} (l : list A) (body : A -> S -> S * option exn) (s : S)
  : S * option exn :=
  match l with
  | [] => (s, None)
  | i :: l =>
      match body i s with
      | (s, None) => for_io l body s
      | (s, Some e) => (s, Some e)
      end
  end.

(** [range(n)]. *)
Definition range (n : Z) : list Z := seqZ 0 n.

(** ** Python sequences *)

(** Subscript normalisation of [list] and [bytearray]: a negative index
    counts from the end. *)
Definition norm_index (len : nat) (i : Z) : option nat :=
  if (0 <=? i) && (i <? Z.of_nat len) then Some (Z.to_nat i)
  else if (- Z.of_nat len <=? i) && (i <? 0) then Some (Z.to_nat (i + Z.of_nat len))
  else None.

(** [l[i]]. *)
Definition getitem {A} (l : list A) (i : Z) : result A :=
  match norm_index (length l) i ≫= (l !!.) with
  | Some a => Ok a
  | None => Raise IndexError
  end.

(** [l[i] = v]. *)
Definition setitem {A} (l : list A) (i : Z) (v : A) : result (list A) :=
  match norm_index (length l) i with
  | Some n => Ok (<[n := v]> l)
  | None => Raise IndexError
  end.

Definition is_byte (v : Z) : bool := (0 <=? v) && (v <? 256).

(** [raw.append(v)] on a [bytearray]. *)
Definition bytearray_append (raw : list Z) (v : Z) : result (list Z) :=
  if is_byte v then Ok (raw ++ [v]) else Raise ByteRange.

(** [b[i] = v] on a [bytearray]: the index is checked, then the value. *)
Definition bytearray_setitem (b : list Z) (i v : Z) : result (list Z) :=
  match norm_index (length b) i with
  | None => Raise IndexError
  | Some n => if is_byte v then Ok (<[n := v]> b) else Raise ByteRange
  end.

(** [bytearray(n)] and [b'\x00' * n]. *)
Definition zeros (n : nat) : list Z := replicate n 0.

(** ** [struct]: little-endian, standard sizes *)

Inductive fmt := fmt_b | fmt_H | fmt_I | fmt_i.

Definition fmt_size (c : fmt) : nat :=
  match c with fmt_b => 1 | fmt_H => 2 | fmt_I => 4 | fmt_i => 4 end%nat.

Definition fmt_signed (c : fmt) : bool :=
  match c with fmt_b | fmt_i => true | fmt_H | fmt_I => false end.

Definition fmt_bits (c : fmt) : Z := 8 * Z.of_nat (fmt_size c).

Definition fmt_min (c : fmt) : Z :=
  if fmt_signed c then - 2 ^ (fmt_bits c - 1) else 0.

Definition fmt_max (c : fmt) : Z :=
  if fmt_signed c then 2 ^ (fmt_bits c - 1) - 1 else 2 ^ fmt_bits c - 1.

(** The [n] low-order bytes of [v], least significant first (two's
    complement for a negative [v]). *)
Fixpoint le_bytes (n : nat) (v : Z) : list Z :=
  match n with
  | O => []
  | S n => Z.land v 0xFF :: le_bytes n (Z.shiftr v 8)
  end.

Fixpoint le_int (bs : list Z) : Z :=
  match bs with
  | [] => 0
  | b :: bs => b + 256 * le_int bs
  end.

Definition pack1 (c : fmt) (v : Z) : result (list Z) :=
  if (fmt_min c <=? v) && (v <=? fmt_max c)
  then Ok (le_bytes (fmt_size c) v)
  else Raise StructError.

(** [struct.pack("<" + fs, *vs)]. *)
Fixpoint pack (fs : list fmt) (vs : list Z) : result (list Z) :=
  match fs, vs with
  | [], [] => Ok []
  | c :: fs, v :: vs => b <- pack1 c v ;; bs <- pack fs vs ;; Ok (b ++ bs)
  | _, _ => Raise StructError
  end.

Definition unpack1 (c : fmt) (bs : list Z) : Z :=
  let u := le_int bs in
  if fmt_signed c && (2 ^ (fmt_bits c - 1) <=? u) then u - 2 ^ fmt_bits c else u.

(** [struct.unpack("<" + fs, bs)]. *)
Fixpoint unpack (fs : list fmt) (bs : list Z) : result (list Z) :=
  match fs with
  | [] => match bs with [] => Ok [] | _ => Raise StructError end
  | c :: fs =>
      if (length bs <? fmt_size c)%nat then Raise StructError
      else vs <- unpack fs (drop (fmt_size c) bs) ;;
           Ok (unpack1 c (take (fmt_size c) bs) :: vs)
  end.

(** ** Binary files *)

(** A file object opened in binary mode: its bytes and its position. *)
Record handle := mkHandle { content : list Z; position : nat }.

(** [f.read(n)]. *)
Definition read (f : handle) (n : nat) : handle * list Z :=
  let data := take n (drop (position f) (content f)) in
  ({| content := content f; position := position f + length data |}, data).

(** [f.seek(offset)]. *)
Definition seek (f : handle) (offset : Z) : result handle :=
  if offset <? 0 then Raise OSError
  else Ok {| content := content f; position := Z.to_nat offset |}.

(** [f.write(data)]: overwrites from the position on, extends the file
    when the data reaches past its end, and fills a gap left by a seek past
    the end with zero bytes.  Writing nothing changes nothing. *)
Definition write (f : handle) (data : list Z) : handle :=
  match data with
  | [] => f
  | _ =>
      let p := position f in
      {| content := take p (content f) ++ zeros (p - length (content f))
                    ++ data ++ drop (p + length data) (content f);
         position := p + length data |}
  end.

(** [read_file_header], lines 69-75. *)
Definition read_file_header (f : handle) : handle * result (list Z) :=
  let hdr_fmt := [fmt_H; fmt_H; fmt_I; fmt_I; fmt_I; fmt_I] in
  let size := sum_list (fmt_size <$> hdr_fmt) in
  let '(f, data) := read f size in
  if negb (length data =? size)%nat then (f, Raise BadFileHeader)
  else (f, unpack hdr_fmt data).

(** [read_first_chunk_position], lines 77-83; [cdb] is the file at
    [cdb_path], [None] when it cannot be opened.  The file is opened for
    reading only; the four bytes read first are thrown away. *)
Definition read_first_chunk_position (cdb : option (list Z)) : result (Z * Z * Z) :=
  match cdb with
  | None => Raise OSError
  | Some bytes =>
      f <- seek {| content := bytes; position := 0 |} 24 ;;
      let '(f, _) := read f 4 in
      let '(f, data) := read f 4 in
      vals <- unpack [fmt_I] data ;;
      position_val <- getitem vals 0 ;;
      let pos := init position_val in
      Ok (fst (parse_position pos))
  end.

(** ** Index entries *)

Definition MAGIC_CDB : Z := 0xABCDEF99.

Record CDBEntry := mkCDBEntry {
  x_bitfield : Z; z_bitfield : Z; entry_slot_number : Z; subfile : Z;
  constant0 : Z; unknown0 : Z; unknown1 : Z; constant1 : Z }.

(** [CDBEntry.__init__] with its default arguments, lines 87-96. *)
Definition CDBEntry_init (x_bitfield z_bitfield slot_number subfile : Z) : CDBEntry :=
  {| x_bitfield := x_bitfield; z_bitfield := z_bitfield;
     entry_slot_number := slot_number; subfile := subfile;
     constant0 := 0x20FF; unknown0 := 0xA; unknown1 := 0x1; constant1 := 0x8000 |}.

(** [CDBEntry.pack], lines 98-109. *)
Definition CDBEntry_pack (self : CDBEntry) : result (list Z) :=
  pack [fmt_H; fmt_H; fmt_H; fmt_H; fmt_H; fmt_H; fmt_H; fmt_H]
       [x_bitfield self; z_bitfield self; entry_slot_number self; subfile self;
        constant0 self; unknown0 self; unknown1 self; constant1 self].

(** [update_index_entry], lines 112-128.  The argument [index] is the file
    at [index_path], [index.cdb] in the directory of the database: [None]
    when it does not exist.  (Computing that path, line 113, takes a
    database path with a file name; [insert_structure], the caller, has
    computed the same path before, on line 258, which is where the
    embedding has the [ValueError] of [with_name].)  The file is opened for
    appending, so the bytes it holds stay in place; when [pack] raises
    nothing has been written. *)
Definition update_index_entry (index : option (list Z)) (x z slot_number : Z)
  : result (option (list Z)) :=
  match index with
  | None => Ok None
  | Some bytes =>
      let x_bf := Z.land x 0x3FFF in
      let z_bf := Z.land z 0x3FFF in
      let x_bf := if x <? 0 then Z.land (x + Z.shiftl 1 14) 0x3FFF else x_bf in
      let z_bf := if z <? 0 then Z.land (z + Z.shiftl 1 14) 0x3FFF else z_bf in
      let entry := CDBEntry_init x_bf z_bf slot_number 0 in
      record <- CDBEntry_pack entry ;;
      Ok (Some (bytes ++ record))
  end.

(** ** NBT documents

    What [nbtlib.load] returns, as far as the parser looks at it: integer
    tags (Byte, Short, Int, Long), strings, lists (and arrays) and
    compounds.  A compound is a [dict]; it is kept as an association list in
    insertion order, the order in which Python iterates over it.  Floating
    point tags are left out.  The default values the parser passes to
    [get] (an empty list, [[0, 0, 0]], an empty dict, [0], a string) are
    written as the tags that behave like them. *)

Inductive tag :=
| TInt (z : Z)
| TString (s : string)
| TList (l : list tag)
| TCompound (m : list (string * tag)).

Fixpoint assoc (key : string) (m : list (string * tag)) : option tag :=
  match m with
  | [] => None
  | (k, v) :: m => if String.eqb k key then Some v else assoc key m
  end.

(** [t.get(key, dflt)]: only a compound has the method. *)
Definition tag_get (t : tag) (key : string) (dflt : tag) : result tag :=
  match t with
  | TCompound m => Ok (default dflt (assoc key m))
  | _ => Raise AttributeError
  end.

(** [t[key]] with a string key. *)
Definition tag_item (t : tag) (key : string) : result tag :=
  match t with
  | TCompound m =>
      match assoc key m with
      | Some v => Ok v
      | None => Raise KeyError
      end
  | _ => Raise TypeError
  end.

Definition chars (s : string) : list tag :=
  (fun c => TString (String c EmptyString)) <$> list_ascii_of_string s.

(** [t[i]] with an integer index. *)
Definition tag_index (t : tag) (i : Z) : result tag :=
  match t with
  | TList l => getitem l i
  | TString s => getitem (chars s) i
  | TCompound _ => Raise KeyError
  | TInt _ => Raise TypeError
  end.

(** [for d in t]: the elements of a list, the keys of a compound, the
    characters of a string. *)
Definition tag_iter (t : tag) : result (list tag) :=
  match t with
  | TList l => Ok l
  | TCompound m => Ok ((fun kv => TString (fst kv)) <$> m)
  | TString s => Ok (chars s)
  | TInt _ => Raise TypeError
  end.

(** [if t:]. *)
Definition truthy (t : tag) : bool :=
  match t with
  | TInt z => negb (z =? 0)
  | TString s => negb (String.eqb s "")
  | TList l => match l with [] => false | _ => true end
  | TCompound m => match m with [] => false | _ => true end
  end.

(** [sorted(props.items())]: the keys of a dict are distinct, so the pairs
    are ordered by key. *)
Fixpoint insert_item (kv : string * tag) (l : list (string * tag)) : list (string * tag) :=
  match l with
  | [] => [kv]
  | kv' :: l' => if String.leb (fst kv) (fst kv') then kv :: l else kv' :: insert_item kv l'
  end.

Definition sorted_items (m : list (string * tag)) : list (string * tag) :=
  foldr insert_item [] m.

(** [enumerate(l)]. *)
Definition enumerate {A} (l : list A) : list (Z * A) :=
  zip (seqZ 0 (Z.of_nat (length l))) l.

Fixpoint map_result {A B} (g : A -> result B) (l : list A) : result (list B) :=
  match l with
  | [] => Ok []
  | a :: l => b <- g a ;; bs <- map_result g l ;; Ok (b :: bs)
  end.

(** ** The files the program works on

    The directory the database lies in, as a map from file names to the
    bytes of the files, and the name of the database in it,
    [Path(cdb_path).name].  The index is the file [index.cdb] of the same
    directory ([Path(cdb_path).with_name("index.cdb")], lines 113 and 258);
    nothing in the program keeps the database from being that very file, and
    in this model the two are then one entry of the map.  Two names of the
    map are two files: no links, and names that differ are not folded
    together by the file system. *)

Definition index_name : string := "index.cdb".

Record world := mkWorld { cdb_name : string; files : gmap string (list Z) }.

(** The file at [cdb_path].  A path without a file name (the empty path,
    a directory given as [.] or [/]) is no file that can be opened. *)
Definition cdb_file (w : world) : option (list Z) :=
  if String.eqb (cdb_name w) "" then None else files w !! cdb_name w.

(** The file at [index_path]. *)
Definition index_file (w : world) : option (list Z) := files w !! index_name.

(** The directory once the index, if there is one, holds [index] and the
    database has been closed holding [bytes]. *)
Definition store (w : world) (bytes : list Z) (index : option (list Z)) : world :=
  {| cdb_name := cdb_name w;
     files := <[cdb_name w := bytes]>
                (match index with
                 | Some i => <[index_name := i]> (files w)
                 | None => files w
                 end) |}.

(** The variables the insertion loop updates: the open database, the index
    file and the running slot number. *)
Record loop_state := mkLoopState {
  st_f : handle; st_index : option (list Z); st_slot_number : Z }.

Section Program.

(** [zlib.compress]. *)
Variable compress : list Z -> list Z.

(** What the [io] module makes of two file objects on one file.  When the
    database is itself [index.cdb], [update_index_entry] appends its record
    through a second file object while the first may still hold the chunk
    record in its buffer; where the appended bytes end up, and whether the
    buffered record overwrites them when it is flushed, depends on the
    buffer size.  What is certain is that the file never gets shorter and
    that a byte below the length the file had when it was opened is only
    ever changed by a write of the first file object.  [io_shared] stands
    for the rest: the bytes of the file from that length on, after the
    append of the chunk at loop indices [(cz, cx)], given everything the
    insertion started from.  No statement below fixes it. *)
Variable io_shared :
  list Z -> list (Z * Z) -> Z * Z * Z -> Z * Z -> Z * Z -> loop_state -> list Z.

(** [int(s)] on text: [None] when Python raises [ValueError]. *)
Variable int_of_str : string -> option Z.

(** [str(t)] of a tag that is not a string. *)
Variable repr_tag : tag -> string.

(** The global [inverse_block_map]: block name to (runtime id, metadata). *)
Variable inverse_block_map : gmap string (Z * Z).

(** [int(t)]. *)
Definition py_int (t : tag) : result Z :=
  match t with
  | TInt z => Ok z
  | TString s =>
      match int_of_str s with
      | Some z => Ok z
      | None => Raise IntError
      end
  | _ => Raise TypeError
  end.

(** [str(t)], also the formatting of [t] in an f-string. *)
Definition py_str (t : tag) : string :=
  match t with
  | TString s => s
  | _ => repr_tag t
  end.

(** [format_block_name], lines 32-35. *)
Definition format_block_name (name : string) (props : tag) : result string :=
  if truthy props then
    match props with
    | TCompound m =>
        Ok (name ++ "[" ++
            String.concat "," ((fun kv => fst kv ++ "=" ++ py_str (snd kv)) <$> sorted_items m)
            ++ "]")%string
    | _ => Raise AttributeError
    end
  else Ok name.

(** [get_block_id], lines 37-38. *)
Definition get_block_id (name : string) : Z * Z :=
  default (0, 0) (inverse_block_map !! name).

(** *** The chunk writer, lines 131-203 *)

(** [flat[idx][k] if 0 <= idx < len(flat) else dflt]. *)
Definition flat_or (flat : list (Z * Z)) (idx : Z) (proj : Z * Z -> Z) (dflt : Z) : result Z :=
  if (0 <=? idx) && (idx <? Z.of_nat (List.length flat))
  then e <- getitem flat idx ;; Ok (proj e)
  else Ok dflt.

(** Lines 140-150. *)
Definition byte_plane (subchunk chunk_x chunk_z : Z) (flat : list (Z * Z))
  (width height length : Z) (raw : list Z) : result (list Z) :=
  for_in (range 16) (fun x raw =>
  for_in (range 16) (fun z raw =>
  for_in (range 16) (fun sub_y raw =>
    let actual_y := subchunk * 16 + sub_y in
    if height <=? actual_y then bytearray_append raw 0
    else
      let wx := chunk_x * 16 + x in
      let wz := chunk_z * 16 + z in
      let idx := actual_y * (width * length) + wz * width + wx in
      v <- flat_or flat idx fst 0 ;;
      bytearray_append raw v) raw) raw) raw.

(** Lines 153-171. *)
Definition nibble_plane (subchunk chunk_x chunk_z : Z) (flat : list (Z * Z))
  (width height length : Z) : result (list Z) :=
  let nibbles := zeros (Z.to_nat 0x1000) in
  for_in (range 16) (fun sub_y nibbles =>
  for_in (range 16) (fun z nibbles =>
  for_in (range 16) (fun x nibbles =>
    let actual_y := subchunk * 16 + sub_y in
    nibble_value <-
      (if height <=? actual_y then Ok 0
       else
         let wx := chunk_x * 16 + x in
         let wz := chunk_z * 16 + z in
         let idx := actual_y * (width * length) + wz * width + wx in
         flat_or flat idx snd 0) ;;
    let local_index := sub_y * 256 + z * 16 + x in
    let byte_i := Z.shiftr local_index 1 in
    if Z.land local_index 1 =? 0 then
      old <- getitem nibbles byte_i ;;
      bytearray_setitem nibbles byte_i (Z.lor (Z.land old 0xF0) nibble_value)
    else
      old <- getitem nibbles byte_i ;;
      bytearray_setitem nibbles byte_i (Z.lor (Z.land old 0x0F) (Z.shiftl nibble_value 4)))
    nibbles) nibbles) nibbles.

(** Lines 179-185. *)
Definition biome_plane (chunk_x chunk_z : Z) (flat : list (Z * Z)) (width : Z)
  : result (list Z) :=
  let biomes := zeros 256 in
  for_in (range 16) (fun x biomes =>
  for_in (range 16) (fun z biomes =>
    let wx := chunk_x * 16 + x in
    let wz := chunk_z * 16 + z in
    let idx := wz * width + wx in
    v <- flat_or flat idx fst 1 ;;
    bytearray_setitem biomes (x * 16 + z) v) biomes) biomes.

(** Lines 132-186: the buffer [raw] handed to [zlib.compress]. *)
Definition chunk_raw (chunk_x chunk_z : Z) (flat : list (Z * Z)) (size : Z * Z * Z)
  : result (list Z) :=
  let '(width, height, length) := size in
  let raw := [] in
  let subchunk_count := (height + 15) / 16 in
  count <- pack [fmt_H] [subchunk_count] ;;
  let raw := raw ++ count in
  raw <- for_in (range subchunk_count) (fun subchunk raw =>
    raw <- byte_plane subchunk chunk_x chunk_z flat width height length raw ;;
    nibbles <- nibble_plane subchunk chunk_x chunk_z flat width height length ;;
    let raw := raw ++ nibbles in
    Ok (raw ++ zeros (Z.to_nat 0x800))) raw ;;
  let raw := raw ++ zeros (Z.to_nat 0x100) in
  biomes <- biome_plane chunk_x chunk_z flat width ;;
  Ok (raw ++ biomes).

(** Lines 190-198: the header that follows the magic number. *)
Definition chunk_header (chunk_x chunk_z : Z) (comp raw : list Z) : result (list Z) :=
  let hdr := [] in
  position <- pack [fmt_I] [encode_position chunk_x chunk_z 0] ;;
  let hdr := hdr ++ position in
  format <- pack [fmt_b; fmt_b] [1; 0] ;;
  let hdr := hdr ++ format in
  reserved <- pack [fmt_H; fmt_H; fmt_H] [0; 0; 0] ;;
  let hdr := hdr ++ reserved in
  let section_offset := 4 + Z.of_nat (List.length hdr) + 6 * 16 in
  section <- pack [fmt_i; fmt_i; fmt_i; fmt_i]
                  [0; section_offset; Z.of_nat (List.length comp); Z.of_nat (List.length raw)] ;;
  let hdr := hdr ++ section in
  for_in (range 5) (fun _ hdr =>
    absent <- pack [fmt_i; fmt_i; fmt_i; fmt_i] [-1; 0; 0; 0] ;;
    Ok (hdr ++ absent)) hdr.

(** [write_chunk_to_subfile].  Everything that can raise comes before the
    first [write], so the file object is either left as it was or holds the
    whole record. *)
Definition write_chunk_to_subfile (f : handle) (offset chunk_x chunk_z : Z)
  (flat : list (Z * Z)) (size : Z * Z * Z) : result handle :=
  raw <- chunk_raw chunk_x chunk_z flat size ;;
  let comp := compress raw in
  hdr <- chunk_header chunk_x chunk_z comp raw ;;
  f <- seek f offset ;;
  magic <- pack [fmt_I] [MAGIC_CDB] ;;
  let f := write f magic in
  let f := write f hdr in
  let f := write f comp in
  Ok f.

(** *** The structure parser, lines 206-238 *)

(** The [try] block, lines 207-211; [nbt_file] is [None] when
    [nbtlib.load] raises. *)
Definition parse_fields (nbt_file : option tag) : result (tag * list Z * tag) :=
  match nbt_file with
  | None => Raise OSError
  | Some nbt_file =>
      blocks <- tag_get nbt_file "blocks" (TList []) ;;
      size <- tag_get nbt_file "size" (TList [TInt 0; TInt 0; TInt 0]) ;;
      size <- tag_iter size ;;
      size <- map_result py_int size ;;
      palette <- tag_get nbt_file "palette" (TList []) ;;
      Ok (blocks, size, palette)
  end.

(** Lines 216-220. *)
Definition build_palmap (palette : tag) : result (gmap Z string) :=
  palette <- tag_iter palette ;;
  for_in (enumerate palette) (fun ie palmap =>
    let '(i, entry) := ie in
    name <- tag_get entry "Name" (TString "minecraft:air") ;;
    let name := py_str name in
    props <- tag_get entry "Properties" (TCompound []) ;;
    formatted <- format_block_name name props ;;
    Ok (<[i := formatted]> palmap)) ∅.

(** Lines 226-232. *)
Definition place_blocks (blocks : tag) (palmap : gmap Z string)
  (width length : Z) (flat : list (Z * Z)) : result (list (Z * Z)) :=
  blocks <- tag_iter blocks ;;
  for_in blocks (fun b flat =>
    pos <- tag_item b "pos" ;; x <- tag_index pos 0 ;; x <- py_int x ;;
    pos <- tag_item b "pos" ;; y <- tag_index pos 1 ;; y <- py_int y ;;
    pos <- tag_item b "pos" ;; z <- tag_index pos 2 ;; z <- py_int z ;;
    state <- tag_get b "state" (TInt 0) ;;
    state <- py_int state ;;
    let name := default "minecraft:air"%string (palmap !! state) in
    let '(rid, meta) := get_block_id name in
    let idx := y * (width * length) + z * width + x in
    setitem flat idx (rid, meta)) flat.

(** [parse_nbt_structure]. *)
Definition parse_nbt_structure (nbt_file : option tag)
  : result (list (Z * Z) * (Z * Z * Z)) :=
  match parse_fields nbt_file with
  | Raise _ => Raise InvalidNBT
  | Ok (blocks, size, palette) =>
      palmap <- build_palmap palette ;;
      match size with
      | [width; height; length] =>
          let total := width * height * length in
          let flat := replicate (Z.to_nat total) (0, 0) in
          flat <- place_blocks blocks palmap width length flat ;;
          if negb (Z.of_nat (List.length flat) =? total) then Raise SizeMismatch
          else Ok (flat, (width, height, length))
      | _ => Raise UnpackError
      end
  end.

(** *** The insertion loop, lines 257-278 *)

(** Lines 273-276: write one chunk, append its index entry, advance the
    slot number.  [name] is the name of the database and [opened] the bytes
    it held when it was opened.  When the database is [index.cdb] itself,
    the index exists and is the file just written to: the record is packed
    as ever, and the file keeps its bytes below the length it was opened
    with, the rest being left to [io_shared]. *)
Definition insert_chunk (name : string) (opened : list Z) (flat : list (Z * Z))
  (size : Z * Z * Z) (start_x start_z subsize chunks_x cz cx : Z) (st : loop_state)
  : loop_state * option exn :=
  let offset := 20 + (cz * chunks_x + cx) * subsize in
  match write_chunk_to_subfile (st_f st) offset (start_x + cx) (start_z + cz) flat size with
  | Raise e => (st, Some e)
  | Ok f =>
      let st := {| st_f := f; st_index := st_index st; st_slot_number := st_slot_number st |} in
      if String.eqb name index_name then
        match update_index_entry (Some (content f)) (start_x + cx) (start_z + cz)
                (st_slot_number st) with
        | Raise e => (st, Some e)
        | Ok _ =>
            let bytes := take (List.length opened) (content f)
                         ++ io_shared opened flat size (start_x, start_z) (cz, cx) st in
            ({| st_f := {| content := bytes; position := position f |};
                st_index := st_index st;
                st_slot_number := st_slot_number st + 1 |}, None)
        end
      else
        match update_index_entry (st_index st) (start_x + cx) (start_z + cz)
                (st_slot_number st) with
        | Raise e => (st, Some e)
        | Ok index =>
            ({| st_f := f; st_index := index; st_slot_number := st_slot_number st + 1 |}, None)
        end
  end.

(** Lines 267-270: the loop over [block_idx], whose body is [pass]. *)
Definition per_block_loop (size : Z * Z * Z) (st : loop_state) : loop_state * option exn :=
  let '(_, size1, _) := size in
  let block_count := size1 * 16 * 16 in
  for_io (range (size1 * 16 * 16)) (fun block_idx st => (st, None)) st.

(** [insert_structure].  Line 258 computes the path of the index first,
    which raises [ValueError] for a database path without a file name; then
    the database is opened for update; leaving the [with] block closes it,
    also when an exception passes through. *)
Definition insert_structure (w : world) (flat : list (Z * Z)) (size : Z * Z * Z)
  (start_x start_z slot_number : Z) : world * option exn :=
  if String.eqb (cdb_name w) "" then (w, Some EmptyName)
  else
    match files w !! cdb_name w with
    | None => (w, Some OSError)
    | Some bytes =>
        let '(f, header) := read_file_header {| content := bytes; position := 0 |} in
        let st := {| st_f := f; st_index := index_file w; st_slot_number := slot_number |} in
        let '(st, e) :=
          match header with
          | Ok [s0; s1; count; footer; subsize; unk0] =>
              let '(size0, _, size2) := size in
              let chunks_x := (size0 + 15) / 16 in
              let chunks_z := (size2 + 15) / 16 in
              for_io (range chunks_z) (fun cz st =>
                for_io (range chunks_x) (fun cx st =>
                  match per_block_loop size st with
                  | (st, None) =>
                      insert_chunk (cdb_name w) bytes flat size start_x start_z subsize
                                   chunks_x cz cx st
                  | (st, Some e) => (st, Some e)
                  end) st) st
          | Ok _ => (st, Some UnpackError)
          | Raise e => (st, Some e)
          end in
        (store w (content (st_f st)) (st_index st), e)
    end.

(** The same routine as the specification wants it reimplemented: without
    the per-block loop. *)
Definition insert_structure_spec (w : world) (flat : list (Z * Z)) (size : Z * Z * Z)
  (start_x start_z slot_number : Z) : world * option exn :=
  if String.eqb (cdb_name w) "" then (w, Some EmptyName)
  else
    match files w !! cdb_name w with
    | None => (w, Some OSError)
    | Some bytes =>
        let '(f, header) := read_file_header {| content := bytes; position := 0 |} in
        let st := {| st_f := f; st_index := index_file w; st_slot_number := slot_number |} in
        let '(st, e) :=
          match header with
          | Ok [s0; s1; count; footer; subsize; unk0] =>
              let '(size0, _, size2) := size in
              let chunks_x := (size0 + 15) / 16 in
              let chunks_z := (size2 + 15) / 16 in
              for_io (range chunks_z) (fun cz st =>
                for_io (range chunks_x) (fun cx st =>
                  insert_chunk (cdb_name w) bytes flat size start_x start_z subsize
                               chunks_x cz cx st) st) st
          | Ok _ => (st, Some UnpackError)
          | Raise e => (st, Some e)
          end in
        (store w (content (st_f st)) (st_index st), e)
    end.

(** [on_insert], lines 323-331, after the text fields have been read: the
    structure is parsed first, and the database is touched only when that
    succeeded. *)
Definition on_insert (w : world) (nbt_file : option tag) (x z slot_number : Z)
  : world * option exn :=
  match parse_nbt_structure nbt_file with
  | Raise e => (w, Some e)
  | Ok (flat, size) => insert_structure w flat size x z slot_number
  end.

End Program.

(** ** Notions used in the statements *)

(** The eight fields of the index record for chunk [(x, z)] and a slot. *)
Definition index_fields (x z slot_number : Z) : list Z :=
  [ if x <? 0 then Z.land (x + 2 ^ 14) 0x3FFF else Z.land x 0x3FFF;
    if z <? 0 then Z.land (z + 2 ^ 14) 0x3FFF else Z.land z 0x3FFF;
    slot_number; 0; 0x20FF; 0xA; 0x1; 0x8000 ].

(** [record] is 16 bytes that read back, as eight u16, as those fields. *)
Definition is_index_record (record : list Z) (x z slot_number : Z) : Prop :=
  length record = 16%nat /\
  unpack [fmt_H; fmt_H; fmt_H; fmt_H; fmt_H; fmt_H; fmt_H; fmt_H] record
  = Ok (index_fields x z slot_number).

(** [n] bytes of a file from byte [start] on. *)
Definition slice (bytes : list Z) (start : Z) (n : nat) : list Z :=
  take n (drop (Z.to_nat start) bytes).

(** The voxel of the flat array at linear index [idx], if it has one. *)
Definition voxel (flat : list (Z * Z)) (idx : Z) : option (Z * Z) :=
  if (0 <=? idx) && (idx <? Z.of_nat (length flat)) then flat !! Z.to_nat idx else None.

(** The value the byte-plane loop computes for local [(x, z, sub_y)] of
    subchunk [s], before it is appended. *)
Definition byte_plane_value (flat : list (Z * Z)) (width height length : Z)
  (chunk_x chunk_z s x z sub_y : Z) : Z :=
  let world_y := s * 16 + sub_y in
  if height <=? world_y then 0
  else match voxel flat (world_y * (width * length)
                         + (chunk_z * 16 + z) * width + (chunk_x * 16 + x)) with
       | Some v => fst v
       | None => 0
       end.

(** The value the biome loop computes for local [(x, z)]. *)
Definition biome_value (flat : list (Z * Z)) (width : Z) (chunk_x chunk_z x z : Z) : Z :=
  match voxel flat ((chunk_z * 16 + z) * width + (chunk_x * 16 + x)) with
  | Some v => fst v
  | None => 1
  end.

(** One step of the insertion as the specification words it: the chunk
    encoder writes chunk [(x, z)] at [offset], then the index appender
    appends the entry for [(x, z)] with [slot]. *)
Definition write_and_index (compress : list Z -> list Z) (flat : list (Z * Z))
  (size : Z * Z * Z) (entry : Z * Z * Z * Z) (files : handle * option (list Z))
  : (handle * option (list Z)) * option exn :=
  let '(offset, x, z, slot) := entry in
  match write_chunk_to_subfile compress (fst files) offset x z flat size with
  | Raise e => (files, Some e)
  | Ok f =>
      match update_index_entry (snd files) x z slot with
      | Raise e => ((f, snd files), Some e)
      | Ok index => ((f, index), None)
      end
  end.

(** The chunks of an insertion in the order the specification gives them,
    cz outer and cx inner, each with its file offset, its chunk coordinates
    and its slot number. *)
Definition chunk_plan (start_x start_z slot_number subsize chunks_x chunks_z : Z)
  : list (Z * Z * Z * Z) :=
  cz ← range chunks_z;
  cx ← range chunks_x;
  [(20 + (cz * chunks_x + cx) * subsize, start_x + cx, start_z + cz,
    slot_number + (cz * chunks_x + cx))].

(** The two files among the variables of the insertion loop. *)
Definition files_of (st : loop_state) : handle * option (list Z) := (st_f st, st_index st).

(** A loop whose iterations assign to elements of a buffer of fixed length:
    every element the loop leaves either is as it was or satisfies [Q], and
    an element some iteration is known to assign (region [R]) satisfies
    [Q]. *)
Definition assigns {B} (Q : nat -> B -> Prop) (R : nat -> Prop) (s s' : list B) : Prop :=
  length s' = length s /\
  forall p, ((exists x, s' !! p = Some x /\ Q p x) \/ s' !! p = s !! p) /\
            (R p -> exists x, s' !! p = Some x /\ Q p x).

(** A computation that does not raise [SizeMismatch], whatever else it
    does. *)
Definition no_mismatch {A} (m : result A) : Prop := m <> Raise SizeMismatch.


(** Voxels the chunk writer can encode: a runtime id that is a byte and a
    metadata value that is a nibble. *)
Definition encodable (flat : list (Z * Z)) : Prop :=
  Forall (fun v => 0 <= fst v < 256 /\ 0 <= snd v < 16) flat.

(** The 108 bytes that follow the magic number of a chunk record: the
    position word, the format bytes (1, 0), three reserved u16, the section
    slot in use (0, 112, compressedLen, rawLen) and five unused slots
    (-1, 0, 0, 0). *)
Definition header_bytes (position_word comp_len raw_len : Z) : list Z :=
  le_bytes 4 position_word ++ le_bytes 1 1 ++ le_bytes 1 0
  ++ le_bytes 2 0 ++ le_bytes 2 0 ++ le_bytes 2 0
  ++ (le_bytes 4 0 ++ le_bytes 4 112 ++ le_bytes 4 comp_len ++ le_bytes 4 raw_len)
  ++ mjoin (replicate 5 (le_bytes 4 (-1) ++ le_bytes 4 0 ++ le_bytes 4 0 ++ le_bytes 4 0)).

(** The whole record of a chunk: magic number, header, compressed payload. *)
Definition chunk_record (chunk_x chunk_z : Z) (comp raw : list Z) : list Z :=
  le_bytes 4 MAGIC_CDB
  ++ header_bytes (encode_position chunk_x chunk_z 0)
                  (Z.of_nat (length comp)) (Z.of_nat (length raw))
  ++ comp.

(** The 16 bytes of the index entry for chunk [(x, z)] and a slot: its
    eight fields as little-endian u16. *)
Definition index_record (x z slot_number : Z) : list Z :=
  mjoin (le_bytes 2 <$> index_fields x z slot_number).

(** The uncompressed payload of chunk [(x, z)]; nothing when the encoder
    raises. *)
Definition chunk_payload (flat : list (Z * Z)) (size : Z * Z * Z) (x z : Z) : list Z :=
  match chunk_raw x z flat size with
  | Ok raw => raw
  | Raise _ => []
  end.

(** The bytes of the database once the record of a chunk of the plan has
    been written over them at its offset: magic number, header, compressed
    payload. *)
Definition place_chunk (compress : list Z -> list Z) (flat : list (Z * Z))
  (size : Z * Z * Z) (bytes : list Z) (entry : Z * Z * Z * Z) : list Z :=
  let '(offset, x, z, _) := entry in
  let raw := chunk_payload flat size x z in
  content (write {| content := bytes; position := Z.to_nat offset |}
                 (chunk_record x z (compress raw) raw)).

(** The index once the entries of the chunks [done] of the plan have been
    appended, in their order; an index that does not exist stays that
    way. *)
Definition index_after (index : option (list Z)) (done : list (Z * Z * Z * Z))
  : option (list Z) :=
  (fun bytes => bytes ++ mjoin ((fun '(_, x, z, slot) => index_record x z slot) <$> done))
  <$> index.

(** The index file [new] is the index file [old] with [k] records of 16
    bytes appended; an index file that does not exist stays that way. *)
Definition index_grown (old new : option (list Z)) (k : nat) : Prop :=
  match old with
  | None => new = None
  | Some index => exists records, new = Some (index ++ records) /\ length records = (16 * k)%nat
  end.

(** The bytes of a file are bytes. *)
Definition all_bytes (bytes : list Z) : Prop := Forall (fun b => 0 <= b < 256) bytes.

(** The two loops of [insert_structure] over the chunks, lines 264-276,
    with the variables they update, once the per-block loop is left out. *)
Definition insert_loops (compress : list Z -> list Z)
  (io_shared : list Z -> list (Z * Z) -> Z * Z * Z -> Z * Z -> Z * Z -> loop_state -> list Z)
  (name : string) (opened : list Z) (flat : list (Z * Z))
  (width height length start_x start_z subsize : Z) (st : loop_state)
  : loop_state * option exn :=
  let chunks_x := (width + 15) / 16 in
  let chunks_z := (length + 15) / 16 in
  for_io (range chunks_z) (fun cz st =>
    for_io (range chunks_x) (fun cx st =>
      insert_chunk compress io_shared name opened flat (width, height, length)
                   start_x start_z subsize chunks_x cz cx st) st) st.

(** The variables of the insertion loop after [k] chunks have been
    inserted without an exception: the slot number has advanced by [k] and
    the index has grown by [k] records. *)
Definition chunks_done (old : option (list Z)) (slot_number k : Z) (st : loop_state) : Prop :=
  st_slot_number st = slot_number + k /\ index_grown old (st_index st) (Z.to_nat k).

(** The value the nibble-plane loop computes for local [(x, z, sub_y)] of
    subchunk [s], before it is packed. *)
Definition nibble_plane_value (flat : list (Z * Z)) (width height length : Z)
  (chunk_x chunk_z s x z sub_y : Z) : Z :=
  let world_y := s * 16 + sub_y in
  if height <=? world_y then 0
  else match voxel flat (world_y * (width * length)
                         + (chunk_z * 16 + z) * width + (chunk_x * 16 + x)) with
       | Some v => snd v
       | None => 0
       end.

(** The same value by local index [sub_y * 256 + z * 16 + x]. *)
Definition nibble_at (value : Z -> Z -> Z -> Z) (local_index : Z) : Z :=
  value (local_index mod 16) ((local_index / 16) mod 16) (local_index / 256).

(** Byte [j] of the nibble buffer once the local indices below [k] have
    been dealt with: both nibbles packed, the low one only, or still 0. *)
Definition nibble_byte (nv : Z -> Z) (k j : Z) : Z :=
  if 2 * j + 1 <? k then Z.lor (Z.land (nv (2 * j)) 0x0F) (Z.shiftl (nv (2 * j + 1)) 4)
  else if 2 * j <? k then nv (2 * j)
  else 0.

(** The nibble buffer [b] after the local indices below [k]. *)
Definition nibbles_upto (nv : Z -> Z) (k : Z) (b : list Z) : Prop :=
  length b = 4096%nat /\
  forall j, 0 <= j < 4096 -> b !! Z.to_nat j = Some (nibble_byte nv k j).

(** The name the palette loop, lines 217-220, computes for one palette
    entry. *)
Definition palette_name (repr_tag : tag -> string) (entry : tag) : result string :=
  name <- tag_get entry "Name" (TString "minecraft:air") ;;
  props <- tag_get entry "Properties" (TCompound []) ;;
  format_block_name repr_tag (py_str repr_tag name) props.

(** ** Instances and sample inputs for the examples *)

Module Samples.

(** Adler-32, the checksum that ends a zlib stream. *)
Definition adler32 (data : list Z) : Z :=
  let '(a, b) :=
    fold_left (fun ab byte =>
                 let a := (fst ab + byte) mod 65521 in
                 (a, (snd ab + a) mod 65521)) data (1, 0) in
  b * 65536 + a.

Fixpoint stored_blocks (fuel : nat) (data : list Z) : list Z :=
  match fuel with
  | O => [1; 0; 0; 255; 255]
  | S fuel =>
      let n := Z.of_nat (length data) in
      if n <=? 65535
      then [1] ++ le_bytes 2 n ++ le_bytes 2 (65535 - n) ++ data
      else [0; 255; 255; 0; 0] ++ take (Z.to_nat 65535) data
           ++ stored_blocks fuel (drop (Z.to_nat 65535) data)
  end.

(** An instance of [zlib.compress]: the stored encoding (what zlib emits
    at level 0), a valid zlib stream for every input. *)
Definition zlib_stored (data : list Z) : list Z :=
  [0x78; 0x01] ++ stored_blocks (S (length data)) data
  ++ rev (le_bytes 4 (adler32 data)).

Definition digit_of (c : ascii) : option Z :=
  let n := Z.of_nat (nat_of_ascii c) in
  if (48 <=? n) && (n <=? 57) then Some (n - 48) else None.

Fixpoint digits (acc : Z) (s : string) : option Z :=
  match s with
  | EmptyString => Some acc
  | String c s => d ← digit_of c; digits (10 * acc + d) s
  end.

(** An instance of [int] on text: plain decimal numerals with an optional
    minus sign. *)
Definition decimal (s : string) : option Z :=
  match s with
  | EmptyString => None
  | String "-" (String c s) => Z.opp <$> digits 0 (String c s)
  | String c s => digits 0 (String c s)
  end.

(** An instance of [str] on tags that are not strings; the samples never
    reach it, their names and property values being strings. *)
Definition plain_repr (t : tag) : string :=
  match t with
  | TString s => s
  | TInt _ => "<int>"
  | TList _ => "<list>"
  | TCompound _ => "<compound>"
  end.

Definition stone : gmap string (Z * Z) := {[ "minecraft:stone"%string := (5, 0) ]}.

(** A database that holds only the header [read_file_header] reads, 20
    bytes, with [subfile_size] 0x4000. *)
Definition db_header : list Z :=
  le_bytes 2 1 ++ le_bytes 2 0 ++ le_bytes 4 1 ++ le_bytes 4 0
  ++ le_bytes 4 0x4000 ++ le_bytes 4 0.

Definition db_handle : handle := {| content := db_header; position := 20 |}.

(** The structure of size [1, 1, 1] with one stone block. *)
Definition block (x y z state : Z) : tag :=
  TCompound [("pos"%string, TList [TInt x; TInt y; TInt z]);
             ("state"%string, TInt state)].

Definition stone_palette : tag :=
  TList [TCompound [("Name"%string, TString "minecraft:stone")]].

Definition one_block : tag :=
  TCompound [("size"%string, TList [TInt 1; TInt 1; TInt 1]);
             ("palette"%string, stone_palette);
             ("blocks"%string, TList [block 0 0 0 0])].

(** The same structure with its palette and blocks keys left out. *)
Definition size_only : tag :=
  TCompound [("size"%string, TList [TInt 1; TInt 1; TInt 1])].

(** A size entry that is not a number. *)
Definition tall : tag :=
  TCompound [("size"%string, TList [TInt 1; TString "tall"; TInt 1]);
             ("palette"%string, stone_palette);
             ("blocks"%string, TList [block 0 0 0 0])].

(** Two blocks side by side under a declared size of one block. *)
Definition two_in_one : tag :=
  TCompound [("size"%string, TList [TInt 1; TInt 1; TInt 1]);
             ("palette"%string, stone_palette);
             ("blocks"%string, TList [block 0 0 0 0; block 1 0 0 0])].

(** Three blocks of a 2 x 1 x 2 footprint under a declared size [1, 2, 1]. *)
Definition three_in_two : tag :=
  TCompound [("size"%string, TList [TInt 1; TInt 2; TInt 1]);
             ("palette"%string, stone_palette);
             ("blocks"%string, TList [block 0 0 0 0; block 1 0 0 0; block 0 0 1 0])].

(** A declared size with a negative product, and no blocks. *)
Definition negative_size : tag :=
  TCompound [("size"%string, TList [TInt (-1); TInt 1; TInt 1]);
             ("palette"%string, stone_palette)].

(** One block at x = -1 under a declared size [2, 1, 1]. *)
Definition behind : tag :=
  TCompound [("size"%string, TList [TInt 2; TInt 1; TInt 1]);
             ("palette"%string, stone_palette);
             ("blocks"%string, TList [block (-1) 0 0 0])].

(** A database file [slt0.cdb] holding only its header, beside an empty
    index. *)
Definition fresh_world : world :=
  {| cdb_name := "slt0.cdb";
     files := <["slt0.cdb"%string := db_header]> {[ index_name := [] ]} |}.

(** The same database in a directory without [index.cdb]. *)
Definition lone_world : world :=
  {| cdb_name := "slt0.cdb"; files := {[ "slt0.cdb"%string := db_header ]} |}.

(** A database path without a file name. *)
Definition unnamed : world := {| cdb_name := ""; files := ∅ |}.

(** The database and the index of the samples are two files, where what
    two file objects on one file do plays no role. *)
Definition io_plain (opened : list Z) (flat : list (Z * Z)) (size : Z * Z * Z)
  (start chunk : Z * Z) (st : loop_state) : list Z := [].

(** The flat array of a 2 x 1 x 2 structure with four different blocks. *)
Definition four_blocks : list (Z * Z) := [(1, 0); (2, 0); (3, 0); (4, 0)].

End Samples.
(** ** Bit-level facts about the packed field *)

Section PackedField.

Lemma mask14 : 0x3FFF = Z.ones 14.
Proof. reflexivity. Qed.

Lemma mask4 : 0xF = Z.ones 4.
Proof. reflexivity. Qed.

Lemma ones_bit (n i : Z) :
  0 <= n -> Z.testbit (Z.ones n) i = negb (i <? 0) && (i <? n).
Proof.
  intros Hn. destruct (Z.ltb_spec i 0); cbn.
  - apply Z.testbit_neg_r; lia.
  - destruct (Z.ltb_spec i n).
    + apply Z.ones_spec_low; lia.
    + apply Z.ones_spec_high; lia.
Qed.

Lemma shiftl_bit (a n i : Z) :
  Z.testbit (Z.shiftl a n) i = negb (i <? 0) && Z.testbit a (i - n).
Proof.
  destruct (Z.ltb_spec i 0); cbn.
  - apply Z.testbit_neg_r; lia.
  - apply Z.shiftl_spec; lia.
Qed.

Lemma shiftr_bit (a n i : Z) :
  Z.testbit (Z.shiftr a n) i = negb (i <? 0) && Z.testbit a (i + n).
Proof.
  destruct (Z.ltb_spec i 0); cbn.
  - apply Z.testbit_neg_r; lia.
  - apply Z.shiftr_spec; lia.
Qed.

(** Equality of two bit-vector expressions, bit by bit: push [Z.testbit]
    to the variables, split on every index comparison, and bring each
    remaining index back to the bound one. *)
Ltac bits :=
  apply Z.bits_inj'; let i := fresh "i" in let Hi := fresh "Hi" in
  intros i Hi;
  repeat first [ rewrite Z.land_spec | rewrite Z.lor_spec | rewrite shiftl_bit
               | rewrite shiftr_bit | rewrite ones_bit by lia ];
  repeat match goal with
  | |- context [?a <? ?b] => destruct (Z.ltb_spec a b); try lia
  end;
  cbn [negb andb orb];
  rewrite ?andb_true_r, ?andb_false_r, ?orb_false_r;
  repeat match goal with
  | |- context [Z.testbit ?a ?j] =>
      lazymatch j with i => fail | _ => idtac end;
      first [ rewrite (Z.testbit_neg_r a j) by lia | replace j with i by lia ]
  end;
  rewrite ?andb_true_r, ?andb_false_r, ?orb_false_r;
  try reflexivity; try btauto.

Lemma low_field (d z x : Z) :
  Z.land (Z.lor (Z.lor (Z.shiftl d 28) (Z.shiftl (Z.land z (Z.ones 14)) 14))
                (Z.land x (Z.ones 14))) (Z.ones 14)
  = Z.land x (Z.ones 14).
Proof. bits. Qed.

Lemma mid_field (d z x : Z) :
  Z.land (Z.shiftr (Z.lor (Z.lor (Z.shiftl d 28) (Z.shiftl (Z.land z (Z.ones 14)) 14))
                          (Z.land x (Z.ones 14))) 14) (Z.ones 14)
  = Z.land z (Z.ones 14).
Proof. bits. Qed.

Lemma high_field (d z x : Z) :
  Z.land (Z.shiftr (Z.lor (Z.lor (Z.shiftl (Z.land d (Z.ones 4)) 28)
                                 (Z.shiftl (Z.land z (Z.ones 14)) 14))
                          (Z.land x (Z.ones 14))) 28) (Z.ones 4)
  = Z.land d (Z.ones 4).
Proof. bits. Qed.

Lemma land_ones_small (a n : Z) : 0 <= n -> 0 <= a < 2 ^ n -> Z.land a (Z.ones n) = a.
Proof. intros Hn Ha. rewrite Z.land_ones by lia. apply Z.mod_small; lia. Qed.

Lemma land_ones_range (a n : Z) : 0 <= n -> 0 <= Z.land a (Z.ones n) < 2 ^ n.
Proof. intros Hn. rewrite Z.land_ones by lia. apply Z.mod_pos_bound. lia. Qed.

Lemma decode_unfold (v : Z) :
  decode v = (wrap14 (Z.land v (Z.ones 14)),
              wrap14 (Z.land (Z.shiftr v 14) (Z.ones 14)),
              Z.land (Z.shiftr v 28) (Z.ones 4)).
Proof.
  unfold decode, parse_position, to_signed, init, wrap14.
  rewrite <- mask14, <- mask4. cbn [px pz dimension fst].
  destruct (Z.shiftl 1 13 <=? Z.land v 0x3FFF); cbn [px pz dimension];
    destruct (Z.shiftl 1 13 <=? Z.land (Z.shiftr v 14) 0x3FFF); reflexivity.
Qed.

Lemma encode_unfold (x z dim : Z) :
  encode_position x z dim
  = Z.lor (Z.lor (Z.shiftl (Z.land dim (Z.ones 4)) 28)
                 (Z.shiftl (Z.land (unwrap14 z) (Z.ones 14)) 14))
          (Z.land (unwrap14 x) (Z.ones 14)).
Proof. reflexivity. Qed.

Lemma unwrap14_wrap14 (u : Z) :
  0 <= u < 2 ^ 14 -> Z.land (unwrap14 (wrap14 u)) (Z.ones 14) = u.
Proof.
  intros Hu. unfold unwrap14, wrap14.
  change (Z.shiftl 1 13) with 8192. change (Z.shiftl 1 14) with 16384.
  change (2 ^ 14) with 16384 in Hu.
  destruct (Z.leb_spec 8192 u).
  - destruct (Z.ltb_spec (u - 16384) 0); [|lia].
    replace (u - 16384 + 16384) with u by lia. apply land_ones_small; lia.
  - destruct (Z.ltb_spec u 0); [lia|]. apply land_ones_small; lia.
Qed.

Lemma wrap14_unwrap14 (s : Z) :
  -8192 <= s <= 8191 -> wrap14 (Z.land (unwrap14 s) (Z.ones 14)) = s.
Proof.
  intros Hs. unfold unwrap14, wrap14.
  change (Z.shiftl 1 13) with 8192. change (Z.shiftl 1 14) with 16384.
  destruct (Z.ltb_spec s 0).
  - rewrite land_ones_small by lia. destruct (Z.leb_spec 8192 (s + 16384)); lia.
  - rewrite land_ones_small by lia. destruct (Z.leb_spec 8192 s); lia.
Qed.

Lemma reassemble32 (v : Z) :
  0 <= v < 2 ^ 32 ->
  Z.lor (Z.lor (Z.shiftl (Z.land (Z.shiftr v 28) (Z.ones 4)) 28)
               (Z.shiftl (Z.land (Z.shiftr v 14) (Z.ones 14)) 14))
        (Z.land v (Z.ones 14)) = v.
Proof.
  intros Hv.
  rewrite <- (land_ones_small v 32) at 4 by lia.
  bits.
Qed.

Lemma encode_position_range (x z dim : Z) : 0 <= encode_position x z dim < 2 ^ 32.
Proof.
  rewrite encode_unfold.
  match goal with |- 0 <= ?e < _ =>
    assert (E : Z.land e (Z.ones 32) = e) by bits; rewrite <- E
  end.
  apply land_ones_range. lia.
Qed.

End PackedField.

(** ** Round trips of the position codec *)

(** C1: for x, z in [-8192, 8191] and dim in [0, 15], decoding
    [encode_position x z dim] with [CDBPosition(...).parse_position()]
    returns exactly [(x, z, dim)]. *)
Theorem decode_encode_position (x z dim : Z) :
  -8192 <= x <= 8191 -> -8192 <= z <= 8191 -> 0 <= dim <= 15 ->
  decode (encode_position x z dim) = (x, z, dim).
Proof.
  intros Hx Hz Hd.
  rewrite decode_unfold, encode_unfold.
  rewrite low_field, mid_field, high_field.
  rewrite !wrap14_unwrap14 by assumption.
  rewrite land_ones_small by lia. reflexivity.
Qed.

Lemma decode_encode_position_witness :
  decode (encode_position (-8192) 8191 15) = (-8192, 8191, 15).
Proof. apply decode_encode_position; lia. Defined.

(** C10: for every unsigned 32-bit [v], re-encoding the triple decoded from
    [v] gives back [v]. *)
Theorem encode_decode_position (v : Z) :
  0 <= v < 2 ^ 32 ->
  let '(x, z, dim) := decode v in encode_position x z dim = v.
Proof.
  intros Hv.
  rewrite decode_unfold, encode_unfold.
  rewrite !unwrap14_wrap14 by (apply land_ones_range; lia).
  rewrite (land_ones_small (Z.land (Z.shiftr v 28) (Z.ones 4)) 4)
    by (try lia; apply land_ones_range; lia).
  now apply reassemble32.
Qed.

Lemma encode_decode_position_witness :
  let '(x, z, dim) := decode 0x0FFFFFFF in encode_position x z dim = 0x0FFFFFFF.
Proof. apply (encode_decode_position 0x0FFFFFFF); lia. Defined.

(** * Properties *)

(** ** Results and loops *)

Lemma bind_Ok {A B} (m : result A) (k : A -> result B) (b : B) :
  (x <- m ;; k x) = Ok b -> exists a, m = Ok a /\ k a = Ok b.
Proof. destruct m as [a|e]; cbn; [eauto | discriminate]. Qed.

(** Peel the binds of a hypothesis [... = Ok _] one by one. *)
Tactic Notation "inv_bind" hyp(H) :=
  let a := fresh "a" in
  let Ha := fresh "H" a in
  apply bind_Ok in H; destruct H as (a & Ha & H).

Tactic Notation "inv_bind" hyp(H) "as" ident(a) ident(Ha) :=
  apply bind_Ok in H; destruct H as (a & Ha & H).

Lemma for_in_app {A S} (l1 l2 : list A) (body : A -> S -> result S) (s : S) :
  for_in (l1 ++ l2) body s = (s' <- for_in l1 body s ;; for_in l2 body s').
Proof.
  revert s; induction l1 as [|i l1 IH]; intros s; cbn; [reflexivity|].
  destruct (body i s); cbn; [apply IH | reflexivity].
Qed.

(** A property of the state that every iteration keeps is kept by the loop. *)
Lemma for_in_inv {A S} (P : S -> Prop) (l : list A) (body : A -> S -> result S) :
  (forall i s s', In i l -> P s -> body i s = Ok s' -> P s') ->
  forall s s', P s -> for_in l body s = Ok s' -> P s'.
Proof.
  induction l as [|i l IH]; intros Hbody s s' Hs H; cbn in H.
  - congruence.
  - inv_bind H. eapply IH; [| |exact H].
    + intros j t t' Hj. apply Hbody. now right.
    + eapply Hbody; [now left| |]; eassumption.
Qed.

(** ** [struct]: what is packed is what is unpacked *)

Lemma length_le_bytes (n : nat) (v : Z) : length (le_bytes n v) = n.
Proof. revert v; induction n; intros v; cbn; [|rewrite IHn]; reflexivity. Qed.

Lemma le_int_le_bytes (n : nat) (v : Z) :
  le_int (le_bytes n v) = v mod 2 ^ (8 * Z.of_nat n).
Proof.
  revert v; induction n as [|n IH]; intros v.
  - cbn. now rewrite Z.mod_1_r.
  - cbn [le_bytes le_int]. rewrite IH.
    change 0xFF with (Z.ones 8). rewrite Z.land_ones, Z.shiftr_div_pow2 by lia.
    replace (8 * Z.of_nat (S n)) with (8 + 8 * Z.of_nat n) by lia.
    rewrite Z.pow_add_r by lia.
    rewrite Z.rem_mul_r by lia. reflexivity.
Qed.

Lemma le_bytes_bytes (n : nat) (v : Z) : Forall (fun b => 0 <= b < 256) (le_bytes n v).
Proof.
  revert v; induction n as [|n IH]; intros v; cbn; constructor; [|apply IH].
  change 0xFF with (Z.ones 8). rewrite Z.land_ones by lia.
  apply Z.mod_pos_bound. lia.
Qed.

(** Evaluate the closed powers of two and sizes of a format character. *)
Ltac fmt_consts :=
  cbv [fmt_min fmt_max fmt_bits fmt_signed fmt_size] in *;
  repeat match goal with
  | |- context [Z.of_nat ?n] =>
      let k := eval vm_compute in (Z.of_nat n) in change (Z.of_nat n) with k
  | H : context [Z.of_nat ?n] |- _ =>
      let k := eval vm_compute in (Z.of_nat n) in change (Z.of_nat n) with k in H
  end;
  repeat match goal with
  | |- context [2 ^ ?e] =>
      let k := eval vm_compute in (2 ^ e) in change (2 ^ e) with k
  | H : context [2 ^ ?e] |- _ =>
      let k := eval vm_compute in (2 ^ e) in change (2 ^ e) with k in H
  end.

Lemma unpack1_le_bytes (c : fmt) (v : Z) :
  fmt_min c <= v <= fmt_max c -> unpack1 c (le_bytes (fmt_size c) v) = v.
Proof.
  intros Hv. unfold unpack1. rewrite le_int_le_bytes.
  destruct c; fmt_consts; cbn [andb].
  all: try (rewrite Z.mod_small by lia; reflexivity).
  all: match goal with
       | |- context [?x mod ?m] =>
           destruct (Z.ltb_spec x 0) as [Hneg|Hpos];
           [ replace (x mod m) with (x + m)
               by (apply Z.mod_unique with (q := -1); lia)
           | rewrite (Z.mod_small x m) by lia ]
       end.
  all: match goal with |- context [?a <=? ?b] => destruct (Z.leb_spec a b) end; lia.
Qed.

Lemma pack1_Ok (c : fmt) (v : Z) (bs : list Z) :
  pack1 c v = Ok bs ->
  fmt_min c <= v <= fmt_max c /\ bs = le_bytes (fmt_size c) v.
Proof.
  unfold pack1. destruct (Z.leb_spec (fmt_min c) v), (Z.leb_spec v (fmt_max c));
    cbn; intros Hp; inversion Hp; split; [lia | reflexivity].
Qed.

Lemma pack1_in_range (c : fmt) (v : Z) :
  fmt_min c <= v <= fmt_max c -> pack1 c v = Ok (le_bytes (fmt_size c) v).
Proof.
  intros Hv. unfold pack1.
  destruct (Z.leb_spec (fmt_min c) v), (Z.leb_spec v (fmt_max c)); cbn; (reflexivity || lia).
Qed.

Lemma pack_length (fs : list fmt) (vs bs : list Z) :
  pack fs vs = Ok bs -> length bs = sum_list (fmt_size <$> fs).
Proof.
  revert vs bs; induction fs as [|c fs IH]; intros [|v vs] bs H; cbn in H; try discriminate.
  - now inversion H.
  - inv_bind H. inv_bind H. inversion H; subst.
    apply pack1_Ok in Ha as [_ ->]. rewrite length_app, length_le_bytes.
    cbn. f_equal. eapply IH; eassumption.
Qed.

Lemma unpack_pack (fs : list fmt) (vs bs : list Z) :
  pack fs vs = Ok bs -> unpack fs bs = Ok vs.
Proof.
  revert vs bs; induction fs as [|c fs IH]; intros [|v vs] bs H; cbn in H; try discriminate.
  - now inversion H.
  - inv_bind H. inv_bind H. inversion H; subst.
    apply pack1_Ok in Ha as [Hv ->].
    cbn [unpack]. rewrite length_app, length_le_bytes.
    destruct (Nat.ltb_spec (fmt_size c + length a0) (fmt_size c)); [lia|].
    rewrite drop_app_length' by (symmetry; apply length_le_bytes).
    rewrite (IH _ _ Ha0). cbn.
    rewrite take_app_length' by (symmetry; apply length_le_bytes).
    now rewrite unpack1_le_bytes.
Qed.

(** ** The index appender *)

Lemma land_3FFF_range (a : Z) : 0 <= Z.land a 0x3FFF <= 0xFFFF.
Proof.
  change 0x3FFF with (Z.ones 14). rewrite Z.land_ones by lia.
  pose proof (Z.mod_pos_bound a (2 ^ 14) ltac:(lia)). lia.
Qed.

Lemma update_index_entry_one (bytes : list Z) (x z slot_number : Z) :
  0 <= slot_number <= 0xFFFF ->
  exists record,
    update_index_entry (Some bytes) x z slot_number = Ok (Some (bytes ++ record)) /\
    is_index_record record x z slot_number.
Proof.
  intros Hslot.
  pose proof (land_3FFF_range x) as Hx. pose proof (land_3FFF_range (x + Z.shiftl 1 14)) as Hx'.
  pose proof (land_3FFF_range z) as Hz. pose proof (land_3FFF_range (z + Z.shiftl 1 14)) as Hz'.
  unfold update_index_entry, CDBEntry_pack, CDBEntry_init; cbn [x_bitfield z_bitfield
    entry_slot_number subfile constant0 unknown0 unknown1 constant1].
  set (xbf := if x <? 0 then _ else _). set (zbf := if z <? 0 then _ else _).
  assert (Hxbf : 0 <= xbf <= 0xFFFF) by (subst xbf; destruct (x <? 0); assumption).
  assert (Hzbf : 0 <= zbf <= 0xFFFF) by (subst zbf; destruct (z <? 0); assumption).
  destruct (pack [fmt_H; fmt_H; fmt_H; fmt_H; fmt_H; fmt_H; fmt_H; fmt_H]
                 [xbf; zbf; slot_number; 0; 0x20FF; 0xA; 0x1; 0x8000]) as [record|e] eqn:Hpack.
  - exists record. split; [reflexivity|]. split.
    + now rewrite (pack_length _ _ _ Hpack).
    + apply (unpack_pack _ _ _ Hpack).
  - exfalso. cbn [pack] in Hpack.
    rewrite !pack1_in_range in Hpack by (fmt_consts; lia). discriminate.
Qed.

Lemma update_index_entry_overflow (bytes : list Z) (x z slot_number : Z) :
  ~ 0 <= slot_number <= 0xFFFF ->
  update_index_entry (Some bytes) x z slot_number = Raise StructError.
Proof.
  intros Hslot.
  pose proof (land_3FFF_range x) as Hx. pose proof (land_3FFF_range (x + Z.shiftl 1 14)) as Hx'.
  pose proof (land_3FFF_range z) as Hz. pose proof (land_3FFF_range (z + Z.shiftl 1 14)) as Hz'.
  unfold update_index_entry, CDBEntry_pack, CDBEntry_init; cbn [x_bitfield z_bitfield
    entry_slot_number subfile constant0 unknown0 unknown1 constant1].
  set (xbf := if x <? 0 then _ else _). set (zbf := if z <? 0 then _ else _).
  assert (Hxbf : 0 <= xbf <= 0xFFFF) by (subst xbf; destruct (x <? 0); assumption).
  assert (Hzbf : 0 <= zbf <= 0xFFFF) by (subst zbf; destruct (z <? 0); assumption).
  cbn [pack]. rewrite !(pack1_in_range fmt_H xbf), !(pack1_in_range fmt_H zbf)
    by (fmt_consts; lia). cbn [bind].
  unfold pack1 at 1. fmt_consts.
  repeat match goal with
  | |- context [?a <=? ?b] => destruct (Z.leb_spec a b)
  end; cbn; (reflexivity || lia).
Qed.

(** The record [update_index_entry] appends is [index_record]. *)
Lemma update_index_entry_record (bytes : list Z) (x z slot_number : Z) :
  0 <= slot_number <= 0xFFFF ->
  update_index_entry (Some bytes) x z slot_number
  = Ok (Some (bytes ++ index_record x z slot_number)).
Proof.
  intros Hslot.
  pose proof (land_3FFF_range x) as Hx. pose proof (land_3FFF_range (x + Z.shiftl 1 14)) as Hx'.
  pose proof (land_3FFF_range z) as Hz. pose proof (land_3FFF_range (z + Z.shiftl 1 14)) as Hz'.
  unfold update_index_entry, CDBEntry_pack, CDBEntry_init, index_record, index_fields;
    cbn [x_bitfield z_bitfield entry_slot_number subfile constant0 unknown0 unknown1 constant1].
  change (2 ^ 14) with (Z.shiftl 1 14).
  set (xbf := if x <? 0 then _ else _). set (zbf := if z <? 0 then _ else _).
  assert (Hxbf : 0 <= xbf <= 0xFFFF) by (subst xbf; destruct (x <? 0); assumption).
  assert (Hzbf : 0 <= zbf <= 0xFFFF) by (subst zbf; destruct (z <? 0); assumption).
  cbn [pack]. rewrite !pack1_in_range by (fmt_consts; lia). cbn [bind fmt_size].
  cbn [fmap list_fmap mjoin list_join]. reflexivity.
Qed.


(** ** Loops that append and loops that assign *)

(** A loop over [range n] whose iterations each append a block of [k]
    elements appends [n] blocks; a property [P i j x] of element [j] of the
    block of iteration [i] carries over to the whole. *)
Lemma for_in_blocks {B} (k : nat) (P : Z -> nat -> B -> Prop)
  (body : Z -> list B -> result (list B)) (lo n : Z) :
  (forall i s s', lo <= i < lo + n -> body i s = Ok s' ->
     exists b, s' = s ++ b /\ length b = k /\ forall j x, b !! j = Some x -> P i j x) ->
  forall s s', for_in (seqZ lo n) body s = Ok s' ->
  exists bs, s' = s ++ bs /\ length bs = (Z.to_nat n * k)%nat /\
    forall (m j : nat) x, (j < k)%nat -> bs !! (m * k + j)%nat = Some x ->
                          P (lo + Z.of_nat m) j x.
Proof.
  destruct (Z.le_gt_cases n 0) as [Hn|Hn].
  { intros _ s s' H. rewrite seqZ_nil in H by lia. cbn in H. inversion H; subst.
    exists []. rewrite app_nil_r. replace (Z.to_nat n) with 0%nat by lia.
    split; [reflexivity|]. split; [reflexivity|].
    intros m j x _ Hx. now rewrite lookup_nil in Hx. }
  rewrite <- (Z2Nat.id n) by lia. generalize (Z.to_nat n) as c. clear n Hn.
  intros c; revert lo; induction c as [|c IH]; intros lo Hbody s s' H.
  - cbn in H. inversion H; subst. exists []. rewrite app_nil_r.
    split; [reflexivity|]. split; [reflexivity|].
    intros m j x _ Hx. now rewrite lookup_nil in Hx.
  - rewrite Nat2Z.inj_succ, seqZ_cons in H by lia. cbn [for_in] in H. inv_bind H.
    destruct (Hbody lo s a ltac:(lia) Ha) as (b & -> & Hlen & Hb).
    replace (Z.pred (Z.succ (Z.of_nat c))) with (Z.of_nat c) in H by lia.
    destruct (IH (Z.succ lo) ltac:(intros; eapply Hbody; [lia|eassumption]) _ _ H)
      as (bs & -> & Hlen' & Hbs).
    exists (b ++ bs). rewrite app_assoc. split; [reflexivity|]. split.
    + rewrite length_app, Hlen, Hlen', !Nat2Z.id. lia.
    + intros m j x Hj Hx. destruct m as [|m].
      * rewrite lookup_app_l in Hx by (cbn; lia). cbn in Hx.
        replace (lo + Z.of_nat 0) with lo by lia. now apply Hb.
      * rewrite lookup_app_r in Hx by (cbn; lia).
        replace (S m * k + j - length b)%nat with (m * k + j)%nat in Hx by (cbn; lia).
        replace (lo + Z.of_nat (S m)) with (Z.succ lo + Z.of_nat m) by lia.
        now apply (Hbs m j x).
Qed.

Lemma for_in_assigns {A B} (Q : nat -> B -> Prop) (R : A -> nat -> Prop)
  (l : list A) (body : A -> list B -> result (list B)) :
  (forall i s s', In i l -> body i s = Ok s' -> assigns Q (R i) s s') ->
  forall s s', for_in l body s = Ok s' ->
  assigns Q (fun p => exists i, In i l /\ R i p) s s'.
Proof.
  induction l as [|i l IH]; intros Hbody s s' H.
  - cbn in H. inversion H; subst. split; [reflexivity|]. intros p. split; [now right|].
    intros (i & [] & _).
  - cbn [for_in] in H. inv_bind H.
    destruct (Hbody i s a ltac:(now left) Ha) as (Hlen1 & H1).
    destruct (IH ltac:(intros j t t' Hj; apply Hbody; now right) _ _ H) as (Hlen2 & H2).
    split; [congruence|]. intros p.
    destruct (H1 p) as (H1a & H1b). destruct (H2 p) as (H2a & H2b). split.
    + destruct H2a as [?|E2]; [now left|]. rewrite E2. exact H1a.
    + intros (j & [<-|Hj] & Hr).
      * destruct H2a as [?|E2]; [assumption|]. rewrite E2. now apply H1b.
      * apply H2b. eauto.
Qed.

(** ** Sequence operations *)

Lemma norm_index_nonneg (len : nat) (i : Z) (n : nat) :
  0 <= i -> norm_index len i = Some n -> n = Z.to_nat i /\ (n < len)%nat.
Proof.
  intros Hi. unfold norm_index.
  destruct (Z.leb_spec 0 i); [|lia]. destruct (Z.ltb_spec i (Z.of_nat len)); cbn.
  - intros [= <-]. lia.
  - destruct (Z.leb_spec (- Z.of_nat len) i), (Z.ltb_spec i 0); cbn; try discriminate. lia.
Qed.

Lemma bytearray_append_Ok (raw : list Z) (v : Z) (raw' : list Z) :
  bytearray_append raw v = Ok raw' -> raw' = raw ++ [v] /\ 0 <= v < 256.
Proof.
  unfold bytearray_append, is_byte.
  destruct (Z.leb_spec 0 v), (Z.ltb_spec v 256); cbn; intros [=]; subst. split; [reflexivity|lia].
Qed.

Lemma bytearray_setitem_Ok (b : list Z) (i v : Z) (b' : list Z) :
  0 <= i -> bytearray_setitem b i v = Ok b' ->
  (Z.to_nat i < length b)%nat /\ b' = <[Z.to_nat i := v]> b /\ 0 <= v < 256.
Proof.
  intros Hi. unfold bytearray_setitem, is_byte.
  destruct (norm_index (length b) i) as [n|] eqn:Hn; [|discriminate].
  apply norm_index_nonneg in Hn as [-> Hlt]; [|assumption].
  destruct (Z.leb_spec 0 v), (Z.ltb_spec v 256); cbn; intros [=]; subst.
  repeat split; (assumption || lia).
Qed.

Lemma bytearray_setitem_length (b : list Z) (i v : Z) (b' : list Z) :
  bytearray_setitem b i v = Ok b' -> length b' = length b.
Proof.
  unfold bytearray_setitem.
  destruct (norm_index (length b) i); [|discriminate].
  destruct (is_byte v); intros [=]; subst. apply length_insert.
Qed.

(** ** The chunk writer *)

Section ChunkWriter.

Variable flat : list (Z * Z).
Variables width height length : Z.
Variables chunk_x chunk_z : Z.

Lemma flat_or_eq (idx : Z) (proj : Z * Z -> Z) (dflt : Z) :
  flat_or flat idx proj dflt
  = Ok (match voxel flat idx with Some v => proj v | None => dflt end).
Proof.
  unfold flat_or, voxel, getitem, norm_index.
  destruct ((0 <=? idx) && (idx <? Z.of_nat (List.length flat))) eqn:Hg; [|reflexivity].
  cbn. apply andb_true_iff in Hg as [H0 H1].
  apply Z.leb_le in H0. apply Z.ltb_lt in H1.
  destruct (lookup_lt_is_Some_2 flat (Z.to_nat idx) ltac:(lia)) as [v ->]. reflexivity.
Qed.

Local Abbreviation bpv := (byte_plane_value flat width height length chunk_x chunk_z).

Lemma byte_plane_blocks (s : Z) (raw raw' : list Z) :
  byte_plane s chunk_x chunk_z flat width height length raw = Ok raw' ->
  exists bs, raw' = raw ++ bs /\ List.length bs = 4096%nat /\
    forall x z sub_y, 0 <= x < 16 -> 0 <= z < 16 -> 0 <= sub_y < 16 ->
    forall b, bs !! Z.to_nat (x * 256 + z * 16 + sub_y) = Some b ->
              b = bpv s x z sub_y /\ 0 <= b < 256.
Proof.
  intros H. unfold byte_plane, range in H.
  pose (P1 := fun (x z sub_y : Z) (j : nat) (b : Z) => b = bpv s x z sub_y /\ 0 <= b < 256).
  pose (P2 := fun (x z : Z) (j : nat) (b : Z) =>
                forall sub_y, 0 <= sub_y < 16 -> j = Z.to_nat sub_y -> P1 x z sub_y 0%nat b).
  pose (P3 := fun (x : Z) (j : nat) (b : Z) =>
                forall z sub_y, 0 <= z < 16 -> 0 <= sub_y < 16 ->
                                j = Z.to_nat (z * 16 + sub_y) -> P1 x z sub_y 0%nat b).
  apply (for_in_blocks 256 P3) in H.
  - destruct H as (bs & -> & Hlen & Hbs). exists bs. split; [reflexivity|].
    split; [rewrite Hlen; reflexivity|].
    intros x z sub_y Hx Hz Hy b Hb.
    pose proof (Hbs (Z.to_nat x) (Z.to_nat (z * 16 + sub_y)) b ltac:(lia)) as Hp.
    replace (0 + Z.of_nat (Z.to_nat x)) with x in Hp by lia.
    replace (Z.to_nat x * 256 + Z.to_nat (z * 16 + sub_y))%nat
      with (Z.to_nat (x * 256 + z * 16 + sub_y)) in Hp by lia.
    exact (Hp Hb z sub_y Hz Hy eq_refl).
  - intros x r r' Hx Hz.
    apply (for_in_blocks 16 (P2 x)) in Hz.
    + destruct Hz as (bs & -> & Hlen & Hbs). exists bs. split; [reflexivity|].
      split; [rewrite Hlen; reflexivity|].
      intros j b Hb z sub_y Hz Hy ->.
      pose proof (Hbs (Z.to_nat z) (Z.to_nat sub_y) b ltac:(lia)) as Hp.
      replace (0 + Z.of_nat (Z.to_nat z)) with z in Hp by lia.
      replace (Z.to_nat z * 16 + Z.to_nat sub_y)%nat
        with (Z.to_nat (z * 16 + sub_y)) in Hp by lia.
      exact (Hp Hb sub_y Hy eq_refl).
    + intros z t t' Hz' Hy.
      apply (for_in_blocks 1 (P1 x z)) in Hy.
      * destruct Hy as (bs & -> & Hlen & Hbs). exists bs. split; [reflexivity|].
        split; [rewrite Hlen; reflexivity|].
        intros j b Hb sub_y Hy ->.
        specialize (Hbs (Z.to_nat sub_y) 0%nat b ltac:(lia)).
        rewrite Nat.mul_1_r, Nat.add_0_r in Hbs. specialize (Hbs Hb).
        now replace (0 + Z.of_nat (Z.to_nat sub_y)) with sub_y in Hbs by lia.
      * intros sub_y u u' Hy' Happ.
        assert (E : bytearray_append u (bpv s x z sub_y) = Ok u').
        { rewrite <- Happ. unfold byte_plane_value. cbv zeta.
          destruct (height <=? s * 16 + sub_y); [reflexivity|].
          now rewrite flat_or_eq. }
        apply bytearray_append_Ok in E as [-> Hb].
        exists [bpv s x z sub_y]. split; [reflexivity|]. split; [reflexivity|].
        intros [|j] b; cbn; [|discriminate]. intros [= <-]. now split.
Qed.

Lemma nibble_plane_length (s : Z) (nibbles : list Z) :
  nibble_plane s chunk_x chunk_z flat width height length = Ok nibbles ->
  List.length nibbles = 4096%nat.
Proof.
  unfold nibble_plane. intros H.
  apply (for_in_inv (fun b : list Z => List.length b = 4096%nat)) in H; [assumption| |reflexivity].
  intros sub_y b b' _ Hb H1.
  apply (for_in_inv (fun b : list Z => List.length b = 4096%nat)) in H1; [assumption| |assumption].
  clear. intros z b b' _ Hb H2.
  apply (for_in_inv (fun b : list Z => List.length b = 4096%nat)) in H2; [assumption| |assumption].
  clear. intros x b b' _ Hb H3.
  inv_bind H3.
  destruct (Z.land (sub_y * 256 + z * 16 + x) 1 =? 0); inv_bind H3;
    apply bytearray_setitem_length in H3; congruence.
Qed.

Lemma biome_plane_cells (biomes : list Z) :
  biome_plane chunk_x chunk_z flat width = Ok biomes ->
  List.length biomes = 256%nat /\
  forall x z, 0 <= x < 16 -> 0 <= z < 16 ->
  exists b, biomes !! Z.to_nat (x * 16 + z) = Some b /\
            b = biome_value flat width chunk_x chunk_z x z /\ 0 <= b < 256.
Proof.
  unfold biome_plane, range. intros H.
  pose (Q := fun (p : nat) (b : Z) =>
               forall x z, 0 <= x < 16 -> 0 <= z < 16 -> p = Z.to_nat (x * 16 + z) ->
                           b = biome_value flat width chunk_x chunk_z x z /\ 0 <= b < 256).
  pose (Rz := fun (x z : Z) (p : nat) => p = Z.to_nat (x * 16 + z)).
  pose (Rx := fun (x : Z) (p : nat) => exists z, In z (seqZ 0 16) /\ Rz x z p).
  apply (for_in_assigns Q Rx) in H.
  - destruct H as (Hlen & Hp). split; [exact Hlen|].
    intros x z Hx Hz.
    destruct (Hp (Z.to_nat (x * 16 + z))) as (_ & Hr).
    destruct Hr as (b & Hb & HQ).
    { exists x. split; [|exists z; split; [|reflexivity]];
        apply list_elem_of_In, elem_of_seqZ; lia. }
    exists b. split; [exact Hb|]. now apply HQ.
  - intros x s s' Hx Hz. apply list_elem_of_In, elem_of_seqZ in Hx.
    apply (for_in_assigns Q (Rz x)) in Hz; [exact Hz|].
    intros z t t' Hz' Hset. apply list_elem_of_In, elem_of_seqZ in Hz'.
    inv_bind Hset. rewrite flat_or_eq in Ha. injection Ha as <-.
    apply bytearray_setitem_Ok in Hset as (Hlt & -> & Hb); [|lia].
    split; [apply length_insert|]. intros p. unfold Rz.
    destruct (decide (p = Z.to_nat (x * 16 + z))) as [->|Hne].
    + assert (HQ : exists b, <[Z.to_nat (x * 16 + z) := biome_value flat width chunk_x chunk_z x z]> t
                               !! Z.to_nat (x * 16 + z) = Some b /\ Q (Z.to_nat (x * 16 + z)) b).
      { eexists. split; [now apply list_lookup_insert_eq|].
        intros x' z' Hx' Hz'' E.
        assert (x' = x /\ z' = z) as [-> ->] by lia. now split. }
      split; [now left | intros _; exact HQ].
    + split; [right; now apply list_lookup_insert_ne | intros ?; congruence].
Qed.

End ChunkWriter.

(** ** Files *)

Lemma length_write_prefix (c : list Z) (p : nat) :
  length (take p c ++ zeros (p - length c)) = p.
Proof. unfold zeros. rewrite length_app, length_take, length_replicate. lia. Qed.

Lemma write_nonempty (f : handle) (data : list Z) :
  data <> [] ->
  write f data
  = {| content := (take (position f) (content f)
                   ++ zeros (position f - length (content f)))
                  ++ data ++ drop (position f + length data) (content f);
       position := position f + length data |}.
Proof. destruct data; [congruence|]. intros _. unfold write. now rewrite <- app_assoc. Qed.

(** Two writes in a row are one write of the concatenation. *)
Lemma write_app (f : handle) (a b : list Z) :
  write (write f a) b = write f (a ++ b).
Proof.
  destruct (decide (a = [])) as [->|Ha]; [reflexivity|].
  destruct (decide (b = [])) as [->|Hb]; [now rewrite app_nil_r|].
  assert (Hab : a ++ b <> []) by (destruct a; [congruence|discriminate]).
  rewrite (write_nonempty f a Ha), (write_nonempty _ b Hb), (write_nonempty f _ Hab).
  destruct f as [c p]. cbn [content position].
  set (X := take p c ++ zeros (p - length c)).
  assert (HX : length X = p) by apply length_write_prefix.
  set (Y := drop (p + length a) c).
  assert (HXa : length (X ++ a) = (p + length a)%nat) by (rewrite length_app; lia).
  replace (X ++ a ++ Y) with ((X ++ a) ++ Y) by now rewrite <- app_assoc.
  rewrite (take_app_length' (X ++ a)) by (symmetry; exact HXa).
  rewrite (drop_app_ge (X ++ a)) by lia.
  replace (p + length a + length b - length (X ++ a))%nat with (length b) by lia.
  replace (p + length a - length ((X ++ a) ++ Y))%nat with 0%nat
    by (rewrite length_app; lia).
  subst Y. rewrite drop_drop. cbn [zeros replicate]. rewrite app_nil_r.
  now rewrite !length_app, <- !app_assoc, !Nat.add_assoc.
Qed.

(** Reading back inside what a write has put down. *)
Lemma slice_write (f : handle) (data : list Z) (i : Z) (n : nat) :
  data <> [] -> 0 <= i -> (Z.to_nat i + n <= length data)%nat ->
  slice (content (write f data)) (Z.of_nat (position f) + i) n
  = take n (drop (Z.to_nat i) data).
Proof.
  intros Hd Hi Hn. rewrite (write_nonempty f data Hd).
  destruct f as [c p]. unfold slice; cbn [content position].
  set (X := take p c ++ zeros (p - length c)).
  assert (HX : length X = p) by apply length_write_prefix.
  clearbody X.
  replace (Z.to_nat (Z.of_nat p + i)) with (length X + Z.to_nat i)%nat by lia.
  rewrite <- drop_drop, drop_app_length.
  rewrite drop_app_le by lia. rewrite take_app_le; [reflexivity|].
  rewrite length_drop. lia.
Qed.

Lemma seek_Ok (f f' : handle) (offset : Z) :
  seek f offset = Ok f' ->
  0 <= offset /\ content f' = content f /\ position f' = Z.to_nat offset.
Proof.
  unfold seek. destruct (Z.ltb_spec offset 0); intros [=]; subst. cbn. auto.
Qed.

(** ** The layout of the raw buffer *)

Lemma pack_single (c : fmt) (v : Z) (bs : list Z) :
  pack [c] [v] = Ok bs -> fmt_min c <= v <= fmt_max c /\ bs = le_bytes (fmt_size c) v.
Proof.
  cbn. intros H. inv_bind H. injection H as <-.
  apply pack1_Ok in Ha as [Hv ->]. now rewrite app_nil_r.
Qed.

Lemma chunk_raw_layout (chunk_x chunk_z : Z) (flat : list (Z * Z))
  (width height length : Z) (raw : list Z) :
  chunk_raw chunk_x chunk_z flat (width, height, length) = Ok raw ->
  let subchunk_count := (height + 15) / 16 in
  0 <= subchunk_count <= 0xFFFF /\
  exists planes biomes,
    raw = le_bytes 2 subchunk_count ++ planes ++ zeros 256 ++ biomes /\
    List.length planes = (Z.to_nat subchunk_count * Z.to_nat 10240)%nat /\
    (forall s x z sub_y, 0 <= s < subchunk_count ->
       0 <= x < 16 -> 0 <= z < 16 -> 0 <= sub_y < 16 ->
       forall b, planes !! Z.to_nat (s * 10240 + (x * 256 + z * 16 + sub_y)) = Some b ->
         b = byte_plane_value flat width height length chunk_x chunk_z s x z sub_y /\
         0 <= b < 256) /\
    List.length biomes = 256%nat /\
    (forall x z, 0 <= x < 16 -> 0 <= z < 16 ->
       exists b, biomes !! Z.to_nat (x * 16 + z) = Some b /\
                 b = biome_value flat width chunk_x chunk_z x z /\ 0 <= b < 256).
Proof.
  intros H sc. unfold chunk_raw in H. fold sc in H.
  inv_bind H as count Hcount. apply pack_single in Hcount as [Hsc ->]. fmt_consts.
  inv_bind H as raw1 Hloop. inv_bind H as biomes Hbiomes. injection H as <-.
  split; [lia|].
  pose (P := fun (s : Z) (j : nat) (b : Z) =>
               forall x z sub_y, 0 <= x < 16 -> 0 <= z < 16 -> 0 <= sub_y < 16 ->
                 j = Z.to_nat (x * 256 + z * 16 + sub_y) ->
                 b = byte_plane_value flat width height length chunk_x chunk_z s x z sub_y /\
                 0 <= b < 256).
  unfold range in Hloop.
  apply (for_in_blocks (Z.to_nat 10240) P) in Hloop.
  - destruct Hloop as (planes & -> & Hlen & Hplanes).
    apply biome_plane_cells in Hbiomes as [Hblen Hbiomes].
    exists planes, biomes. cbn [app]. rewrite <- !app_assoc.
    split; [reflexivity|]. split; [exact Hlen|]. split; [|split; assumption].
    intros s x z sub_y Hs Hx Hz Hy b Hb.
    pose proof (Hplanes (Z.to_nat s) (Z.to_nat (x * 256 + z * 16 + sub_y)) b ltac:(lia)) as Hp.
    replace (Z.to_nat s * Z.to_nat 10240 + Z.to_nat (x * 256 + z * 16 + sub_y))%nat
      with (Z.to_nat (s * 10240 + (x * 256 + z * 16 + sub_y))) in Hp by lia.
    replace (0 + Z.of_nat (Z.to_nat s)) with s in Hp by lia.
    exact (Hp Hb x z sub_y Hx Hz Hy eq_refl).
  - intros s r r' Hs Hbody.
    inv_bind Hbody as r1 Hbp. inv_bind Hbody as nibbles Hnp. injection Hbody as <-.
    apply byte_plane_blocks in Hbp as (bs & -> & Hlen & Hbs).
    apply nibble_plane_length in Hnp.
    exists (bs ++ nibbles ++ zeros (Z.to_nat 0x800)). rewrite <- !app_assoc.
    split; [reflexivity|]. split.
    + unfold zeros. rewrite !length_app, length_replicate. lia.
    + intros j b Hb x z sub_y Hx Hz Hy ->.
      rewrite lookup_app_l in Hb by lia. now apply (Hbs x z sub_y).
Qed.

Lemma chunk_raw_length (chunk_x chunk_z : Z) (flat : list (Z * Z))
  (width height length : Z) (raw : list Z) :
  chunk_raw chunk_x chunk_z flat (width, height, length) = Ok raw ->
  Z.of_nat (List.length raw) = 2 + (height + 15) / 16 * (4096 + 4096 + 2048) + 256 + 256.
Proof.
  intros H. apply chunk_raw_layout in H as (Hsc & planes & biomes & -> & Hlen & _ & Hblen & _).
  unfold zeros. rewrite !length_app, length_le_bytes, length_replicate, Hlen, Hblen. lia.
Qed.

Lemma chunk_header_Ok (chunk_x chunk_z : Z) (comp raw hdr : list Z) :
  chunk_header chunk_x chunk_z comp raw = Ok hdr ->
  exists pre section rest,
    hdr = pre ++ section ++ rest /\ List.length pre = 12%nat /\
    List.length rest = 80%nat /\
    pack [fmt_i; fmt_i; fmt_i; fmt_i]
         [0; 112; Z.of_nat (List.length comp); Z.of_nat (List.length raw)] = Ok section.
Proof.
  unfold chunk_header. intros H.
  inv_bind H as a Ha. inv_bind H as a0 Ha0. inv_bind H as a1 Ha1. inv_bind H as a2 Ha2.
  apply pack_length in Ha, Ha0, Ha1. cbn in Ha, Ha0, Ha1.
  assert (Hpre : List.length ((([] ++ a) ++ a0) ++ a1) = 12%nat)
    by (rewrite !length_app, Ha, Ha0, Ha1; reflexivity).
  rewrite Hpre in Ha2. change (4 + Z.of_nat 12 + 6 * 16) with 112 in Ha2.
  unfold range in H.
  apply (for_in_blocks 16 (fun _ _ _ => True)) in H.
  - destruct H as (rest & -> & Hrest & _). exists ((([] ++ a) ++ a0) ++ a1), a2, rest.
    rewrite <- !app_assoc. split; [reflexivity|].
    split; [now rewrite !app_assoc|]. split; [exact Hrest | exact Ha2].
  - intros i s s' _ Hb. inv_bind Hb as a3 Ha3. injection Hb as <-.
    apply pack_length in Ha3. exists a3. auto.
Qed.

(** ** What the chunk writer leaves in the raw buffer and in the file *)

(** C3: in subchunk [s] of an encoded chunk the byte plane is laid out with
    local x outermost, then z, then sub_y innermost; the byte is 0 when
    world_y = s*16 + sub_y >= height, and otherwise the low byte of the
    runtime id of the voxel of the flat array at the linear index of world
    coordinates (chunk_x*16 + x, chunk_z*16 + z, world_y), 0 standing in
    where the array has no voxel at that index. *)
Theorem byte_plane_layout (chunk_x chunk_z : Z) (flat : list (Z * Z))
  (width height length : Z) (raw : list Z) :
  chunk_raw chunk_x chunk_z flat (width, height, length) = Ok raw ->
  forall s x z sub_y,
    0 <= s < (height + 15) / 16 -> 0 <= x < 16 -> 0 <= z < 16 -> 0 <= sub_y < 16 ->
    let world_y := s * 16 + sub_y in
    raw !! Z.to_nat (2 + s * 10240 + (x * 256 + z * 16 + sub_y))
    = Some (if height <=? world_y then 0
            else match voxel flat (world_y * (width * length)
                                   + (chunk_z * 16 + z) * width + (chunk_x * 16 + x)) with
                 | Some v => Z.land (fst v) 0xFF
                 | None => 0
                 end).
Proof.
  intros H s x z sub_y Hs Hx Hz Hy world_y.
  apply chunk_raw_layout in H as (Hsc & planes & biomes & -> & Hlen & Hplanes & _).
  set (j := x * 256 + z * 16 + sub_y).
  assert (Hlt : (Z.to_nat (s * 10240 + j) < List.length planes)%nat) by (subst j; lia).
  rewrite lookup_app_r by (rewrite length_le_bytes; lia).
  rewrite length_le_bytes.
  replace (Z.to_nat (2 + s * 10240 + j) - 2)%nat with (Z.to_nat (s * 10240 + j)) by lia.
  rewrite lookup_app_l by exact Hlt.
  destruct (lookup_lt_is_Some_2 planes _ Hlt) as [b Hb]. rewrite Hb. f_equal.
  destruct (Hplanes s x z sub_y Hs Hx Hz Hy b Hb) as [E Hbyte].
  unfold byte_plane_value in E. cbv zeta in E. fold world_y in E.
  destruct (height <=? world_y); [exact E|].
  destruct (voxel flat _) as [v|]; [|exact E].
  subst b. symmetry. change 0xFF with (Z.ones 8). apply land_ones_small; lia.
Qed.

(** Where the biome cells lie in the raw buffer, and what they hold. *)
Lemma biome_cell (chunk_x chunk_z : Z) (flat : list (Z * Z))
  (width height length : Z) (raw : list Z) :
  chunk_raw chunk_x chunk_z flat (width, height, length) = Ok raw ->
  forall x z, 0 <= x < 16 -> 0 <= z < 16 ->
    raw !! Z.to_nat (2 + (height + 15) / 16 * 10240 + 256 + (x * 16 + z))
    = Some (biome_value flat width chunk_x chunk_z x z) /\
    0 <= biome_value flat width chunk_x chunk_z x z < 256.
Proof.
  intros H x z Hx Hz.
  apply chunk_raw_layout in H as (Hsc & planes & biomes & -> & Hlen & _ & Hblen & Hbiomes).
  rewrite lookup_app_r by (rewrite length_le_bytes; lia). rewrite length_le_bytes.
  rewrite lookup_app_r by lia.
  rewrite lookup_app_r by (unfold zeros; rewrite length_replicate; lia).
  unfold zeros. rewrite length_replicate, Hlen.
  replace (Z.to_nat (2 + (height + 15) / 16 * 10240 + 256 + (x * 16 + z)) - 2
           - Z.to_nat ((height + 15) / 16) * Z.to_nat 10240 - 256)%nat
    with (Z.to_nat (x * 16 + z)) by lia.
  destruct (Hbiomes x z Hx Hz) as (b & -> & -> & Hbyte). now split.
Qed.

(** C6, as the code has it: cell [x*16 + z] of the 256-byte biome plane
    holds the low byte of the runtime id of the voxel of the flat array at
    linear index (chunk_z*16 + z)*width + (chunk_x*16 + x) whenever the array
    has a voxel at that index, and the default 1 otherwise; a coordinate
    inside the width x length footprint of a structure of height at least 1
    always has one, namely its voxel on the y = 0 plane. *)
Theorem biome_plane_layout (chunk_x chunk_z : Z) (flat : list (Z * Z))
  (width height length : Z) (raw : list Z) :
  chunk_raw chunk_x chunk_z flat (width, height, length) = Ok raw ->
  forall x z, 0 <= x < 16 -> 0 <= z < 16 ->
    let wx := chunk_x * 16 + x in
    let wz := chunk_z * 16 + z in
    raw !! Z.to_nat (2 + (height + 15) / 16 * 10240 + 256 + (x * 16 + z))
    = Some (match voxel flat (wz * width + wx) with
            | Some v => Z.land (fst v) 0xFF
            | None => 1
            end) /\
    (0 <= wx < width -> 0 <= wz < length -> 1 <= height ->
     Z.of_nat (List.length flat) = width * height * length ->
     exists v, voxel flat (wz * width + wx) = Some v /\
               flat !! Z.to_nat (0 * (width * length) + wz * width + wx) = Some v).
Proof.
  intros H x z Hx Hz wx wz. split.
  - destruct (biome_cell _ _ _ _ _ _ _ H x z Hx Hz) as [-> Hbyte]. f_equal.
    unfold biome_value in *. fold wx wz in Hbyte |- *.
    destruct (voxel flat _) as [v|]; [|reflexivity].
    symmetry. change 0xFF with (Z.ones 8). apply land_ones_small; lia.
  - intros Hwx Hwz Hh Hflat. unfold voxel.
    assert (Hidx : 0 <= wz * width + wx < Z.of_nat (List.length flat)).
    { assert (0 <= wz * width) by (apply Z.mul_nonneg_nonneg; lia).
      assert (wz * width <= (length - 1) * width)
        by (apply Z.mul_le_mono_nonneg_r; lia).
      assert (0 <= width * length * (height - 1))
        by (apply Z.mul_nonneg_nonneg; [apply Z.mul_nonneg_nonneg|]; lia).
      lia. }
    destruct (Z.leb_spec 0 (wz * width + wx)); [|lia].
    destruct (Z.ltb_spec (wz * width + wx) (Z.of_nat (List.length flat))); [|lia].
    cbn [andb]. replace (0 * (width * length) + wz * width + wx) with (wz * width + wx) by lia.
    destruct (lookup_lt_is_Some_2 flat (Z.to_nat (wz * width + wx)) ltac:(lia)) as [v Hv].
    eauto.
Qed.

(** C2, as the code has it: the raw buffer of a written chunk has
    2 + subchunk_count*(4096 + 4096 + 2048) + 256 + 256 bytes, where
    subchunk_count = ceil(height / 16) (the nibble plane is a 4096-byte
    buffer); slot 0 of the section table, 16 bytes into the record, reads
    (0, 112, compressedLen, rawLen) with rawLen that length and
    compressedLen the length of the compressed payload, which is what lies
    112 bytes into the record. *)
Theorem written_chunk_lengths (compress : list Z -> list Z) (f : handle)
  (offset chunk_x chunk_z : Z) (flat : list (Z * Z)) (width height length : Z)
  (f' : handle) :
  write_chunk_to_subfile compress f offset chunk_x chunk_z flat (width, height, length)
  = Ok f' ->
  exists raw,
    chunk_raw chunk_x chunk_z flat (width, height, length) = Ok raw /\
    let subchunk_count := (height + 15) / 16 in
    16 * (subchunk_count - 1) < height <= 16 * subchunk_count /\
    Z.of_nat (List.length raw) = 2 + subchunk_count * (4096 + 4096 + 2048) + 256 + 256 /\
    unpack [fmt_i; fmt_i; fmt_i; fmt_i] (slice (content f') (offset + 16) 16)
    = Ok [0; 112; Z.of_nat (List.length (compress raw)); Z.of_nat (List.length raw)] /\
    slice (content f') (offset + 112) (List.length (compress raw)) = compress raw.
Proof.
  unfold write_chunk_to_subfile. intros H.
  inv_bind H as raw Hraw. inv_bind H as hdr Hhdr. inv_bind H as f1 Hseek.
  inv_bind H as magic Hmagic. injection H as <-.
  exists raw. split; [exact Hraw|]. cbv zeta.
  split; [pose proof (Z.div_mod (height + 15) 16 ltac:(lia));
          pose proof (Z.mod_pos_bound (height + 15) 16 ltac:(lia)); lia|].
  split; [exact (chunk_raw_length _ _ _ _ _ _ _ Hraw)|].
  apply seek_Ok in Hseek as (Hoff & _ & Hpos).
  apply pack_single in Hmagic as [_ ->].
  apply chunk_header_Ok in Hhdr as (pre & section & rest & -> & Hpre & Hrest & Hsection).
  pose proof (pack_length _ _ _ Hsection) as Hslen. cbn in Hslen.
  rewrite !write_app.
  set (record := le_bytes (fmt_size fmt_I) MAGIC_CDB ++ (pre ++ section ++ rest) ++ compress raw).
  assert (Hne : record <> []) by (subst record; discriminate).
  replace offset with (Z.of_nat (position f1) + 0) by lia.
  rewrite <- !Z.add_assoc.
  rewrite !(slice_write f1 record) by
    (try assumption; try lia; subst record;
     rewrite ?length_app, ?length_le_bytes; cbn [fmt_size]; lia).
  subst record. split.
  - replace (Z.to_nat (0 + 16)) with (List.length (le_bytes (fmt_size fmt_I) MAGIC_CDB ++ pre))
      by (rewrite length_app, length_le_bytes, Hpre; reflexivity).
    rewrite <- (app_assoc pre), <- (app_assoc section), (app_assoc _ pre).
    rewrite drop_app_length, take_app_length' by (symmetry; exact Hslen).
    now apply unpack_pack.
  - match goal with |- take _ (drop ?n _) = _ =>
      replace n with (List.length (le_bytes (fmt_size fmt_I) MAGIC_CDB ++ pre ++ section ++ rest))
    end.
    + rewrite (app_assoc _ _ (compress raw)), drop_app_length. apply firstn_all.
    + rewrite !length_app, length_le_bytes, Hpre, Hslen, Hrest. reflexivity.
Qed.

(** ** The insertion loop *)

Lemma for_io_ext {A S} (l : list A) (b1 b2 : A -> S -> S * option exn) :
  (forall i s, b1 i s = b2 i s) -> forall s, for_io l b1 s = for_io l b2 s.
Proof.
  intros E. induction l as [|i l IH]; intros s; cbn; [reflexivity|].
  rewrite E. destruct (b2 i s) as [s' [e|]]; [reflexivity | apply IH].
Qed.

Lemma for_io_skip {A S} (l : list A) (s : S) :
  for_io l (fun _ s => (s, None)) s = (s, None).
Proof. induction l; cbn; [reflexivity | assumption]. Qed.

Lemma for_io_app {A S} (l1 l2 : list A) (body : A -> S -> S * option exn) (s : S) :
  for_io (l1 ++ l2) body s
  = match for_io l1 body s with
    | (s, None) => for_io l2 body s
    | (s, Some e) => (s, Some e)
    end.
Proof.
  revert s; induction l1 as [|i l1 IH]; intros s; cbn; [reflexivity|].
  destruct (body i s) as [s' [e|]]; [reflexivity | apply IH].
Qed.

Lemma for_io_bind {A B S} (l : list A) (g : A -> list B)
  (body : B -> S -> S * option exn) (s : S) :
  for_io (l ≫= g) body s = for_io l (fun i s => for_io (g i) body s) s.
Proof.
  revert s; induction l as [|i l IH]; intros s; cbn; [reflexivity|].
  rewrite for_io_app. destruct (for_io (g i) body s) as [s' [e|]]; [reflexivity | apply IH].
Qed.

Lemma for_io_single {A S} (i : A) (body : A -> S -> S * option exn) (s : S) :
  for_io [i] body s = body i s.
Proof. cbn. destruct (body i s) as [s' [e|]]; reflexivity. Qed.

(** Two loops over the same range, one on a state [S] and one on a view
    [view s] of it, run in step as long as an invariant [I i] of the
    iteration about to start links them. *)
Lemma for_io_sim {S T} (view : S -> T) (I : Z -> S -> Prop)
  (b1 : Z -> S -> S * option exn) (b2 : Z -> T -> T * option exn) (c : nat) :
  forall lo,
  (forall i s, lo <= i < lo + Z.of_nat c -> I i s ->
     b2 i (view s) = (view (fst (b1 i s)), snd (b1 i s)) /\
     (snd (b1 i s) = None -> I (i + 1) (fst (b1 i s)))) ->
  forall s, I lo s ->
    for_io (seqZ lo (Z.of_nat c)) b2 (view s)
    = (view (fst (for_io (seqZ lo (Z.of_nat c)) b1 s)),
       snd (for_io (seqZ lo (Z.of_nat c)) b1 s)) /\
    (snd (for_io (seqZ lo (Z.of_nat c)) b1 s) = None ->
     I (lo + Z.of_nat c) (fst (for_io (seqZ lo (Z.of_nat c)) b1 s))).
Proof.
  induction c as [|c IH]; intros lo Hstep s Hs.
  - cbn. rewrite Z.add_0_r. auto.
  - rewrite Nat2Z.inj_succ, seqZ_cons by lia.
    replace (Z.pred (Z.succ (Z.of_nat c))) with (Z.of_nat c) by lia.
    cbn [for_io]. destruct (Hstep lo s ltac:(lia) Hs) as [E Hinv]. rewrite E.
    destruct (b1 lo s) as [s' [e|]]; cbn [fst snd] in *.
    + split; [reflexivity | discriminate].
    + replace (lo + Z.succ (Z.of_nat c)) with (Z.succ lo + Z.of_nat c) by lia.
      apply IH.
      * intros i t Hi. apply Hstep. lia.
      * replace (Z.succ lo) with (lo + 1) by lia. now apply Hinv.
Qed.

(** Opening the database takes a path with a file name and a file there. *)
Lemma cdb_file_Some (w : world) (bytes : list Z) :
  cdb_file w = Some bytes ->
  String.eqb (cdb_name w) "" = false /\ files w !! cdb_name w = Some bytes.
Proof. unfold cdb_file. destruct (String.eqb _ _); [discriminate | auto]. Qed.

Lemma cdb_file_None (w : world) :
  cdb_file w = None ->
  String.eqb (cdb_name w) "" = true \/
  String.eqb (cdb_name w) "" = false /\ files w !! cdb_name w = None.
Proof. unfold cdb_file. destruct (String.eqb _ _); auto. Qed.

Lemma distinct_names (name : string) :
  name <> index_name -> String.eqb name index_name = false.
Proof. intros H. now apply String.eqb_neq. Qed.

(** The two files after [store], when they are two files. *)
Lemma cdb_file_store (w : world) (bytes bytes' : list Z) (index : option (list Z)) :
  cdb_file w = Some bytes -> cdb_file (store w bytes' index) = Some bytes'.
Proof.
  intros [E _]%cdb_file_Some. unfold cdb_file, store. cbn [cdb_name files].
  rewrite E. apply lookup_insert_eq.
Qed.

Lemma index_file_store (w : world) (bytes : list Z) (index : option (list Z)) :
  cdb_name w <> index_name ->
  (index_file w = None -> index = None) ->
  (index = None -> index_file w = None) ->
  index_file (store w bytes index) = index.
Proof.
  intros Hne H1 H2. unfold index_file, store in *. cbn [cdb_name files].
  rewrite lookup_insert_ne by assumption.
  destruct index as [i|]; [apply lookup_insert_eq | now apply H2].
Qed.

(** Closing an unchanged database changes nothing. *)
Lemma store_same (w : world) (bytes : list Z) :
  files w !! cdb_name w = Some bytes -> store w bytes (index_file w) = w.
Proof.
  intros H. destruct w as [name fs]. unfold store, index_file in *. cbn [cdb_name files] in *.
  f_equal. destruct (fs !! index_name) as [i|] eqn:E.
  - rewrite (insert_id fs index_name i E). now apply insert_id.
  - now apply insert_id.
Qed.

Section Insertion.

Variable compress : list Z -> list Z.
Variable io_shared :
  list Z -> list (Z * Z) -> Z * Z * Z -> Z * Z -> Z * Z -> loop_state -> list Z.
Variable name : string.
Variable opened : list Z.
Hypothesis Hname : name <> index_name.
Variable flat : list (Z * Z).
Variable size : Z * Z * Z.
Variables start_x start_z subsize chunks_x : Z.

Lemma per_block_loop_skip (st : loop_state) : per_block_loop size st = (st, None).
Proof. destruct size as [[? ?] ?]. unfold per_block_loop. apply for_io_skip. Qed.

(** The loop body with the per-block loop in front is the loop body
    without it. *)
Lemma insert_body_skip (cz cx : Z) (st : loop_state) :
  match per_block_loop size st with
  | (st, None) => insert_chunk compress io_shared name opened flat size start_x start_z subsize chunks_x cz cx st
  | (st, Some e) => (st, Some e)
  end
  = insert_chunk compress io_shared name opened flat size start_x start_z subsize chunks_x cz cx st.
Proof. now rewrite per_block_loop_skip. Qed.

Lemma insert_chunk_step (slot cz cx : Z) (st : loop_state) :
  st_slot_number st = slot + (cz * chunks_x + cx) ->
  let r := insert_chunk compress io_shared name opened flat size start_x start_z subsize chunks_x cz cx st in
  write_and_index compress flat size
    (20 + (cz * chunks_x + cx) * subsize, start_x + cx, start_z + cz,
     slot + (cz * chunks_x + cx)) (files_of st)
  = (files_of (fst r), snd r) /\
  (snd r = None -> st_slot_number (fst r) = slot + (cz * chunks_x + (cx + 1))).
Proof.
  intros Hslot r; subst r. unfold insert_chunk, write_and_index, files_of. cbn [fst snd].
  rewrite (distinct_names name Hname).
  destruct (write_chunk_to_subfile _ _ _ _ _ _ _) as [f1|e]; cbn [fst snd st_f st_index st_slot_number].
  - rewrite Hslot.
    destruct (update_index_entry _ _ _ _) as [idx|e]; cbn [fst snd st_f st_index st_slot_number].
    + split; [reflexivity|]. intros _. lia.
    + split; [reflexivity | discriminate].
  - split; [reflexivity | discriminate].
Qed.

Lemma plan_loops (slot chunks_z : Z) (files : handle * option (list Z)) :
  for_io (chunk_plan start_x start_z slot subsize chunks_x chunks_z)
         (write_and_index compress flat size) files
  = for_io (range chunks_z) (fun cz files =>
      for_io (range chunks_x) (fun cx files =>
        write_and_index compress flat size
          (20 + (cz * chunks_x + cx) * subsize, start_x + cx, start_z + cz,
           slot + (cz * chunks_x + cx)) files) files) files.
Proof.
  unfold chunk_plan. rewrite for_io_bind. apply for_io_ext. intros cz t.
  rewrite for_io_bind. apply for_io_ext. intros cx u. apply for_io_single.
Qed.

(** The nested loops of [insert_structure], without the per-block loop, do
    to the two files what running the plan does. *)
Lemma insert_loops_plan (slot chunks_z : Z) (st : loop_state) :
  st_slot_number st = slot ->
  let r := for_io (range chunks_z) (fun cz st =>
             for_io (range chunks_x) (fun cx st =>
               insert_chunk compress io_shared name opened flat size start_x start_z subsize chunks_x cz cx st)
               st) st in
  for_io (chunk_plan start_x start_z slot subsize chunks_x chunks_z)
         (write_and_index compress flat size) (files_of st)
  = (files_of (fst r), snd r).
Proof.
  intros Hslot r; subst r. rewrite plan_loops. unfold range.
  destruct (Z.le_gt_cases chunks_x 0) as [Hx|Hx].
  { rewrite (seqZ_nil 0 chunks_x) by lia. cbn [for_io].
    rewrite !for_io_skip. reflexivity. }
  destruct (Z.le_gt_cases chunks_z 0) as [Hz|Hz].
  { rewrite (seqZ_nil 0 chunks_z) by lia. reflexivity. }
  assert (Hcx : seqZ 0 chunks_x = seqZ 0 (Z.of_nat (Z.to_nat chunks_x)))
    by (rewrite Z2Nat.id; [reflexivity | lia]).
  assert (Hcz : seqZ 0 chunks_z = seqZ 0 (Z.of_nat (Z.to_nat chunks_z)))
    by (rewrite Z2Nat.id; [reflexivity | lia]).
  rewrite Hcx, Hcz.
  apply (for_io_sim files_of (fun cz st => st_slot_number st = slot + cz * chunks_x)); [|lia].
  intros cz s Hcz' Hs.
  destruct (for_io_sim files_of
              (fun cx st => st_slot_number st = slot + (cz * chunks_x + cx))
              (fun cx st => insert_chunk compress io_shared name opened flat size start_x start_z subsize
                                         chunks_x cz cx st)
              (fun cx files => write_and_index compress flat size
                 (20 + (cz * chunks_x + cx) * subsize, start_x + cx, start_z + cz,
                  slot + (cz * chunks_x + cx)) files)
              (Z.to_nat chunks_x) 0) with (s := s) as [E Hinv].
  - intros cx t Hcx' Ht. now apply insert_chunk_step.
  - lia.
  - split; [exact E|]. intros Hnone. rewrite (Hinv Hnone). lia.
Qed.

End Insertion.

(** Reduce a [match] on the header list to the one case with six fields. *)
Ltac six_fields l :=
  destruct l as [|? [|? [|? [|? [|? [|? [|? ?]]]]]]]; try reflexivity.

(** C9: the per-block loop inside the insertion loop has no observable
    effect: [insert_structure] returns the same files and the same outcome
    as the routine without that loop and its block count. *)
Theorem per_block_loop_no_effect (compress : list Z -> list Z)
  (io_shared : list Z -> list (Z * Z) -> Z * Z * Z -> Z * Z -> Z * Z -> loop_state -> list Z)
  (w : world) (flat : list (Z * Z)) (size : Z * Z * Z) (start_x start_z slot_number : Z) :
  insert_structure compress io_shared w flat size start_x start_z slot_number
  = insert_structure_spec compress io_shared w flat size start_x start_z slot_number.
Proof.
  unfold insert_structure, insert_structure_spec.
  destruct (String.eqb (cdb_name w) ""); [reflexivity|].
  destruct (files w !! cdb_name w) as [bytes|]; [|reflexivity].
  destruct (read_file_header _) as [f0 [fields|e]]; [|reflexivity].
  six_fields fields. destruct size as [[size0 size1] size2].
  erewrite for_io_ext; [reflexivity|]. intros cz st. cbv beta.
  apply for_io_ext. intros cx st'. apply insert_body_skip.
Qed.


(** ** The structure parser *)

Lemma no_mismatch_Ok {A} (a : A) : no_mismatch (Ok a).
Proof. discriminate. Qed.

Lemma no_mismatch_bind {A B} (m : result A) (k : A -> result B) :
  no_mismatch m -> (forall a, no_mismatch (k a)) -> no_mismatch (x <- m ;; k x).
Proof. unfold no_mismatch. destruct m as [a|e]; cbn; [auto | congruence]. Qed.

Lemma no_mismatch_for_in {A S} (l : list A) (body : A -> S -> result S) (s : S) :
  (forall i s, no_mismatch (body i s)) -> no_mismatch (for_in l body s).
Proof.
  intros Hbody. revert s; induction l as [|i l IH]; intros s; cbn.
  - apply no_mismatch_Ok.
  - apply no_mismatch_bind; [apply Hbody | apply IH].
Qed.

Lemma no_mismatch_getitem {A} (l : list A) (i : Z) : no_mismatch (getitem l i).
Proof. unfold getitem. destruct (_ ≫= _); discriminate. Qed.

Lemma no_mismatch_setitem {A} (l : list A) (i : Z) (v : A) : no_mismatch (setitem l i v).
Proof. unfold setitem. destruct (norm_index _ _); discriminate. Qed.

Lemma norm_index_nil (i : Z) : norm_index 0 i = None.
Proof.
  unfold norm_index. change (Z.of_nat 0) with 0. change (- 0) with 0.
  destruct (Z.leb_spec 0 i), (Z.ltb_spec i 0); cbn; (reflexivity || lia).
Qed.

Lemma setitem_nil {A} (i : Z) (v : A) : setitem [] i v = Raise IndexError.
Proof. unfold setitem. cbn [List.length]. now rewrite norm_index_nil. Qed.

Lemma no_mismatch_tag_get (t : tag) (key : string) (dflt : tag) :
  no_mismatch (tag_get t key dflt).
Proof. destruct t; discriminate. Qed.

Lemma no_mismatch_tag_item (t : tag) (key : string) : no_mismatch (tag_item t key).
Proof. destruct t; cbn; try discriminate. destruct (assoc key m); discriminate. Qed.

Lemma no_mismatch_tag_index (t : tag) (i : Z) : no_mismatch (tag_index t i).
Proof. destruct t; cbn; try discriminate; apply no_mismatch_getitem. Qed.

Lemma no_mismatch_tag_iter (t : tag) : no_mismatch (tag_iter t).
Proof. destruct t; discriminate. Qed.

Section Parser.

Variable int_of_str : string -> option Z.
Variable repr_tag : tag -> string.
Variable inverse_block_map : gmap string (Z * Z).

Lemma no_mismatch_py_int (t : tag) : no_mismatch (py_int int_of_str t).
Proof. destruct t; cbn; try discriminate. destruct (int_of_str s); discriminate. Qed.

Lemma no_mismatch_format (name : string) (props : tag) :
  no_mismatch (format_block_name repr_tag name props).
Proof. unfold format_block_name. destruct (truthy props), props; discriminate. Qed.

Create HintDb no_mismatch.
Hint Resolve no_mismatch_Ok no_mismatch_getitem no_mismatch_setitem no_mismatch_tag_get
  no_mismatch_tag_item no_mismatch_tag_index no_mismatch_tag_iter no_mismatch_py_int
  no_mismatch_format : no_mismatch.

Ltac no_mismatch :=
  repeat first
    [ apply no_mismatch_bind; [solve [auto with no_mismatch]|intros ?]
    | solve [auto with no_mismatch] ].

Lemma no_mismatch_build_palmap (palette : tag) :
  no_mismatch (build_palmap repr_tag palette).
Proof.
  unfold build_palmap. apply no_mismatch_bind; [auto with no_mismatch|]. intros entries.
  apply no_mismatch_for_in. intros [i entry] palmap. no_mismatch.
Qed.

Lemma no_mismatch_place_blocks (blocks : tag) (palmap : gmap Z string)
  (width length : Z) (flat : list (Z * Z)) :
  no_mismatch (place_blocks int_of_str inverse_block_map blocks palmap width length flat).
Proof.
  unfold place_blocks. apply no_mismatch_bind; [auto with no_mismatch|]. intros bs.
  apply no_mismatch_for_in. intros b t. no_mismatch.
  destruct (get_block_id _ _). auto with no_mismatch.
Qed.

Lemma setitem_length {A} (l l' : list A) (i : Z) (v : A) :
  setitem l i v = Ok l' -> List.length l' = List.length l.
Proof.
  unfold setitem. destruct (norm_index _ _); [|discriminate].
  intros [= <-]. apply length_insert.
Qed.

(** One block entry, lines 227-232, on the current array. *)
Lemma place_blocks_length (blocks : tag) (palmap : gmap Z string)
  (width length : Z) (flat flat' : list (Z * Z)) :
  place_blocks int_of_str inverse_block_map blocks palmap width length flat = Ok flat' ->
  List.length flat' = List.length flat.
Proof.
  unfold place_blocks. intros H. inv_bind H as bs Hbs.
  apply (for_in_inv (fun t : list (Z * Z) => List.length t = List.length flat)) in H;
    [assumption| |reflexivity].
  intros b t t' _ Ht Hb.
  repeat (let a := fresh "a" in let Ha := fresh "Ha" in inv_bind Hb as a Ha).
  destruct (get_block_id _ _). apply setitem_length in Hb. congruence.
Qed.

(** With an empty array every block entry raises: the loop ends normally
    only when there is no block at all. *)
Lemma place_blocks_empty (blocks : tag) (palmap : gmap Z string)
  (width length : Z) (flat' : list (Z * Z)) :
  place_blocks int_of_str inverse_block_map blocks palmap width length [] = Ok flat' ->
  tag_iter blocks = Ok [].
Proof.
  unfold place_blocks. intros H. inv_bind H as bs Hbs. rewrite Hbs.
  destruct bs as [|b bs]; [reflexivity|]. exfalso.
  cbn [for_in] in H. inv_bind H as t Hb.
  repeat (let a := fresh "a" in let Ha := fresh "Ha" in inv_bind Hb as a Ha).
  destruct (get_block_id _ _). now rewrite setitem_nil in Hb.
Qed.

End Parser.

Section ParserTheorems.

Variable compress : list Z -> list Z.
Variable io_shared :
  list Z -> list (Z * Z) -> Z * Z * Z -> Z * Z -> Z * Z -> loop_state -> list Z.
Variable int_of_str : string -> option Z.
Variable repr_tag : tag -> string.
Variable inverse_block_map : gmap string (Z * Z).

Local Abbreviation parse := (parse_nbt_structure int_of_str repr_tag inverse_block_map).
Local Abbreviation insert := (on_insert compress io_shared int_of_str repr_tag inverse_block_map).

Lemma on_insert_failed (w : world) (nbt_file : option tag) (x z slot_number : Z) (e : exn) :
  parse nbt_file = Raise e -> insert w nbt_file x z slot_number = (w, Some e).
Proof. unfold on_insert. now intros ->. Qed.


(** C5, as the code has it: [parse_nbt_structure] fails with InvalidNBT,
    and [on_insert] then writes nothing, when the file cannot be loaded or an
    entry of [size] cannot be converted to an integer; an absent [palette]
    or [blocks] key is not an error but is read as the empty list. *)
Theorem invalid_structure (w : world) (x z slot_number : Z) :
  (forall nbt_file,
     (nbt_file = None \/
      exists m entries, nbt_file = Some (TCompound m) /\
        tag_iter (default (TList [TInt 0; TInt 0; TInt 0]) (assoc "size" m)) = Ok entries /\
        exists d e, In d entries /\ py_int int_of_str d = Raise e) ->
     parse nbt_file = Raise InvalidNBT /\
     insert w nbt_file x z slot_number = (w, Some InvalidNBT)) /\
  (forall m, assoc "palette" m = None ->
     parse (Some (TCompound m))
     = parse (Some (TCompound (("palette"%string, TList []) :: m)))) /\
  (forall m, assoc "blocks" m = None ->
     parse (Some (TCompound m))
     = parse (Some (TCompound (("blocks"%string, TList []) :: m)))).
Proof.
  split; [|split].
  - intros nbt_file Hbad.
    assert (Hparse : parse nbt_file = Raise InvalidNBT).
    { destruct Hbad as [->|(m & entries & -> & Hiter & d & e & Hd & Hint)]; [reflexivity|].
      unfold parse_nbt_structure, parse_fields. cbn [tag_get bind]. rewrite Hiter. cbn [bind].
      assert (Hmap : exists e', map_result (py_int int_of_str) entries = Raise e').
      { clear Hiter. induction entries as [|d' entries IH]; [destruct Hd|].
        cbn. destruct Hd as [->|Hd].
        - rewrite Hint. cbn. eauto.
        - destruct (py_int int_of_str d'); cbn; [|eauto].
          destruct (IH Hd) as [e' ->]. cbn. eauto. }
      destruct Hmap as [e' ->]. reflexivity. }
    split; [exact Hparse | now apply on_insert_failed].
  - intros m Hm. unfold parse_nbt_structure, parse_fields. cbn [tag_get assoc].
    cbn [String.eqb Ascii.eqb Bool.eqb]. now rewrite Hm.
  - intros m Hm. unfold parse_nbt_structure, parse_fields. cbn [tag_get assoc].
    cbn [String.eqb Ascii.eqb Bool.eqb]. now rewrite Hm.
Qed.

End ParserTheorems.

(** ** The chunk writer ends normally on encodable voxels *)

Lemma for_in_Ok {A S} (P : S -> Prop) (l : list A) (body : A -> S -> result S) :
  (forall i s, In i l -> P s -> exists s', body i s = Ok s' /\ P s') ->
  forall s, P s -> exists s', for_in l body s = Ok s' /\ P s'.
Proof.
  induction l as [|i l IH]; intros Hbody s Hs; cbn.
  - eauto.
  - destruct (Hbody i s ltac:(now left) Hs) as (s1 & -> & Hs1). cbn.
    apply IH; [|exact Hs1]. intros j t Hj. apply Hbody. now right.
Qed.

Lemma byte_lor (a b : Z) : 0 <= a < 256 -> 0 <= b < 256 -> 0 <= Z.lor a b < 256.
Proof.
  intros Ha Hb.
  rewrite <- (land_ones_small a 8), <- (land_ones_small b 8) by lia.
  rewrite <- Z.land_lor_distr_l. apply (land_ones_range _ 8). lia.
Qed.

Lemma byte_land (a c : Z) : 0 <= c < 256 -> 0 <= Z.land a c < 256.
Proof.
  intros Hc. rewrite <- (land_ones_small c 8) by lia.
  rewrite Z.land_assoc. apply (land_ones_range _ 8). lia.
Qed.

Lemma bytearray_append_byte (raw : list Z) (v : Z) :
  0 <= v < 256 -> bytearray_append raw v = Ok (raw ++ [v]).
Proof.
  intros Hv. unfold bytearray_append, is_byte.
  destruct (Z.leb_spec 0 v), (Z.ltb_spec v 256); cbn; (reflexivity || lia).
Qed.

Lemma norm_index_in_range (len : nat) (i : Z) :
  0 <= i < Z.of_nat len -> norm_index len i = Some (Z.to_nat i).
Proof.
  intros Hi. unfold norm_index.
  destruct (Z.leb_spec 0 i), (Z.ltb_spec i (Z.of_nat len)); cbn; (reflexivity || lia).
Qed.

Lemma bytearray_setitem_byte (b : list Z) (i v : Z) :
  0 <= i < Z.of_nat (length b) -> 0 <= v < 256 ->
  bytearray_setitem b i v = Ok (<[Z.to_nat i := v]> b).
Proof.
  intros Hi Hv. unfold bytearray_setitem, is_byte. rewrite norm_index_in_range by exact Hi.
  destruct (Z.leb_spec 0 v), (Z.ltb_spec v 256); cbn; (reflexivity || lia).
Qed.

Lemma getitem_in_range {A} (l : list A) (i : Z) :
  0 <= i < Z.of_nat (length l) -> exists a, getitem l i = Ok a /\ l !! Z.to_nat i = Some a.
Proof.
  intros Hi. unfold getitem. rewrite norm_index_in_range by exact Hi. cbn.
  destruct (lookup_lt_is_Some_2 l (Z.to_nat i) ltac:(lia)) as [a Ha].
  rewrite Ha. eauto.
Qed.

Section Encodable.

Variable flat : list (Z * Z).
Hypothesis flat_encodable : encodable flat.
Variables width height length : Z.
Variables chunk_x chunk_z : Z.

Lemma voxel_encodable (idx : Z) (v : Z * Z) :
  voxel flat idx = Some v -> 0 <= fst v < 256 /\ 0 <= snd v < 16.
Proof.
  unfold voxel. destruct (_ && _); [|discriminate]. intros Hv.
  exact (proj1 (Forall_lookup _ flat) flat_encodable _ _ Hv).
Qed.

Lemma byte_plane_value_byte (s x z sub_y : Z) :
  0 <= byte_plane_value flat width height length chunk_x chunk_z s x z sub_y < 256.
Proof.
  unfold byte_plane_value. cbv zeta. destruct (height <=? _); [lia|].
  destruct (voxel flat _) as [v|] eqn:Hv; [|lia]. now apply voxel_encodable in Hv.
Qed.

Lemma byte_plane_Ok (s : Z) (raw : list Z) :
  exists raw', byte_plane s chunk_x chunk_z flat width height length raw = Ok raw'.
Proof.
  unfold byte_plane.
  destruct (for_in_Ok (fun _ : list Z => True) (range 16)
              (fun x raw => for_in (range 16) (fun z raw => for_in (range 16)
                 (fun sub_y raw =>
                    let actual_y := s * 16 + sub_y in
                    if height <=? actual_y then bytearray_append raw 0
                    else v <- flat_or flat
                                (actual_y * (width * length) + (chunk_z * 16 + z) * width
                                 + (chunk_x * 16 + x)) fst 0 ;;
                         bytearray_append raw v) raw) raw)) with (s := raw)
    as (raw' & H & _); [|exact I|eauto].
  intros x r _ _. apply (for_in_Ok (fun _ : list Z => True)); [|exact I].
  intros z t _ _. apply (for_in_Ok (fun _ : list Z => True)); [|exact I].
  intros sub_y u _ _. cbv zeta.
  pose proof (byte_plane_value_byte s x z sub_y) as Hb.
  unfold byte_plane_value in Hb. cbv zeta in Hb.
  destruct (height <=? s * 16 + sub_y).
  - rewrite bytearray_append_byte by lia. eauto.
  - rewrite flat_or_eq. cbn [bind]. rewrite bytearray_append_byte by exact Hb. eauto.
Qed.

Lemma biome_plane_Ok :
  exists biomes, biome_plane chunk_x chunk_z flat width = Ok biomes.
Proof.
  unfold biome_plane.
  destruct (for_in_Ok (fun b : list Z => List.length b = 256%nat) (range 16)
              (fun x biomes => for_in (range 16) (fun z biomes =>
                 v <- flat_or flat ((chunk_z * 16 + z) * width + (chunk_x * 16 + x)) fst 1 ;;
                 bytearray_setitem biomes (x * 16 + z) v) biomes)) with (s := zeros 256)
    as (biomes & H & _); [|reflexivity|eauto].
  intros x b Hx Hb. apply list_elem_of_In, elem_of_seqZ in Hx.
  apply (for_in_Ok (fun b : list Z => List.length b = 256%nat)); [|exact Hb].
  intros z t Hz Ht. apply list_elem_of_In, elem_of_seqZ in Hz.
  rewrite flat_or_eq. cbn [bind].
  rewrite bytearray_setitem_byte.
  - eexists. split; [reflexivity|]. now rewrite length_insert.
  - lia.
  - destruct (voxel flat _) as [v|] eqn:Hv; [|lia]. now apply voxel_encodable in Hv.
Qed.

Lemma nibble_plane_Ok (s : Z) :
  exists nibbles, nibble_plane s chunk_x chunk_z flat width height length = Ok nibbles.
Proof.
  unfold nibble_plane.
  pose (P := fun b : list Z =>
               List.length b = Z.to_nat 0x1000 /\ Forall (fun v => 0 <= v < 256) b).
  assert (P0 : P (zeros (Z.to_nat 0x1000))).
  { split; [apply length_replicate|]. apply Forall_replicate. lia. }
  destruct (for_in_Ok P (range 16)
    (fun sub_y nibbles => for_in (range 16) (fun z nibbles => for_in (range 16)
       (fun x nibbles =>
          let actual_y := s * 16 + sub_y in
          nibble_value <-
            (if height <=? actual_y then Ok 0
             else flat_or flat (actual_y * (width * length) + (chunk_z * 16 + z) * width
                                + (chunk_x * 16 + x)) snd 0) ;;
          let local_index := sub_y * 256 + z * 16 + x in
          let byte_i := Z.shiftr local_index 1 in
          if Z.land local_index 1 =? 0 then
            old <- getitem nibbles byte_i ;;
            bytearray_setitem nibbles byte_i (Z.lor (Z.land old 0xF0) nibble_value)
          else
            old <- getitem nibbles byte_i ;;
            bytearray_setitem nibbles byte_i
              (Z.lor (Z.land old 0x0F) (Z.shiftl nibble_value 4)))
       nibbles) nibbles)) with (s := zeros (Z.to_nat 0x1000)) as (nibbles & H & _);
    [|exact P0|eauto].
  intros sub_y b Hy Hb. apply list_elem_of_In, elem_of_seqZ in Hy.
  apply (for_in_Ok P); [|exact Hb].
  intros z t Hz Ht. apply list_elem_of_In, elem_of_seqZ in Hz.
  apply (for_in_Ok P); [|exact Ht].
  intros x u Hx [Hlen Hbytes]. apply list_elem_of_In, elem_of_seqZ in Hx. cbv zeta.
  set (nv := if height <=? s * 16 + sub_y then Ok 0 else _).
  assert (Hnv : exists n, nv = Ok n /\ 0 <= n < 16).
  { subst nv. destruct (height <=? _); [exists 0; split; [reflexivity|lia]|].
    rewrite flat_or_eq. eexists. split; [reflexivity|].
    destruct (voxel flat _) as [v|] eqn:Hv; [|lia]. now apply voxel_encodable in Hv. }
  destruct Hnv as (n & -> & Hn). cbn [bind].
  set (local_index := sub_y * 256 + z * 16 + x).
  assert (Hi : 0 <= Z.shiftr local_index 1 < Z.of_nat (List.length u)).
  { rewrite Z.shiftr_div_pow2 by lia. change (2 ^ 1) with 2.
    assert (0 <= local_index < 4096) by (subst local_index; lia).
    pose proof (Z.div_mod local_index 2 ltac:(lia)).
    pose proof (Z.mod_pos_bound local_index 2 ltac:(lia)). lia. }
  destruct (getitem_in_range u _ Hi) as (old & -> & Hold).
  pose proof (proj1 (Forall_lookup _ u) Hbytes _ _ Hold) as Hob. cbv beta in Hob.
  assert (Hshift : 0 <= Z.shiftl n 4 < 256)
    by (rewrite Z.shiftl_mul_pow2 by lia; change (2 ^ 4) with 16; lia).
  destruct (Z.land local_index 1 =? 0); cbn [bind];
    (rewrite bytearray_setitem_byte;
     [ eexists; split; [reflexivity|]; split;
       [ now rewrite length_insert
       | apply Forall_insert; [exact Hbytes|] ]
     | exact Hi | ]).
  all: apply byte_lor; try (apply byte_land; lia); lia.
Qed.

(** A chunk of a structure with encodable voxels whose subchunk count fits
    a u16 is always built. *)
Lemma chunk_raw_Ok :
  0 <= (height + 15) / 16 <= 0xFFFF ->
  exists raw, chunk_raw chunk_x chunk_z flat (width, height, length) = Ok raw.
Proof.
  intros Hsc. unfold chunk_raw.
  cbn [pack]. rewrite pack1_in_range by (fmt_consts; lia). cbn [bind].
  destruct (for_in_Ok (fun _ : list Z => True) (range ((height + 15) / 16))
    (fun subchunk raw =>
       raw <- byte_plane subchunk chunk_x chunk_z flat width height length raw ;;
       nibbles <- nibble_plane subchunk chunk_x chunk_z flat width height length ;;
       Ok ((raw ++ nibbles) ++ zeros (Z.to_nat 0x800))))
    with (s := [] ++ le_bytes (fmt_size fmt_H) ((height + 15) / 16) ++ [])
    as (raw1 & -> & _); [|exact I|].
  - intros s r _ _. destruct (byte_plane_Ok s r) as [r' ->]. cbn [bind].
    destruct (nibble_plane_Ok s) as [nb ->]. cbn [bind]. eauto.
  - cbn [bind]. destruct biome_plane_Ok as [biomes ->]. cbn [bind]. eauto.
Qed.

End Encodable.

Lemma for_in_total {A S} (l : list A) (body : A -> S -> result S) :
  (forall i s, exists s', body i s = Ok s') -> forall s, exists s', for_in l body s = Ok s'.
Proof.
  intros Hbody s.
  destruct (for_in_Ok (fun _ : S => True) l body) with (s := s) as (s' & H & _); eauto.
  intros i t _ _. destruct (Hbody i t) as [t' ->]. eauto.
Qed.

Lemma chunk_header_succeeds (chunk_x chunk_z : Z) (comp raw : list Z) :
  Z.of_nat (length comp) < 2 ^ 31 -> Z.of_nat (length raw) < 2 ^ 31 ->
  exists hdr, chunk_header chunk_x chunk_z comp raw = Ok hdr.
Proof.
  intros Hcomp Hraw. unfold chunk_header. cbn [pack].
  pose proof (encode_position_range chunk_x chunk_z 0) as Henc.
  pose proof (Nat2Z.is_nonneg (length comp)) as Hc0.
  pose proof (Nat2Z.is_nonneg (length raw)) as Hr0.
  generalize dependent (Z.of_nat (length comp)); intros nc Hcomp Hc0.
  generalize dependent (Z.of_nat (length raw)); intros nr Hraw Hr0.
  rewrite (pack1_in_range fmt_I) by (fmt_consts; lia). cbn [bind].
  rewrite !(pack1_in_range fmt_b) by (fmt_consts; lia). cbn [bind].
  rewrite !(pack1_in_range fmt_H) by (fmt_consts; lia). cbn [bind].
  rewrite !length_app, !length_le_bytes. cbn [fmt_size length Nat.add].
  rewrite !(pack1_in_range fmt_i) by (fmt_consts; lia). cbn [bind].
  apply for_in_total. intros i s. eauto.
Qed.

(** [write_chunk_to_subfile] ends normally, with the record written, for
    every structure of encodable voxels with at most 65535 subchunks, every
    non-negative offset and every compressor whose output for the chunk is
    shorter than 2^31 bytes. *)
Lemma write_chunk_to_subfile_Ok (compress : list Z -> list Z) (f : handle)
  (offset chunk_x chunk_z : Z) (flat : list (Z * Z)) (width height length : Z) :
  encodable flat -> 0 <= (height + 15) / 16 <= 0xFFFF -> 0 <= offset ->
  (forall raw, chunk_raw chunk_x chunk_z flat (width, height, length) = Ok raw ->
               Z.of_nat (List.length (compress raw)) < 2 ^ 31) ->
  exists f', write_chunk_to_subfile compress f offset chunk_x chunk_z flat
               (width, height, length) = Ok f'.
Proof.
  intros Hflat Hsc Hoff Hcomp. unfold write_chunk_to_subfile.
  destruct (chunk_raw_Ok flat Hflat width height length chunk_x chunk_z Hsc) as [raw Hraw].
  rewrite Hraw. cbn [bind].
  pose proof (chunk_raw_length _ _ _ _ _ _ _ Hraw) as Hlen.
  destruct (chunk_header_succeeds chunk_x chunk_z (compress raw) raw (Hcomp raw Hraw)
              ltac:(lia)) as [hdr ->].
  cbn [bind]. unfold seek. destruct (Z.ltb_spec offset 0); [lia|]. cbn [bind pack].
  rewrite pack1_in_range by (fmt_consts; unfold MAGIC_CDB; lia). cbn [bind]. eauto.
Qed.

Lemma zlib_stored_length (data : list Z) :
  Z.of_nat (length data) <= 65535 ->
  length (Samples.zlib_stored data) = (length data + 11)%nat.
Proof.
  intros Hlen. unfold Samples.zlib_stored. cbn [Samples.stored_blocks].
  destruct (Z.leb_spec (Z.of_nat (length data)) 65535); [|lia].
  rewrite !length_app, length_rev, !length_le_bytes. cbn [length]. lia.
Qed.

(** The stored encoding of a chunk of one subchunk is 11 bytes longer than
    its raw buffer. *)
Lemma zlib_stored_chunk (chunk_x chunk_z : Z) (flat : list (Z * Z))
  (width height length : Z) (raw : list Z) :
  (height + 15) / 16 = 1 ->
  chunk_raw chunk_x chunk_z flat (width, height, length) = Ok raw ->
  Z.of_nat (List.length (Samples.zlib_stored raw)) < 2 ^ 31.
Proof.
  intros Hsc Hraw. apply chunk_raw_length in Hraw. rewrite Hsc in Hraw.
  rewrite zlib_stored_length by lia. lia.
Qed.

(** * More of the program *)

(** ** The record a chunk is written as *)

Lemma chunk_header_eq (chunk_x chunk_z : Z) (comp raw : list Z) :
  Z.of_nat (length comp) < 2 ^ 31 -> Z.of_nat (length raw) < 2 ^ 31 ->
  chunk_header chunk_x chunk_z comp raw
  = Ok (header_bytes (encode_position chunk_x chunk_z 0)
                     (Z.of_nat (length comp)) (Z.of_nat (length raw))).
Proof.
  intros Hcomp Hraw. unfold chunk_header, header_bytes. cbn [pack].
  pose proof (encode_position_range chunk_x chunk_z 0) as Henc.
  pose proof (Nat2Z.is_nonneg (length comp)) as Hc0.
  pose proof (Nat2Z.is_nonneg (length raw)) as Hr0.
  generalize dependent (Z.of_nat (length comp)); intros nc Hcomp Hc0.
  generalize dependent (Z.of_nat (length raw)); intros nr Hraw Hr0.
  rewrite (pack1_in_range fmt_I) by (fmt_consts; lia). cbn [bind].
  rewrite !(pack1_in_range fmt_b) by (fmt_consts; lia). cbn [bind].
  rewrite !(pack1_in_range fmt_H) by (fmt_consts; lia). cbn [bind].
  rewrite !length_app, !length_le_bytes. cbn [fmt_size length Nat.add].
  rewrite !(pack1_in_range fmt_i) by (fmt_consts; lia). cbn [bind].
  change (range 5) with [0; 1; 2; 3; 4]. cbn [for_in bind].
  change (4 + Z.of_nat 12 + 6 * 16) with 112.
  cbn [replicate mjoin list_join app].
  f_equal; rewrite <- ?app_assoc; cbn [app]; rewrite ?app_nil_r; reflexivity.
Qed.

Lemma chunk_header_bytes (chunk_x chunk_z : Z) (comp raw hdr : list Z) :
  chunk_header chunk_x chunk_z comp raw = Ok hdr ->
  Z.of_nat (length comp) < 2 ^ 31 /\ Z.of_nat (length raw) < 2 ^ 31 /\
  hdr = header_bytes (encode_position chunk_x chunk_z 0)
                     (Z.of_nat (length comp)) (Z.of_nat (length raw)).
Proof.
  intros H.
  assert (Hlen : Z.of_nat (length comp) < 2 ^ 31 /\ Z.of_nat (length raw) < 2 ^ 31).
  { destruct (chunk_header_Ok _ _ _ _ _ H) as (pre & section & rest & _ & _ & _ & Hs).
    cbn [pack] in Hs. inv_bind Hs as b0 Hb0. inv_bind Hs as bs0 Hbs0.
    inv_bind Hbs0 as b1 Hb1. inv_bind Hbs0 as bs1 Hbs1.
    inv_bind Hbs1 as b2 Hb2. inv_bind Hbs1 as bs2 Hbs2. inv_bind Hbs2 as b3 Hb3.
    apply pack1_Ok in Hb2 as [Hc _], Hb3 as [Hr _].
    clear - Hc Hr. revert Hc Hr.
    generalize (Z.of_nat (length comp)) (Z.of_nat (length raw)).
    intros nc nr Hc Hr. fmt_consts. lia. }
  destruct Hlen as [Hc Hr]. rewrite (chunk_header_eq _ _ _ _ Hc Hr) in H.
  injection H as <-. auto.
Qed.

Lemma length_header_bytes (p c r : Z) : length (header_bytes p c r) = 108%nat.
Proof. reflexivity. Qed.

Lemma length_chunk_record (chunk_x chunk_z : Z) (comp raw : list Z) :
  length (chunk_record chunk_x chunk_z comp raw) = (112 + length comp)%nat.
Proof.
  unfold chunk_record. now rewrite !length_app, length_le_bytes, length_header_bytes.
Qed.

(** What [write_chunk_to_subfile] does to the file object: one write of
    the record at the offset. *)
Lemma write_chunk_record (compress : list Z -> list Z) (f : handle)
  (offset chunk_x chunk_z : Z) (flat : list (Z * Z)) (size : Z * Z * Z) (f' : handle) :
  write_chunk_to_subfile compress f offset chunk_x chunk_z flat size = Ok f' ->
  exists raw,
    chunk_raw chunk_x chunk_z flat size = Ok raw /\ 0 <= offset /\
    f' = write {| content := content f; position := Z.to_nat offset |}
               (chunk_record chunk_x chunk_z (compress raw) raw).
Proof.
  unfold write_chunk_to_subfile. intros H.
  inv_bind H as raw Hraw. inv_bind H as hdr Hhdr. inv_bind H as f1 Hseek.
  inv_bind H as magic Hmagic. injection H as <-.
  exists raw. split; [exact Hraw|].
  unfold seek in Hseek. destruct (Z.ltb_spec offset 0); [discriminate|].
  injection Hseek as <-. split; [assumption|].
  apply pack_single in Hmagic as [_ ->].
  apply chunk_header_bytes in Hhdr as (_ & _ & ->).
  rewrite !write_app. unfold chunk_record. reflexivity.
Qed.

(** The bytes of a file after a write, place by place. *)
Lemma write_lookup (f : handle) (data : list Z) (i : nat) :
  data <> [] ->
  content (write f data) !! i
  = if decide (i < position f)%nat
    then (if decide (i < length (content f))%nat then content f !! i else Some 0)
    else if decide (i < position f + length data)%nat
         then data !! (i - position f)%nat
         else content f !! i.
Proof.
  intros Hd. rewrite (write_nonempty f data Hd). destruct f as [c p]. cbn [content position].
  pose proof (length_write_prefix c p) as HX.
  destruct (decide (i < p)%nat) as [Hi|Hi].
  - rewrite lookup_app_l by lia.
    destruct (decide (i < length c)%nat) as [Hc|Hc].
    + rewrite lookup_app_l by (rewrite length_take; lia). apply lookup_take_lt. lia.
    + rewrite lookup_app_r by (rewrite length_take; lia).
      unfold zeros. apply lookup_replicate_2. rewrite length_take. lia.
  - rewrite lookup_app_r by lia. rewrite HX.
    destruct (decide (i < p + length data)%nat) as [Hi'|Hi'].
    + apply lookup_app_l. lia.
    + rewrite lookup_app_r by lia. rewrite lookup_drop. f_equal. lia.
Qed.

Lemma write_length (f : handle) (data : list Z) :
  data <> [] ->
  length (content (write f data))
  = Nat.max (length (content f)) (position f + length data).
Proof.
  intros Hd. rewrite (write_nonempty f data Hd). destruct f as [c p]. cbn [content position].
  rewrite length_app, length_write_prefix, length_app, length_drop. lia.
Qed.

Lemma chunk_record_nonempty (chunk_x chunk_z : Z) (comp raw : list Z) :
  chunk_record chunk_x chunk_z comp raw <> [].
Proof. discriminate. Qed.

Lemma unpack_le_bytes_I (v : Z) :
  0 <= v < 2 ^ 32 -> unpack [fmt_I] (le_bytes 4 v) = Ok [v].
Proof.
  intros Hv. apply (unpack_pack [fmt_I] [v]). cbn [pack].
  rewrite pack1_in_range by (fmt_consts; lia). cbn [bind fmt_size].
  now rewrite app_nil_r.
Qed.

(** X1.  The first twelve bytes of a written record: the magic number
    0xABCDEF99 at the offset, then the position word of the chunk as
    [encode_position] packs it with dimension 0, the format bytes (1, 0) and
    three reserved u16 that are 0. *)
Theorem written_record_head (compress : list Z -> list Z) (f : handle)
  (offset chunk_x chunk_z : Z) (flat : list (Z * Z)) (size : Z * Z * Z) (f' : handle) :
  write_chunk_to_subfile compress f offset chunk_x chunk_z flat size = Ok f' ->
  unpack [fmt_I] (slice (content f') offset 4) = Ok [MAGIC_CDB] /\
  unpack [fmt_I] (slice (content f') (offset + 4) 4) = Ok [encode_position chunk_x chunk_z 0] /\
  unpack [fmt_b; fmt_b] (slice (content f') (offset + 8) 2) = Ok [1; 0] /\
  unpack [fmt_H; fmt_H; fmt_H] (slice (content f') (offset + 10) 6) = Ok [0; 0; 0].
Proof.
  intros H. apply write_chunk_record in H as (raw & _ & Hoff & ->).
  pose proof (slice_write {| content := content f; position := Z.to_nat offset |}
                (chunk_record chunk_x chunk_z (compress raw) raw)) as Hs.
  cbn [position] in Hs. rewrite Z2Nat.id in Hs by exact Hoff.
  pose proof (encode_position_range chunk_x chunk_z 0) as Henc.
  repeat split.
  - pose proof (Hs 0 4%nat ltac:(discriminate) ltac:(lia)
                  ltac:(rewrite length_chunk_record; cbn; lia)) as H0.
    rewrite Z.add_0_r in H0. rewrite H0. reflexivity.
  - rewrite Hs; [|discriminate|lia|rewrite length_chunk_record; cbn; lia].
    change (take 4 (drop (Z.to_nat 4) (chunk_record chunk_x chunk_z (compress raw) raw)))
      with (le_bytes 4 (encode_position chunk_x chunk_z 0)).
    now apply unpack_le_bytes_I.
  - rewrite Hs; [|discriminate|lia|rewrite length_chunk_record; cbn; lia]. reflexivity.
  - rewrite Hs; [|discriminate|lia|rewrite length_chunk_record; cbn; lia]. reflexivity.
Qed.

(** X2.  Slots 1 to 5 of the section table of a written record, 16 bytes
    each from byte 32 of the record on, all read (-1, 0, 0, 0): only slot 0
    is ever in use. *)
Theorem unused_section_slots (compress : list Z -> list Z) (f : handle)
  (offset chunk_x chunk_z : Z) (flat : list (Z * Z)) (size : Z * Z * Z) (f' : handle) :
  write_chunk_to_subfile compress f offset chunk_x chunk_z flat size = Ok f' ->
  forall k, 1 <= k <= 5 ->
    unpack [fmt_i; fmt_i; fmt_i; fmt_i] (slice (content f') (offset + (16 + 16 * k)) 16)
    = Ok [-1; 0; 0; 0].
Proof.
  intros H k Hk. apply write_chunk_record in H as (raw & _ & Hoff & ->).
  pose proof (slice_write {| content := content f; position := Z.to_nat offset |}
                (chunk_record chunk_x chunk_z (compress raw) raw)) as Hs.
  cbn [position] in Hs. rewrite Z2Nat.id in Hs by exact Hoff.
  rewrite Hs; [|discriminate|lia|rewrite length_chunk_record; lia].
  assert (Hcases : k = 1 \/ k = 2 \/ k = 3 \/ k = 4 \/ k = 5) by lia.
  destruct Hcases as [-> | [-> | [-> | [-> | ->]]]]; reflexivity.
Qed.

(** X3.  A chunk write touches nothing outside its record: the record is
    112 bytes plus the compressed payload; the file ends up as long as the
    longer of what it was and the end of the record; every byte the file
    held before the offset or past the record is as it was; a gap between
    the old end of the file and the offset is filled with zero bytes; and
    the file position is left at the end of the record. *)
Theorem write_chunk_elsewhere (compress : list Z -> list Z) (f : handle)
  (offset chunk_x chunk_z : Z) (flat : list (Z * Z)) (size : Z * Z * Z) (f' : handle) :
  write_chunk_to_subfile compress f offset chunk_x chunk_z flat size = Ok f' ->
  exists raw,
    chunk_raw chunk_x chunk_z flat size = Ok raw /\
    let stop := (Z.to_nat offset + (112 + length (compress raw)))%nat in
    position f' = stop /\
    length (content f') = Nat.max (length (content f)) stop /\
    (forall i : nat, (i < Z.to_nat offset \/ stop <= i)%nat -> (i < length (content f))%nat ->
       content f' !! i = content f !! i) /\
    (forall i : nat, (length (content f) <= i < Z.to_nat offset)%nat ->
       content f' !! i = Some 0).
Proof.
  intros H. apply write_chunk_record in H as (raw & Hraw & Hoff & ->).
  exists raw. split; [exact Hraw|]. cbv zeta.
  pose proof (chunk_record_nonempty chunk_x chunk_z (compress raw) raw) as Hne.
  pose proof (length_chunk_record chunk_x chunk_z (compress raw) raw) as Hlen.
  split; [|split; [|split]].
  - rewrite (write_nonempty _ _ Hne). cbn [position]. now rewrite Hlen.
  - rewrite (write_length _ _ Hne). cbn [content position]. now rewrite Hlen.
  - intros i Hi Hc. rewrite (write_lookup _ _ _ Hne). cbn [content position]. rewrite Hlen.
    repeat destruct (decide _); (reflexivity || lia).
  - intros i Hi. rewrite (write_lookup _ _ _ Hne). cbn [content position].
    repeat destruct (decide _); (reflexivity || lia).
Qed.

(** ** Reading the position of the first chunk *)

Lemma wrap14_range (u : Z) : 0 <= u < 2 ^ 14 -> -8192 <= wrap14 u <= 8191.
Proof.
  intros Hu. unfold wrap14.
  change (Z.shiftl 1 13) with 8192. change (Z.shiftl 1 14) with 16384.
  change (2 ^ 14) with 16384 in Hu. destruct (Z.leb_spec 8192 u); lia.
Qed.

(** X4.  Whatever 32-bit value a position is read from, the triple
    [CDBPosition(val).parse_position()] returns has both coordinates in
    [-8192, 8191] and the dimension in [0, 15]. *)
Theorem parse_position_range (val : Z) :
  let '(x, z, dim) := decode val in
  -8192 <= x <= 8191 /\ -8192 <= z <= 8191 /\ 0 <= dim <= 15.
Proof.
  rewrite decode_unfold.
  pose proof (land_ones_range val 14 ltac:(lia)).
  pose proof (land_ones_range (Z.shiftr val 14) 14 ltac:(lia)).
  pose proof (land_ones_range (Z.shiftr val 28) 4 ltac:(lia)).
  split; [now apply wrap14_range|]. split; [now apply wrap14_range|].
  change (2 ^ 4) with 16 in *. lia.
Qed.

(** The handle arithmetic of [read_first_chunk_position] carried out: what
    is unpacked is four bytes from byte 28 on, or fewer when the file ends
    before byte 32. *)
Lemma read_first_chunk_position_unfold (bytes : list Z) :
  read_first_chunk_position (Some bytes)
  = (vals <- unpack [fmt_I] (if decide (28 <= length bytes)%nat then slice bytes 28 4 else []) ;;
     position_val <- getitem vals 0 ;;
     Ok (decode position_val)).
Proof.
  unfold read_first_chunk_position, seek, read. cbn [Z.ltb Z.compare bind content position].
  set (skipped := take 4 (drop (Z.to_nat 24) bytes)).
  assert (Hskipped : length skipped = Nat.min 4 (length bytes - 24))
    by (subst skipped; rewrite length_take, length_drop; lia).
  rewrite Hskipped. unfold decode, slice.
  destruct (decide (28 <= length bytes)%nat) as [Hlen|Hlen].
  - replace (Z.to_nat 24 + Nat.min 4 (length bytes - 24))%nat with (Z.to_nat 28) by lia.
    reflexivity.
  - rewrite (drop_ge bytes) by lia. reflexivity.
Qed.

(** X5.  [read_first_chunk_position] seeks to byte 24, throws four bytes
    away and decodes the four bytes that follow: on a file of at least 32
    bytes it returns the position held in bytes 28 to 31, and on a shorter
    file [struct.unpack] raises. *)
Theorem read_first_chunk_position_reads (bytes : list Z) :
  ((length bytes < 32)%nat -> read_first_chunk_position (Some bytes) = Raise StructError) /\
  ((32 <= length bytes)%nat ->
   read_first_chunk_position (Some bytes) = Ok (decode (le_int (slice bytes 28 4)))).
Proof.
  rewrite read_first_chunk_position_unfold.
  split; intros Hlen.
  - destruct (decide (28 <= length bytes)%nat) as [H28|H28]; [|reflexivity].
    assert (Hdata : (length (slice bytes 28 4) < 4)%nat)
      by (unfold slice; rewrite length_take, length_drop; lia).
    unfold unpack. cbn [fmt_size].
    destruct (Nat.ltb_spec (length (slice bytes 28 4)) 4); [reflexivity | lia].
  - destruct (decide (28 <= length bytes)%nat) as [H28|H28]; [|lia].
    assert (Hdata : length (slice bytes 28 4) = 4%nat)
      by (unfold slice; rewrite length_take, length_drop; lia).
    unfold unpack. cbn [fmt_size]. rewrite Hdata. cbn [Nat.ltb Nat.leb].
    rewrite (drop_ge _ 4) by lia. cbn [bind].
    rewrite (take_ge _ 4) by lia. reflexivity.
Qed.

(** X6.  After [write_chunk_to_subfile] has written a chunk at offset 20,
    the place of the first chunk, [read_first_chunk_position] returns
    (1, 0, 0) whatever the chunk coordinates are: the four bytes it skips, at
    24, are the position word, and the four it decodes, at 28, are the
    format bytes (1, 0) and the first reserved u16. *)
Theorem first_chunk_position_after_write (compress : list Z -> list Z) (f : handle)
  (chunk_x chunk_z : Z) (flat : list (Z * Z)) (size : Z * Z * Z) (f' : handle) :
  write_chunk_to_subfile compress f 20 chunk_x chunk_z flat size = Ok f' ->
  unpack [fmt_I] (slice (content f') 24 4) = Ok [encode_position chunk_x chunk_z 0] /\
  read_first_chunk_position (Some (content f')) = Ok (1, 0, 0).
Proof.
  intros H. apply write_chunk_record in H as (raw & _ & _ & ->).
  pose proof (slice_write {| content := content f; position := Z.to_nat 20 |}
                (chunk_record chunk_x chunk_z (compress raw) raw)) as Hs.
  cbn [position] in Hs.
  set (c := content (write _ _)) in *.
  assert (H24 : slice c 24 4 = le_bytes 4 (encode_position chunk_x chunk_z 0)).
  { apply (Hs 4 4%nat); [discriminate | lia | rewrite length_chunk_record; cbn; lia]. }
  assert (H28 : slice c 28 4 = [1; 0; 0; 0]).
  { apply (Hs 8 4%nat); [discriminate | lia | rewrite length_chunk_record; cbn; lia]. }
  split.
  - rewrite H24. apply unpack_le_bytes_I. apply encode_position_range.
  - assert (Hlen : (32 <= length c)%nat).
    { subst c. rewrite write_length by discriminate. cbn [position].
      rewrite length_chunk_record. lia. }
    rewrite read_first_chunk_position_unfold.
    destruct (decide (28 <= length c)%nat); [|lia]. rewrite H28. reflexivity.
Qed.

(** ** The file header *)

Lemma le_int_nonneg (bs : list Z) : Forall (fun b => 0 <= b < 256) bs -> 0 <= le_int bs.
Proof. induction 1 as [|b bs Hb _ IH]; cbn [le_int]; lia. Qed.

Lemma Forall_slice (P : Z -> Prop) (bytes : list Z) (start : Z) (n : nat) :
  Forall P bytes -> Forall P (slice bytes start n).
Proof. intros H. unfold slice. now apply Forall_take, Forall_drop. Qed.

(** Twenty bytes always unpack, to six fields. *)
Lemma unpack_header (data : list Z) :
  length data = 20%nat ->
  unpack [fmt_H; fmt_H; fmt_I; fmt_I; fmt_I; fmt_I] data
  = Ok [le_int (slice data 0 2); le_int (slice data 2 2); le_int (slice data 4 4);
        le_int (slice data 8 4); le_int (slice data 12 4); le_int (slice data 16 4)].
Proof.
  intros Hlen.
  do 20 (destruct data as [|? data]; [discriminate|]).
  destruct data; [|discriminate]. reflexivity.
Qed.

Lemma read_file_header_short (f : handle) :
  (length (content f) < position f + 20)%nat ->
  read_file_header f
  = ({| content := content f;
        position := position f + (length (content f) - position f) |},
     Raise BadFileHeader).
Proof.
  intros Hlen. unfold read_file_header. cbv zeta.
  change (sum_list (fmt_size <$> [fmt_H; fmt_H; fmt_I; fmt_I; fmt_I; fmt_I])) with 20%nat.
  unfold read. rewrite length_take, length_drop.
  replace (Nat.min 20 (length (content f) - position f))
    with (length (content f) - position f)%nat by lia.
  destruct (Nat.eqb_spec (length (content f) - position f) 20); [lia | reflexivity].
Qed.

Lemma read_file_header_long (f : handle) :
  (position f + 20 <= length (content f))%nat ->
  let data := slice (content f) (Z.of_nat (position f)) 20 in
  read_file_header f
  = ({| content := content f; position := position f + 20 |},
     Ok [le_int (slice data 0 2); le_int (slice data 2 2); le_int (slice data 4 4);
         le_int (slice data 8 4); le_int (slice data 12 4); le_int (slice data 16 4)]).
Proof.
  intros Hlen data. unfold read_file_header. cbv zeta.
  change (sum_list (fmt_size <$> [fmt_H; fmt_H; fmt_I; fmt_I; fmt_I; fmt_I])) with 20%nat.
  unfold read.
  assert (E : take 20 (drop (position f) (content f)) = data)
    by (subst data; unfold slice; now rewrite Nat2Z.id).
  rewrite E.
  assert (Hdata : length data = 20%nat)
    by (subst data; unfold slice; rewrite length_take, length_drop; lia).
  rewrite Hdata. cbn [Nat.eqb negb]. now rewrite (unpack_header data Hdata).
Qed.

(** X7.  [read_file_header] consumes 20 bytes; it raises Bad FileHeader
    exactly when fewer than 20 bytes are left at the file position, and
    otherwise returns six fields (unpacking 20 bytes never fails), the file
    position 20 bytes further on; the bytes of the file are never changed. *)
Theorem read_file_header_outcome (f : handle) :
  content (fst (read_file_header f)) = content f /\
  ((length (content f) < position f + 20)%nat ->
   snd (read_file_header f) = Raise BadFileHeader) /\
  ((position f + 20 <= length (content f))%nat ->
   position (fst (read_file_header f)) = (position f + 20)%nat /\
   exists s0 s1 count footer subsize unk0,
     snd (read_file_header f) = Ok [s0; s1; count; footer; subsize; unk0] /\
     (all_bytes (content f) -> 0 <= subsize)).
Proof.
  destruct (Nat.lt_ge_cases (length (content f)) (position f + 20)) as [Hlen|Hlen].
  - rewrite (read_file_header_short f Hlen). cbn [fst snd content].
    split; [reflexivity|]. split; [reflexivity | lia].
  - rewrite (read_file_header_long f Hlen). cbn [fst snd content position].
    split; [reflexivity|]. split; [lia|]. intros _. split; [reflexivity|].
    do 6 eexists. split; [reflexivity|].
    intros Hbytes. apply le_int_nonneg. now do 2 apply Forall_slice.
Qed.

(** ** Invariants of the insertion loop *)

Lemma for_io_inv {A S} (P : S -> Prop) (l : list A) (body : A -> S -> S * option exn) :
  (forall i s, In i l -> P s -> P (fst (body i s))) ->
  forall s, P s -> P (fst (for_io l body s)).
Proof.
  induction l as [|i l IH]; intros Hbody s Hs; cbn [for_io]; [exact Hs|].
  pose proof (Hbody i s ltac:(now left) Hs) as Hi.
  destruct (body i s) as [s' [e|]]; cbn [fst] in *; [exact Hi|].
  apply IH; [|exact Hi]. intros j t Hj. apply Hbody. now right.
Qed.

(** A loop over a range whose every iteration ends normally ends
    normally, with the invariant of the iteration after the last. *)
Lemma for_io_range {S} (I : Z -> S -> Prop) (body : Z -> S -> S * option exn) (c : nat) :
  forall lo,
  (forall i s, lo <= i < lo + Z.of_nat c -> I i s ->
     snd (body i s) = None /\ I (i + 1) (fst (body i s))) ->
  forall s, I lo s ->
    snd (for_io (seqZ lo (Z.of_nat c)) body s) = None /\
    I (lo + Z.of_nat c) (fst (for_io (seqZ lo (Z.of_nat c)) body s)).
Proof.
  induction c as [|c IH]; intros lo Hstep s Hs.
  - cbn. rewrite Z.add_0_r. auto.
  - rewrite Nat2Z.inj_succ, seqZ_cons by lia.
    replace (Z.pred (Z.succ (Z.of_nat c))) with (Z.of_nat c) by lia.
    cbn [for_io]. destruct (Hstep lo s ltac:(lia) Hs) as [E Hinv].
    destruct (body lo s) as [s' [e|]]; cbn [fst snd] in *; [discriminate|].
    replace (lo + Z.succ (Z.of_nat c)) with (Z.succ lo + Z.of_nat c) by lia.
    apply IH.
    + intros i t Hi. apply Hstep. lia.
    + replace (Z.succ lo) with (lo + 1) by lia. exact Hinv.
Qed.

(** The exception a loop ends with is the exception of one of its
    iterations, started in a state the invariant holds of. *)
Lemma for_io_Some {A S} (P : S -> Prop) (l : list A) (body : A -> S -> S * option exn)
  (e : exn) :
  (forall i s, In i l -> P s -> P (fst (body i s))) ->
  forall s, P s -> snd (for_io l body s) = Some e ->
  exists i s', In i l /\ P s' /\ snd (body i s') = Some e.
Proof.
  induction l as [|i l IH]; intros Hbody s Hs H; cbn [for_io] in H; [discriminate|].
  pose proof (Hbody i s ltac:(now left) Hs) as Hi.
  destruct (body i s) as [s' [e'|]] eqn:E; cbn [fst snd] in *.
  - exists i, s. rewrite E. split; [now left|]. split; [exact Hs | exact H].
  - destruct (IH ltac:(intros j t Hj; apply Hbody; now right) s' Hi H) as (j & t & Hj & Ht & Hb).
    exists j, t. split; [now right|]. auto.
Qed.

Lemma index_grown_refl (index : option (list Z)) : index_grown index index 0.
Proof.
  destruct index as [bytes|]; cbn; [|reflexivity].
  exists []. now rewrite app_nil_r.
Qed.

(** One call of the index appender: one more record, or none when it
    raises. *)
Lemma update_index_entry_grows (old index : option (list Z)) (k : nat) (x z slot : Z) :
  index_grown old index k ->
  match update_index_entry index x z slot with
  | Ok index' => index_grown old index' (S k)
  | Raise e => e = StructError
  end.
Proof.
  intros Hk. destruct (decide (0 <= slot <= 0xFFFF)) as [Hslot|Hslot].
  - destruct old as [bytes|]; cbn in Hk.
    + destruct Hk as (records & -> & Hlen).
      destruct (update_index_entry_one (bytes ++ records) x z slot Hslot)
        as (record & -> & Hrec & _).
      exists (records ++ record). rewrite app_assoc. split; [reflexivity|].
      rewrite length_app. lia.
    + subst index. reflexivity.
  - destruct index as [bytes|].
    + now rewrite (update_index_entry_overflow bytes x z slot Hslot).
    + destruct old as [old|]; cbn in Hk; [|reflexivity].
      destruct Hk as (? & ? & _). discriminate.
Qed.

(** ** How the chunk writer can fail *)

(** The exception a loop raises is raised by one of its iterations, in a
    state the invariant holds of. *)
Lemma for_in_Raise {A S} (P : S -> Prop) (l : list A) (body : A -> S -> result S) (e : exn) :
  (forall i s s', In i l -> P s -> body i s = Ok s' -> P s') ->
  forall s, P s -> for_in l body s = Raise e ->
  exists i s', In i l /\ P s' /\ body i s' = Raise e.
Proof.
  induction l as [|i l IH]; intros Hbody s Hs H; cbn [for_in] in H; [discriminate|].
  destruct (body i s) as [s1|e1] eqn:E; cbn [bind] in H.
  - destruct (IH ltac:(intros j t t' Hj; apply Hbody; now right) s1
                ltac:(eapply Hbody; [now left | exact Hs | exact E]) H)
      as (j & t & Hj & Ht & Hb).
    exists j, t. split; [now right|]. auto.
  - injection H as ->. exists i, s. split; [now left|]. auto.
Qed.

Lemma In_range (i n : Z) : In i (range n) -> 0 <= i < n.
Proof. unfold range. intros H. apply list_elem_of_In, elem_of_seqZ in H. lia. Qed.

Lemma pack1_Raise (c : fmt) (v : Z) (e : exn) :
  pack1 c v = Raise e -> e = StructError /\ ~ fmt_min c <= v <= fmt_max c.
Proof.
  unfold pack1.
  destruct (Z.leb_spec (fmt_min c) v), (Z.leb_spec v (fmt_max c)); cbn;
    intros [=]; subst; split; (reflexivity || lia).
Qed.

Lemma pack_Raise (fs : list fmt) (vs : list Z) (e : exn) :
  pack fs vs = Raise e -> e = StructError.
Proof.
  revert vs; induction fs as [|c fs IH]; intros [|v vs] H; cbn [pack] in H;
    try (injection H as <-; reflexivity); try discriminate.
  destruct (pack1 c v) as [b|e1] eqn:E1; cbn [bind] in H.
  - destruct (pack fs vs) as [bs|e2] eqn:E2; cbn [bind] in H; [discriminate|].
    injection H as <-. exact (IH _ E2).
  - injection H as <-. now apply pack1_Raise in E1.
Qed.

Lemma bytearray_append_Raise (raw : list Z) (v : Z) (e : exn) :
  bytearray_append raw v = Raise e -> e = ByteRange.
Proof. unfold bytearray_append. destruct (is_byte v); intros [=]; now subst. Qed.

Lemma bytearray_setitem_Raise (b : list Z) (i v : Z) (e : exn) :
  0 <= i < Z.of_nat (length b) -> bytearray_setitem b i v = Raise e -> e = ByteRange.
Proof.
  intros Hi. unfold bytearray_setitem. rewrite norm_index_in_range by exact Hi.
  destruct (is_byte v); intros [=]; now subst.
Qed.

Section ChunkFailure.

Variable flat : list (Z * Z).
Variables width height length : Z.
Variables chunk_x chunk_z : Z.

Lemma byte_plane_Raise (s : Z) (raw : list Z) (e : exn) :
  byte_plane s chunk_x chunk_z flat width height length raw = Raise e -> e = ByteRange.
Proof.
  unfold byte_plane. intros H.
  apply (for_in_Raise (fun _ => True)) in H as (x & r & _ & _ & H); [|auto|exact I].
  apply (for_in_Raise (fun _ => True)) in H as (z & t & _ & _ & H); [|auto|exact I].
  apply (for_in_Raise (fun _ => True)) in H as (sub_y & u & _ & _ & H); [|auto|exact I].
  cbv zeta in H. destruct (height <=? s * 16 + sub_y).
  - now apply bytearray_append_Raise in H.
  - rewrite flat_or_eq in H. cbn [bind] in H. now apply bytearray_append_Raise in H.
Qed.

Lemma nibble_step_length (s sub_y z x : Z) (b b' : list Z) :
  (nibble_value <-
     (if height <=? s * 16 + sub_y then Ok 0
      else flat_or flat ((s * 16 + sub_y) * (width * length) + (chunk_z * 16 + z) * width
                         + (chunk_x * 16 + x)) snd 0) ;;
   if Z.land (sub_y * 256 + z * 16 + x) 1 =? 0 then
     old <- getitem b (Z.shiftr (sub_y * 256 + z * 16 + x) 1) ;;
     bytearray_setitem b (Z.shiftr (sub_y * 256 + z * 16 + x) 1)
       (Z.lor (Z.land old 0xF0) nibble_value)
   else
     old <- getitem b (Z.shiftr (sub_y * 256 + z * 16 + x) 1) ;;
     bytearray_setitem b (Z.shiftr (sub_y * 256 + z * 16 + x) 1)
       (Z.lor (Z.land old 0x0F) (Z.shiftl nibble_value 4))) = Ok b' ->
  List.length b' = List.length b.
Proof.
  intros H. inv_bind H.
  destruct (Z.land (sub_y * 256 + z * 16 + x) 1 =? 0); inv_bind H;
    now apply bytearray_setitem_length in H.
Qed.

Lemma nibble_plane_Raise (s : Z) (e : exn) :
  nibble_plane s chunk_x chunk_z flat width height length = Raise e -> e = ByteRange.
Proof.
  unfold nibble_plane. cbv zeta.
  pose (P := fun b : list Z => List.length b = 4096%nat).
  assert (Hinner : forall sub_y z t t', P t ->
            for_in (range 16) (fun x nibbles =>
              nibble_value <-
                (if height <=? s * 16 + sub_y then Ok 0
                 else flat_or flat ((s * 16 + sub_y) * (width * length)
                                    + (chunk_z * 16 + z) * width + (chunk_x * 16 + x)) snd 0) ;;
              if Z.land (sub_y * 256 + z * 16 + x) 1 =? 0 then
                old <- getitem nibbles (Z.shiftr (sub_y * 256 + z * 16 + x) 1) ;;
                bytearray_setitem nibbles (Z.shiftr (sub_y * 256 + z * 16 + x) 1)
                  (Z.lor (Z.land old 0xF0) nibble_value)
              else
                old <- getitem nibbles (Z.shiftr (sub_y * 256 + z * 16 + x) 1) ;;
                bytearray_setitem nibbles (Z.shiftr (sub_y * 256 + z * 16 + x) 1)
                  (Z.lor (Z.land old 0x0F) (Z.shiftl nibble_value 4))) t = Ok t' -> P t').
  { intros sub_y z t t' Ht Hl.
    apply (for_in_inv P) in Hl; [exact Hl| |exact Ht].
    intros x u u' _ Hu Hb. unfold P in *. apply nibble_step_length in Hb. congruence. }
  assert (Hmid : forall sub_y r r', P r ->
            for_in (range 16) (fun z nibbles =>
              for_in (range 16) (fun x nibbles =>
                nibble_value <-
                  (if height <=? s * 16 + sub_y then Ok 0
                   else flat_or flat ((s * 16 + sub_y) * (width * length)
                                      + (chunk_z * 16 + z) * width + (chunk_x * 16 + x)) snd 0) ;;
                if Z.land (sub_y * 256 + z * 16 + x) 1 =? 0 then
                  old <- getitem nibbles (Z.shiftr (sub_y * 256 + z * 16 + x) 1) ;;
                  bytearray_setitem nibbles (Z.shiftr (sub_y * 256 + z * 16 + x) 1)
                    (Z.lor (Z.land old 0xF0) nibble_value)
                else
                  old <- getitem nibbles (Z.shiftr (sub_y * 256 + z * 16 + x) 1) ;;
                  bytearray_setitem nibbles (Z.shiftr (sub_y * 256 + z * 16 + x) 1)
                    (Z.lor (Z.land old 0x0F) (Z.shiftl nibble_value 4))) nibbles) r = Ok r' ->
            P r').
  { intros sub_y r r' Hr Hl.
    apply (for_in_inv P) in Hl; [exact Hl| |exact Hr].
    intros z t t' _ Ht Hb. exact (Hinner sub_y z t t' Ht Hb). }
  intros H.
  apply (for_in_Raise P) in H as (sub_y & r & Hy & Hr & H);
    [|intros sub_y r r' _; apply Hmid|reflexivity].
  apply (for_in_Raise P) in H as (z & t & Hz & Ht & H);
    [|intros z t t' _; apply Hinner|exact Hr].
  apply (for_in_Raise P) in H as (x & u & Hx & Hu & H);
    [|intros x u u' _ Hu Hb; unfold P in *; apply nibble_step_length in Hb; congruence
     |exact Ht].
  apply In_range in Hy, Hz, Hx. unfold P in Hu.
  assert (Hnv : exists nv,
            (if height <=? s * 16 + sub_y then Ok 0
             else flat_or flat ((s * 16 + sub_y) * (width * length)
                                + (chunk_z * 16 + z) * width + (chunk_x * 16 + x)) snd 0)
            = Ok nv).
  { destruct (height <=? s * 16 + sub_y); [eauto|]. rewrite flat_or_eq. eauto. }
  destruct Hnv as [nv Hnv]. rewrite Hnv in H. cbn [bind] in H.
  assert (Hi : 0 <= Z.shiftr (sub_y * 256 + z * 16 + x) 1 < Z.of_nat (List.length u)).
  { rewrite Z.shiftr_div_pow2 by lia. change (2 ^ 1) with 2. rewrite Hu.
    pose proof (Z.div_mod (sub_y * 256 + z * 16 + x) 2 ltac:(lia)).
    pose proof (Z.mod_pos_bound (sub_y * 256 + z * 16 + x) 2 ltac:(lia)). lia. }
  destruct (getitem_in_range u _ Hi) as (old & Hold & _). rewrite Hold in H.
  destruct (Z.land (sub_y * 256 + z * 16 + x) 1 =? 0); cbn [bind] in H;
    exact (bytearray_setitem_Raise _ _ _ _ Hi H).
Qed.

Lemma biome_plane_Raise (e : exn) :
  biome_plane chunk_x chunk_z flat width = Raise e -> e = ByteRange.
Proof.
  unfold biome_plane. cbv zeta.
  pose (P := fun b : list Z => List.length b = 256%nat).
  assert (Hstep : forall x z u u', P u ->
            (v <- flat_or flat ((chunk_z * 16 + z) * width + (chunk_x * 16 + x)) fst 1 ;;
             bytearray_setitem u (x * 16 + z) v) = Ok u' -> P u').
  { intros x z u u' Hu Hb. inv_bind Hb. apply bytearray_setitem_length in Hb.
    unfold P in *. congruence. }
  intros H.
  apply (for_in_Raise P) in H as (x & r & Hx & Hr & H); [| |reflexivity].
  - apply (for_in_Raise P) in H as (z & t & Hz & Ht & H);
      [|intros z t t' _; apply Hstep|exact Hr].
    apply In_range in Hx, Hz. unfold P in Ht.
    rewrite flat_or_eq in H. cbn [bind] in H.
    apply bytearray_setitem_Raise in H; [exact H | lia].
  - intros x r r' _ Hr Hl. apply (for_in_inv P) in Hl; [exact Hl| |exact Hr].
    intros z t t' _. apply Hstep.
Qed.

Lemma chunk_raw_Raise (e : exn) :
  chunk_raw chunk_x chunk_z flat (width, height, length) = Raise e ->
  (e = StructError /\ ~ 0 <= (height + 15) / 16 <= 0xFFFF) \/ e = ByteRange.
Proof.
  unfold chunk_raw. intros H. cbn [pack] in H.
  destruct (pack1 fmt_H ((height + 15) / 16)) as [count|e1] eqn:Hcount; cbn [bind] in H.
  - right.
    destruct (for_in (range ((height + 15) / 16)) _ _) as [raw1|e2] eqn:Hloop; cbn [bind] in H.
    + destruct (biome_plane chunk_x chunk_z flat width) as [biomes|e3] eqn:Hb;
        cbn [bind] in H; [discriminate|].
      injection H as <-. exact (biome_plane_Raise _ Hb).
    + injection H as <-.
      apply (for_in_Raise (fun _ => True)) in Hloop as (s & r & _ & _ & Hbody); [|auto|exact I].
      destruct (byte_plane s chunk_x chunk_z flat width height length r) as [r1|e4] eqn:Hbp;
        cbn [bind] in Hbody; [|injection Hbody as <-; exact (byte_plane_Raise _ _ _ Hbp)].
      destruct (nibble_plane s chunk_x chunk_z flat width height length) as [nb|e5] eqn:Hnp;
        cbn [bind] in Hbody; [discriminate|].
      injection Hbody as <-. exact (nibble_plane_Raise _ _ Hnp).
  - left. injection H as <-. apply pack1_Raise in Hcount as [-> Hr].
    split; [reflexivity|]. fmt_consts. lia.
Qed.

End ChunkFailure.


Lemma chunk_header_Raise (chunk_x chunk_z : Z) (comp raw : list Z) (e : exn) :
  chunk_header chunk_x chunk_z comp raw = Raise e -> e = StructError.
Proof.
  unfold chunk_header. intros H.
  repeat match type of H with
  | (_ <- ?m ;; _) = Raise _ =>
      let E := fresh "E" in
      destruct m eqn:E; cbn [bind] in H;
      [|injection H as <-; exact (pack_Raise _ _ _ E)]
  end.
  apply (for_in_Raise (fun _ => True)) in H as (i & s & _ & _ & H); [|auto|exact I].
  destruct (pack _ _) eqn:Habsent in H; cbn [bind] in H; [discriminate|].
  injection H as <-. exact (pack_Raise _ _ _ Habsent).
Qed.

Lemma write_chunk_Raise (compress : list Z -> list Z) (f : handle)
  (offset chunk_x chunk_z : Z) (flat : list (Z * Z)) (size : Z * Z * Z) (e : exn) :
  write_chunk_to_subfile compress f offset chunk_x chunk_z flat size = Raise e ->
  e = StructError \/ e = ByteRange \/ e = OSError.
Proof.
  destruct size as [[width height] length]. unfold write_chunk_to_subfile. intros H.
  destruct (chunk_raw _ _ _ _) as [raw|e1] eqn:Hraw; cbn [bind] in H.
  - destruct (chunk_header _ _ _ _) as [hdr|e2] eqn:Hhdr; cbn [bind] in H.
    + unfold seek in H. destruct (offset <? 0); cbn [bind] in H.
      * injection H as <-. auto.
      * destruct (pack _ _) eqn:Hmagic in H; cbn [bind] in H; [discriminate|].
        injection H as <-. left. exact (pack_Raise _ _ _ Hmagic).
    + injection H as <-. left. exact (chunk_header_Raise _ _ _ _ _ Hhdr).
  - injection H as <-. destruct (chunk_raw_Raise _ _ _ _ _ _ _ Hraw) as [[-> _] | ->]; auto.
Qed.

(** ** The insertion as a whole *)

Lemma seqZ_to_nat (lo n : Z) : seqZ lo n = seqZ lo (Z.of_nat (Z.to_nat n)).
Proof. unfold seqZ. now rewrite Nat2Z.id. Qed.

Section InsertionRun.

Variable compress : list Z -> list Z.
Variable io_shared :
  list Z -> list (Z * Z) -> Z * Z * Z -> Z * Z -> Z * Z -> loop_state -> list Z.
Variable flat : list (Z * Z).
Variables width height length : Z.
Variables start_x start_z : Z.

Local Abbreviation size := (width, height, length).
Local Abbreviation chunks_x := ((width + 15) / 16).
Local Abbreviation chunks_z := ((length + 15) / 16).

Local Abbreviation loops name opened :=
  (insert_loops compress io_shared name opened flat width height length start_x start_z).
Local Abbreviation chunk name opened :=
  (insert_chunk compress io_shared name opened flat size start_x start_z).

(** [insert_structure] on a database whose header can be read. *)
Lemma insert_structure_run (w : world) (slot_number : Z) (bytes : list Z) :
  cdb_file w = Some bytes -> (20 <= List.length bytes)%nat ->
  exists subsize,
    (all_bytes bytes -> 0 <= subsize) /\
    let r := loops (cdb_name w) bytes subsize
               {| st_f := {| content := bytes; position := 20 |};
                  st_index := index_file w; st_slot_number := slot_number |} in
    insert_structure compress io_shared w flat size start_x start_z slot_number
    = (store w (content (st_f (fst r))) (st_index (fst r)), snd r).
Proof.
  intros Hcdb Hlen. apply cdb_file_Some in Hcdb as [Hname Hcdb].
  exists (le_int (slice (slice bytes (Z.of_nat 0) 20) 12 4)). split.
  - intros Hbytes. apply le_int_nonneg. now do 2 apply Forall_slice.
  - cbv zeta. unfold insert_structure. rewrite Hname, Hcdb.
    rewrite (read_file_header_long {| content := bytes; position := 0 |})
      by (cbn [content position]; lia).
    cbn [content position Nat.add].
    erewrite for_io_ext; [|intros cz st; apply for_io_ext; intros cx st';
                           apply insert_body_skip].
    unfold insert_loops. destruct (for_io _ _ _) as [st e]. reflexivity.
Qed.

(** [insert_structure] on a database too short to hold a header. *)
Lemma insert_structure_short (w : world) (slot_number : Z) (bytes : list Z) :
  cdb_file w = Some bytes -> (List.length bytes < 20)%nat ->
  insert_structure compress io_shared w flat size start_x start_z slot_number
  = (w, Some BadFileHeader).
Proof.
  intros Hcdb Hlen. apply cdb_file_Some in Hcdb as [Hname Hcdb].
  unfold insert_structure. rewrite Hname, Hcdb.
  rewrite (read_file_header_short {| content := bytes; position := 0 |})
    by (cbn [content position]; lia).
  cbn [content position st_f st_index]. now rewrite store_same.
Qed.

(** [insert_structure] without a database to open. *)
Lemma insert_structure_closed (w : world) (slot_number : Z) :
  cdb_file w = None ->
  exists e, (e = EmptyName \/ e = OSError) /\
    insert_structure compress io_shared w flat size start_x start_z slot_number = (w, Some e).
Proof.
  intros H. unfold insert_structure.
  apply cdb_file_None in H as [->|[-> ->]]; eauto.
Qed.

(** A property of the loop variables that every chunk keeps holds when
    the loops are left, with or without an exception. *)
Lemma insert_loops_inv (name : string) (opened : list Z) (P : loop_state -> Prop)
  (subsize : Z) :
  (forall cz cx st, 0 <= cz < chunks_z -> 0 <= cx < chunks_x -> P st ->
     P (fst (chunk name opened subsize chunks_x cz cx st))) ->
  forall st, P st -> P (fst (loops name opened subsize st)).
Proof.
  intros Hstep st Hst. unfold insert_loops.
  apply (for_io_inv P); [|exact Hst]. intros cz s Hcz Hs.
  apply (for_io_inv P); [|exact Hs]. intros cx t Hcx Ht.
  apply In_range in Hcz, Hcx. now apply Hstep.
Qed.

Lemma insert_chunk_index (name : string) (opened : list Z) (old : option (list Z))
  (subsize cz cx : Z) (st : loop_state) :
  (exists k, index_grown old (st_index st) k) ->
  exists k, index_grown old (st_index (fst (chunk name opened subsize chunks_x cz cx st))) k.
Proof.
  intros [k Hk]. unfold insert_chunk.
  destruct (write_chunk_to_subfile _ _ _ _ _ _ _) as [f1|e]; cbn [fst st_index]; [|eauto].
  destruct (String.eqb name index_name).
  { cbn [st_slot_number]. destruct (update_index_entry _ _ _ _); cbn [fst st_index]; eauto. }
  pose proof (update_index_entry_grows old (st_index st) k (start_x + cx) (start_z + cz)
                (st_slot_number st) Hk) as Hupd.
  destruct (update_index_entry _ _ _ _) as [idx|e]; cbn [fst st_index]; eauto.
Qed.

Lemma insert_chunk_header (name : string) (bytes : list Z) (subsize cz cx : Z)
  (st : loop_state) :
  0 <= subsize -> 0 <= cz -> 0 <= cx < chunks_x ->
  ((20 <= List.length bytes <= List.length (content (st_f st)))%nat /\
   forall i : nat, (i < 20)%nat -> content (st_f st) !! i = bytes !! i) ->
  let st' := fst (chunk name bytes subsize chunks_x cz cx st) in
  (20 <= List.length bytes <= List.length (content (st_f st')))%nat /\
  forall i : nat, (i < 20)%nat -> content (st_f st') !! i = bytes !! i.
Proof.
  intros Hsub Hcz Hcx [Hlen Hkeep]. cbv zeta. unfold insert_chunk.
  destruct (write_chunk_to_subfile _ _ _ _ _ _ _) as [f1|e] eqn:Hw; cbn [fst st_f]; [|auto].
  assert (Hf1 : (20 <= List.length bytes <= List.length (content f1))%nat /\
                forall i : nat, (i < 20)%nat -> content f1 !! i = bytes !! i).
  { apply write_chunk_record in Hw as (raw & _ & Hoff & ->).
    assert (H20 : 20 <= 20 + (cz * chunks_x + cx) * subsize).
    { assert (0 <= cz * chunks_x) by (apply Z.mul_nonneg_nonneg; lia).
      assert (0 <= (cz * chunks_x + cx) * subsize) by (apply Z.mul_nonneg_nonneg; lia).
      lia. }
    split.
    - rewrite write_length by apply chunk_record_nonempty. cbn [content position]. lia.
    - intros i Hi. rewrite write_lookup by apply chunk_record_nonempty.
      cbn [content position].
      destruct (decide (i < Z.to_nat _)%nat); [|lia].
      destruct (decide (i < List.length (content (st_f st)))%nat); [|lia].
      now apply Hkeep. }
  destruct (String.eqb name index_name).
  - cbn [st_slot_number st_f].
    destruct (update_index_entry _ _ _ _) as [idx|e]; cbn [fst st_f content]; [|exact Hf1].
    destruct Hf1 as [Hl1 Hk1]. split.
    + rewrite length_app, length_take. lia.
    + intros i Hi. rewrite lookup_app_l by (rewrite length_take; lia).
      rewrite lookup_take_lt by lia. now apply Hk1.
  - destruct (update_index_entry _ _ _ _) as [idx|e]; cbn [fst st_f]; exact Hf1.
Qed.

End InsertionRun.


(** X10.  An insertion never touches the 20-byte header of the database,
    and never makes the file shorter: the chunks are written at offsets
    20 + k * subfile_size with k >= 0, and the subfile size, read from the
    header as a u32, is not negative. *)
Theorem insert_structure_keeps_header (compress : list Z -> list Z)
  (io_shared : list Z -> list (Z * Z) -> Z * Z * Z -> Z * Z -> Z * Z -> loop_state -> list Z)
  (w : world) (flat : list (Z * Z)) (size : Z * Z * Z) (start_x start_z slot_number : Z)
  (bytes : list Z) :
  cdb_file w = Some bytes -> all_bytes bytes ->
  exists bytes',
    cdb_file (fst (insert_structure compress io_shared w flat size
                     start_x start_z slot_number))
    = Some bytes' /\
    (List.length bytes <= List.length bytes')%nat /\
    forall i : nat, (i < 20)%nat -> bytes' !! i = bytes !! i.
Proof.
  intros Hcdb Hbytes. destruct size as [[width height] length].
  destruct (Nat.lt_ge_cases (List.length bytes) 20) as [Hlen|Hlen].
  - rewrite (insert_structure_short _ _ _ _ _ _ _ _ _ _ bytes Hcdb Hlen).
    exists bytes. cbn [fst]. auto.
  - destruct (insert_structure_run compress io_shared flat width height length
                start_x start_z w slot_number bytes Hcdb Hlen) as (subsize & Hsub & ->).
    cbn [fst]. eexists. split; [apply (cdb_file_store w bytes), Hcdb|].
    pose proof (insert_loops_inv compress io_shared flat width height length start_x start_z
      (cdb_name w) bytes
      (fun st => (20 <= List.length bytes <= List.length (content (st_f st)))%nat /\
                 forall i : nat, (i < 20)%nat -> content (st_f st) !! i = bytes !! i)
      subsize) as Hinv.
    cbv beta in Hinv.
    destruct (Hinv ltac:(intros cz cx st Hcz Hcx; apply insert_chunk_header; [auto | lia | lia])
                {| st_f := {| content := bytes; position := 20 |};
                   st_index := index_file w; st_slot_number := slot_number |}
                ltac:(cbn [st_f content]; split; [lia | reflexivity])) as [Hl Hk].
    split; [lia | exact Hk].
Qed.


Lemma update_index_entry_Raise (index : option (list Z)) (x z slot : Z) (e : exn) :
  update_index_entry index x z slot = Raise e -> e = StructError.
Proof.
  destruct index as [bytes|]; [|discriminate]. unfold update_index_entry, CDBEntry_pack.
  destruct (pack _ _) eqn:E; cbn [bind]; [discriminate|].
  intros [= <-]. exact (pack_Raise _ _ _ E).
Qed.

Lemma update_index_entry_Ok (index : option (list Z)) (x z slot : Z) :
  0 <= slot <= 0xFFFF -> exists index', update_index_entry index x z slot = Ok index'.
Proof.
  intros Hslot. destruct index as [bytes|]; [|cbn; eauto].
  destruct (update_index_entry_one bytes x z slot Hslot) as (record & -> & _). eauto.
Qed.

Lemma insert_chunk_exceptions (compress : list Z -> list Z)
  (io_shared : list Z -> list (Z * Z) -> Z * Z * Z -> Z * Z -> Z * Z -> loop_state -> list Z)
  (name : string) (opened : list Z) (flat : list (Z * Z))
  (size : Z * Z * Z) (start_x start_z subsize chunks_x cz cx : Z) (st : loop_state) (e : exn) :
  snd (insert_chunk compress io_shared name opened flat size start_x start_z subsize
         chunks_x cz cx st) = Some e ->
  e = StructError \/ e = ByteRange \/ e = OSError.
Proof.
  unfold insert_chunk.
  destruct (write_chunk_to_subfile _ _ _ _ _ _ _) as [f1|e1] eqn:Hw; cbn [snd].
  - destruct (String.eqb name index_name);
      (destruct (update_index_entry _ _ _ _) as [idx|e2] eqn:Hu; cbn [snd]; [discriminate|]);
      intros [= <-]; left; exact (update_index_entry_Raise _ _ _ _ _ Hu).
  - intros [= <-]. exact (write_chunk_Raise _ _ _ _ _ _ _ _ Hw).
Qed.

Lemma insert_loops_exceptions (compress : list Z -> list Z)
  (io_shared : list Z -> list (Z * Z) -> Z * Z * Z -> Z * Z -> Z * Z -> loop_state -> list Z)
  (name : string) (opened : list Z) (flat : list (Z * Z))
  (width height length start_x start_z subsize : Z) (st : loop_state) (e : exn) :
  snd (insert_loops compress io_shared name opened flat width height length
         start_x start_z subsize st) = Some e ->
  e = StructError \/ e = ByteRange \/ e = OSError.
Proof.
  unfold insert_loops. intros H.
  apply (for_io_Some (fun _ => True)) in H as (cz & s & _ & _ & H); [|auto|exact I].
  apply (for_io_Some (fun _ => True)) in H as (cx & t & _ & _ & H); [|auto|exact I].
  exact (insert_chunk_exceptions _ _ _ _ _ _ _ _ _ _ _ _ _ _ H).
Qed.

(** X11.  [insert_structure] ends with Bad FileHeader exactly when the
    database exists and is shorter than the 20 bytes of its header; nothing
    has been written then: the database and the index are as they were. *)
Theorem insert_structure_bad_header (compress : list Z -> list Z)
  (io_shared : list Z -> list (Z * Z) -> Z * Z * Z -> Z * Z -> Z * Z -> loop_state -> list Z)
  (w : world) (flat : list (Z * Z)) (size : Z * Z * Z) (start_x start_z slot_number : Z) :
  let r := insert_structure compress io_shared w flat size start_x start_z slot_number in
  (snd r = Some BadFileHeader <->
   exists bytes, cdb_file w = Some bytes /\ (List.length bytes < 20)%nat) /\
  (snd r = Some BadFileHeader -> fst r = w).
Proof.
  destruct size as [[width height] length]. cbv zeta.
  destruct (cdb_file w) as [bytes|] eqn:Hcdb.
  - destruct (Nat.lt_ge_cases (List.length bytes) 20) as [Hlen|Hlen].
    + rewrite (insert_structure_short _ _ _ _ _ _ _ _ _ _ bytes Hcdb Hlen). cbn [fst snd].
      split; [|reflexivity]. split; [eauto | reflexivity].
    + destruct (insert_structure_run compress io_shared flat width height length
                  start_x start_z w slot_number bytes Hcdb Hlen) as (subsize & _ & ->).
      cbn [fst snd].
      assert (Hno : snd (insert_loops compress io_shared (cdb_name w) bytes flat
                           width height length start_x start_z subsize
                    {| st_f := {| content := bytes; position := 20 |};
                       st_index := index_file w; st_slot_number := slot_number |})
                    <> Some BadFileHeader).
      { intros H. apply insert_loops_exceptions in H as [H|[H|H]]; discriminate. }
      split; [|intros H; contradiction]. split; [intros H; contradiction|].
      intros (bytes' & [= <-] & Hshort). lia.
  - destruct (insert_structure_closed compress io_shared flat width height length
                start_x start_z w slot_number Hcdb) as (e & He & ->).
    cbn [fst snd].
    split; [|reflexivity]. split; [|intros (bytes & [=] & _)].
    intros [= ->]. destruct He; discriminate.
Qed.


Lemma chunks_positive (n : Z) : 1 <= n -> 1 <= (n + 15) / 16.
Proof. intros Hn. apply Z.div_le_lower_bound; lia. Qed.

Lemma range_cons (n : Z) : 1 <= n -> range n = 0 :: seqZ 1 (n - 1).
Proof.
  intros Hn. unfold range. rewrite seqZ_cons by lia.
  now replace (Z.succ 0) with 1 by lia; replace (Z.pred n) with (n - 1) by lia.
Qed.

(** X13.  When the first chunk of a structure cannot be encoded, the
    insertion ends with the encoder's exception and nothing has been
    written: the database and the index are as they were. *)
Theorem insert_structure_first_chunk_fails (compress : list Z -> list Z)
  (io_shared : list Z -> list (Z * Z) -> Z * Z * Z -> Z * Z -> Z * Z -> loop_state -> list Z)
  (w : world) (flat : list (Z * Z)) (width height length : Z)
  (start_x start_z slot_number : Z) (bytes : list Z) (e : exn) :
  cdb_file w = Some bytes -> (20 <= List.length bytes)%nat ->
  1 <= width -> 1 <= length ->
  chunk_raw start_x start_z flat (width, height, length) = Raise e ->
  insert_structure compress io_shared w flat (width, height, length)
    start_x start_z slot_number
  = (w, Some e).
Proof.
  intros Hcdb Hlen Hw Hl Hraw.
  destruct (insert_structure_run compress io_shared flat width height length
              start_x start_z w slot_number bytes Hcdb Hlen) as (subsize & _ & ->).
  unfold insert_loops.
  rewrite (range_cons ((length + 15) / 16)) by now apply chunks_positive.
  rewrite (range_cons ((width + 15) / 16)) by now apply chunks_positive.
  cbn [for_io].
  assert (E : forall st, insert_chunk compress io_shared (cdb_name w) bytes flat
                           (width, height, length) start_x start_z
                           subsize ((width + 15) / 16) 0 0 st = (st, Some e)).
  { intros st. unfold insert_chunk, write_chunk_to_subfile.
    now rewrite !Z.add_0_r, Hraw. }
  rewrite E. cbn [fst snd st_f st_index content].
  apply cdb_file_Some in Hcdb as [_ Hcdb]. now rewrite store_same.
Qed.

(** ** Insertions that go through *)

Section InsertionSucceeds.

Variable compress : list Z -> list Z.
Variable io_shared :
  list Z -> list (Z * Z) -> Z * Z * Z -> Z * Z -> Z * Z -> loop_state -> list Z.
Variable name : string.
Variable opened : list Z.
Variable flat : list (Z * Z).
Variables width height length : Z.
Variables start_x start_z subsize slot_number : Z.
Variable old : option (list Z).

Hypothesis two_files : name <> index_name.
Hypothesis flat_encodable : encodable flat.
Hypothesis subchunks : 0 <= (height + 15) / 16 <= 0xFFFF.
Hypothesis compressed :
  forall cx cz raw, chunk_raw cx cz flat (width, height, length) = Ok raw ->
                    Z.of_nat (List.length (compress raw)) < 2 ^ 31.
Hypothesis subsize_nonneg : 0 <= subsize.
Hypothesis slot_nonneg : 0 <= slot_number.

Local Abbreviation chunks_x := ((width + 15) / 16).
Local Abbreviation chunks_z := ((length + 15) / 16).

Lemma insert_chunk_succeeds (k cz cx : Z) (st : loop_state) :
  0 <= k -> slot_number + k <= 0xFFFF -> 0 <= cz -> 0 <= cx < chunks_x ->
  chunks_done old slot_number k st ->
  let r := insert_chunk compress io_shared name opened flat (width, height, length)
             start_x start_z subsize chunks_x cz cx st in
  snd r = None /\ chunks_done old slot_number (k + 1) (fst r).
Proof.
  intros Hk Hroom Hcz Hcx [Hslot Hidx]. cbv zeta. unfold insert_chunk.
  assert (Hoff : 0 <= 20 + (cz * chunks_x + cx) * subsize).
  { assert (0 <= cz * chunks_x) by (apply Z.mul_nonneg_nonneg; lia).
    assert (0 <= (cz * chunks_x + cx) * subsize) by (apply Z.mul_nonneg_nonneg; lia).
    lia. }
  destruct (write_chunk_to_subfile_Ok compress (st_f st) _ (start_x + cx) (start_z + cz)
              flat width height length flat_encodable subchunks Hoff
              (compressed (start_x + cx) (start_z + cz))) as [f1 ->].
  rewrite (distinct_names name two_files). cbn [st_index st_slot_number].
  pose proof (update_index_entry_grows old (st_index st) (Z.to_nat k)
                (start_x + cx) (start_z + cz) (st_slot_number st) Hidx) as Hgrow.
  destruct (update_index_entry_Ok (st_index st) (start_x + cx) (start_z + cz)
              (st_slot_number st) ltac:(lia)) as [index' Hupd].
  rewrite Hupd in Hgrow |- *. cbn [fst snd]. split; [reflexivity|].
  split; cbn [st_slot_number st_index]; [lia|].
  now replace (Z.to_nat (k + 1)) with (S (Z.to_nat k)) by lia.
Qed.

Lemma insert_loops_succeed (st : loop_state) :
  let n := Z.max 0 chunks_x * Z.max 0 chunks_z in
  slot_number + n <= 0x10000 ->
  chunks_done old slot_number 0 st ->
  let r := insert_loops compress io_shared name opened flat width height length
             start_x start_z subsize st in
  snd r = None /\ chunks_done old slot_number n (fst r).
Proof.
  intros n Hroom Hst. cbv zeta. unfold insert_loops, range.
  rewrite (seqZ_to_nat 0 chunks_z), (seqZ_to_nat 0 chunks_x).
  set (CX := Z.of_nat (Z.to_nat chunks_x)). set (CZ := Z.of_nat (Z.to_nat chunks_z)).
  assert (HCX : CX = Z.max 0 chunks_x) by lia.
  assert (HCZ : CZ = Z.max 0 chunks_z) by lia.
  assert (Hn : n = CZ * CX) by (subst n; rewrite HCX, HCZ; lia).
  rewrite Hn in *. clear Hn n.
  replace (CZ * CX) with ((0 + CZ) * CX) by lia.
  apply (for_io_range (fun cz st => chunks_done old slot_number (cz * CX) st)
           _ (Z.to_nat chunks_z) 0); [|exact Hst].
  fold CZ. intros cz s Hcz Hs.
  replace ((cz + 1) * CX) with (cz * CX + (0 + CX)) by lia.
  apply (for_io_range (fun cx st => chunks_done old slot_number (cz * CX + cx) st)
           _ (Z.to_nat chunks_x) 0); [|now rewrite Z.add_0_r].
  fold CX. intros cx t Hcx Ht.
  assert (Hle : cz * CX <= (CZ - 1) * CX) by (apply Z.mul_le_mono_nonneg_r; lia).
  assert (H0 : 0 <= cz * CX) by (apply Z.mul_nonneg_nonneg; lia).
  rewrite Z.add_assoc.
  apply insert_chunk_succeeds; try lia; exact Ht.
Qed.

End InsertionSucceeds.

(** An insertion into one of two files that meets no obstacle. *)
Lemma insert_structure_goes_through (compress : list Z -> list Z)
  (io_shared : list Z -> list (Z * Z) -> Z * Z * Z -> Z * Z -> Z * Z -> loop_state -> list Z)
  (w : world) (flat : list (Z * Z)) (width height length : Z)
  (start_x start_z slot_number : Z) (bytes : list Z) :
  cdb_name w <> index_name ->
  cdb_file w = Some bytes -> (20 <= List.length bytes)%nat -> all_bytes bytes ->
  encodable flat -> 0 <= (height + 15) / 16 <= 0xFFFF ->
  (forall cx cz raw, chunk_raw cx cz flat (width, height, length) = Ok raw ->
                     Z.of_nat (List.length (compress raw)) < 2 ^ 31) ->
  let n := Z.max 0 ((width + 15) / 16) * Z.max 0 ((length + 15) / 16) in
  0 <= slot_number -> slot_number + n <= 0x10000 ->
  let r := insert_structure compress io_shared w flat (width, height, length)
             start_x start_z slot_number in
  snd r = None /\ index_grown (index_file w) (index_file (fst r)) (Z.to_nat n).
Proof.
  intros Hne Hcdb Hlen Hbytes Hflat Hsc Hcomp n Hslot Hroom. cbv zeta.
  destruct (insert_structure_run compress io_shared flat width height length
              start_x start_z w slot_number bytes Hcdb Hlen) as (subsize & Hsub & ->).
  cbn [fst snd].
  destruct (insert_loops_succeed compress io_shared (cdb_name w) bytes flat
              width height length start_x start_z subsize
              slot_number (index_file w) Hne Hflat Hsc Hcomp (Hsub Hbytes) Hslot
              {| st_f := {| content := bytes; position := 20 |};
                 st_index := index_file w; st_slot_number := slot_number |}
              Hroom) as (Hnone & _ & Hgrown).
  - split; cbn [st_slot_number st_index]; [lia | apply index_grown_refl].
  - split; [exact Hnone|]. revert Hgrown.
    match goal with |- context [store _ _ ?i] => generalize i end.
    intros idx Hk. rewrite index_file_store; [exact Hk | exact Hne | |]; intros E.
    + rewrite E in Hk. exact Hk.
    + subst idx. unfold index_grown in Hk.
      destruct (index_file w) as [i|]; [|reflexivity].
      destruct Hk as (records & [=] & _).
Qed.


(** ** The insertion, chunk by chunk *)

Lemma read_file_header_content (f f' : handle) (r : result (list Z)) :
  read_file_header f = (f', r) -> content f' = content f.
Proof.
  unfold read_file_header. cbv zeta. unfold read.
  destruct (negb _); intros [= <- _]; reflexivity.
Qed.

Lemma index_after_nil (index : option (list Z)) : index_after index [] = index.
Proof.
  destruct index as [bytes|]; [|reflexivity]. unfold index_after.
  cbn [fmap option_fmap option_map list_fmap mjoin list_join]. now rewrite app_nil_r.
Qed.

Lemma index_after_one (bytes : list Z) (offset x z slot : Z) :
  index_after (Some bytes) [(offset, x, z, slot)] = Some (bytes ++ index_record x z slot).
Proof.
  unfold index_after. cbn [fmap option_fmap option_map list_fmap mjoin list_join].
  now rewrite app_nil_r.
Qed.

Lemma index_after_cons (index : option (list Z)) (entry : Z * Z * Z * Z)
  (done : list (Z * Z * Z * Z)) :
  index_after (index_after index [entry]) done = index_after index (entry :: done).
Proof.
  destruct index as [bytes|]; [|reflexivity]. destruct entry as [[[offset x] z] slot].
  rewrite index_after_one. unfold index_after.
  cbn [fmap option_fmap option_map list_fmap mjoin list_join]. now rewrite app_assoc.
Qed.

Lemma update_index_entry_after (index index' : option (list Z)) (offset x z slot : Z) :
  update_index_entry index x z slot = Ok index' ->
  index' = index_after index [(offset, x, z, slot)].
Proof.
  destruct index as [bytes|]; [|now intros [= <-]].
  destruct (decide (0 <= slot <= 0xFFFF)) as [Hslot|Hslot].
  - rewrite (update_index_entry_record bytes x z slot Hslot). intros [= <-].
    now rewrite index_after_one.
  - now rewrite (update_index_entry_overflow bytes x z slot Hslot).
Qed.

Lemma update_index_entry_refused (index : option (list Z)) (x z slot : Z) (e : exn) :
  update_index_entry index x z slot = Raise e ->
  e = StructError /\ index <> None /\ ~ 0 <= slot <= 0xFFFF.
Proof.
  intros H. split; [exact (update_index_entry_Raise _ _ _ _ _ H)|].
  destruct index as [bytes|]; [|discriminate]. split; [discriminate|].
  intros Hslot. now rewrite (update_index_entry_record bytes x z slot Hslot) in H.
Qed.

Section PlanRun.

Variable compress : list Z -> list Z.
Variable flat : list (Z * Z).
Variable size : Z * Z * Z.

Local Abbreviation place := (place_chunk compress flat size).
Local Abbreviation step := (write_and_index compress flat size).

(** One chunk of the plan: it is written and indexed; or it is not
    written; or it is written and the index appender refuses the slot. *)
Lemma write_and_index_cases (offset x z slot : Z) (f : handle) (index : option (list Z)) :
  let r := step (offset, x, z, slot) (f, index) in
  match snd r with
  | None =>
      (exists raw, chunk_raw x z flat size = Ok raw) /\
      content (fst (fst r)) = place (content f) (offset, x, z, slot) /\
      snd (fst r) = index_after index [(offset, x, z, slot)]
  | Some e =>
      fst r = (f, index) \/
      (exists raw, chunk_raw x z flat size = Ok raw) /\
      content (fst (fst r)) = place (content f) (offset, x, z, slot) /\
      snd (fst r) = index /\
      e = StructError /\ index <> None /\ ~ 0 <= slot <= 0xFFFF
  end.
Proof.
  cbv zeta. unfold write_and_index. cbn [fst snd].
  destruct (write_chunk_to_subfile _ _ _ _ _ _ _) as [f1|e1] eqn:Hw; cbn [fst snd];
    [|now left].
  apply write_chunk_record in Hw as (raw & Hraw & _ & ->).
  assert (Hplace : content (write {| content := content f; position := Z.to_nat offset |}
                                  (chunk_record x z (compress raw) raw))
                   = place (content f) (offset, x, z, slot)).
  { unfold place_chunk, chunk_payload. now rewrite Hraw. }
  destruct (update_index_entry index x z slot) as [index'|e2] eqn:Hu; cbn [fst snd].
  - split; [eauto|]. split; [exact Hplace|].
    exact (update_index_entry_after _ _ offset _ _ _ Hu).
  - right. split; [eauto|]. split; [exact Hplace|]. split; [reflexivity|].
    exact (update_index_entry_refused _ _ _ _ _ Hu).
Qed.

(** A run of the plan: [n] chunks are written and indexed, and the run
    ends there, or with chunk [n] written and not indexed when there is
    an exception. *)
Lemma plan_run (plan : list (Z * Z * Z * Z)) :
  forall (f : handle) (index : option (list Z)),
  let r := for_io plan step (f, index) in
  exists n written : nat,
    content (fst (fst r)) = foldl place (content f) (take written plan) /\
    snd (fst r) = index_after index (take n plan) /\
    (forall offset x z slot, (offset, x, z, slot) ∈ take written plan ->
       exists raw, chunk_raw x z flat size = Ok raw) /\
    match snd r with
    | None => n = List.length plan /\ written = n
    | Some e =>
        (n < List.length plan)%nat /\
        (written = n \/
         written = S n /\ e = StructError /\ index <> None /\
         exists offset x z slot,
           plan !! n = Some (offset, x, z, slot) /\ ~ 0 <= slot <= 0xFFFF)
    end.
Proof.
  induction plan as [|[[[offset x] z] slot] plan IH]; intros f index; cbv zeta.
  - exists 0%nat, 0%nat. cbn [for_io fst snd take foldl List.length].
    rewrite index_after_nil.
    split; [reflexivity|]. split; [reflexivity|].
    split; [intros ? ? ? ? H; inversion H | split; reflexivity].
  - cbn [for_io].
    pose proof (write_and_index_cases offset x z slot f index) as Hstep. cbv zeta in Hstep.
    destruct (step (offset, x, z, slot) (f, index)) as [[f1 index1] [e|]];
      cbn [fst snd] in Hstep |- *.
    + destruct Hstep as [[= -> ->]|(Hraw & Hplace & -> & -> & Hidx & Hslot)].
      * exists 0%nat, 0%nat. cbn [take foldl List.length]. rewrite index_after_nil.
        split; [reflexivity|]. split; [reflexivity|].
        split; [intros ? ? ? ? H; inversion H|]. split; [lia | now left].
      * exists 0%nat, 1%nat. cbn [take foldl List.length]. rewrite index_after_nil.
        split; [exact Hplace|]. split; [reflexivity|]. split.
        -- intros o' x' z' s' [[= -> -> -> ->]|H]%elem_of_cons; [exact Hraw | inversion H].
        -- split; [lia|]. right. repeat split; try assumption.
           exists offset, x, z, slot. split; [reflexivity | exact Hslot].
    + destruct Hstep as (Hraw & Hplace & ->).
      destruct (IH f1 (index_after index [(offset, x, z, slot)]))
        as (n & written & Hc & Hi & Hok & Hend).
      exists (S n), (S written). cbn [take foldl List.length].
      rewrite <- Hplace. split; [exact Hc|].
      rewrite Hi, index_after_cons. split; [reflexivity|]. split.
      * intros o' x' z' s' [[= -> -> -> ->]|H]%elem_of_cons; [exact Hraw | eauto].
      * destruct (snd (for_io plan step _)) as [e|].
        -- destruct Hend as [Hn Hcase]. split; [lia|].
           destruct Hcase as [->|(-> & -> & Hidx & Hwhere)]; [now left | right].
           repeat split; try assumption.
           intros ->. now apply Hidx.
        -- destruct Hend as [-> ->]. auto.
Qed.

End PlanRun.

(** Once the header is read, [insert_structure] on two files is a run of
    the plan. *)
Lemma insert_structure_plan_run (compress : list Z -> list Z)
  (io_shared : list Z -> list (Z * Z) -> Z * Z * Z -> Z * Z -> Z * Z -> loop_state -> list Z)
  (w : world) (flat : list (Z * Z)) (width height length : Z)
  (start_x start_z slot_number : Z) (bytes : list Z) (f0 : handle)
  (s0 s1 count footer subsize unk0 : Z) :
  cdb_name w <> index_name ->
  cdb_file w = Some bytes ->
  read_file_header {| content := bytes; position := 0 |}
  = (f0, Ok [s0; s1; count; footer; subsize; unk0]) ->
  let size := (width, height, length) in
  let plan := chunk_plan start_x start_z slot_number subsize
                ((width + 15) / 16) ((length + 15) / 16) in
  let r := for_io plan (write_and_index compress flat size) (f0, index_file w) in
  insert_structure compress io_shared w flat size start_x start_z slot_number
  = (store w (content (fst (fst r))) (snd (fst r)), snd r).
Proof.
  intros Hne Hcdb Hhdr size plan r. apply cdb_file_Some in Hcdb as [Hname Hcdb].
  unfold insert_structure. rewrite Hname, Hcdb, Hhdr. subst size. cbv beta iota zeta.
  erewrite for_io_ext; [|intros cz st; apply for_io_ext; intros cx st';
                         apply insert_body_skip].
  subst r plan.
  pose proof (insert_loops_plan compress io_shared (cdb_name w) bytes Hne flat
                (width, height, length) start_x start_z
                subsize ((width + 15) / 16) slot_number ((length + 15) / 16)
                {| st_f := f0; st_index := index_file w;
                   st_slot_number := slot_number |} eq_refl) as Hp.
  cbv zeta in Hp. unfold files_of at 1 in Hp. cbn [st_f st_index] in Hp.
  rewrite Hp.
  destruct (for_io (range ((length + 15) / 16)) _ _) as [st e]. reflexivity.
Qed.

Lemma single_chunk_plan (start_x start_z slot_number subsize width length : Z) :
  1 <= width <= 16 -> 1 <= length <= 16 ->
  chunk_plan start_x start_z slot_number subsize ((width + 15) / 16) ((length + 15) / 16)
  = [(20, start_x, start_z, slot_number)].
Proof.
  intros Hw Hl.
  assert (Hcx : (width + 15) / 16 = 1)
    by (symmetry; apply Z.div_unique with (r := width - 1); lia).
  assert (Hcz : (length + 15) / 16 = 1)
    by (symmetry; apply Z.div_unique with (r := length - 1); lia).
  rewrite Hcx, Hcz. unfold chunk_plan, range.
  change (seqZ 0 1) with [0]. cbn. repeat f_equal; lia.
Qed.

(** The entries of a list of rows of one length, row by row. *)
Lemma bind_rows_length {A B} (g : A -> list B) (m : nat) (l : list A) :
  (forall a, List.length (g a) = m) -> List.length (l ≫= g) = (List.length l * m)%nat.
Proof.
  intros Hg. induction l as [|a l IH]; [reflexivity|].
  rewrite bind_cons, length_app, Hg, IH. cbn [List.length]. lia.
Qed.

Lemma bind_rows_lookup {A B} (g : A -> list B) (m : nat) (l : list A) :
  (forall a, List.length (g a) = m) ->
  forall (j i : nat) (a : A), l !! j = Some a -> (i < m)%nat ->
  (l ≫= g) !! (j * m + i)%nat = g a !! i.
Proof.
  intros Hg. induction l as [|a0 l IH]; intros j i a Hj Hi; [discriminate|].
  rewrite bind_cons. destruct j as [|j].
  - injection Hj as ->. apply lookup_app_l. rewrite Hg. lia.
  - rewrite lookup_app_r by (rewrite Hg; lia). rewrite Hg.
    replace (S j * m + i - m)%nat with (j * m + i)%nat by lia. now apply IH.
Qed.

(** The plan, entry by entry: chunk [(cz, cx)] is entry cz*chunks_x + cx. *)
Lemma chunk_plan_length (start_x start_z slot_number subsize chunks_x chunks_z : Z) :
  List.length (chunk_plan start_x start_z slot_number subsize chunks_x chunks_z)
  = (Z.to_nat chunks_z * Z.to_nat chunks_x)%nat.
Proof.
  unfold chunk_plan, range.
  rewrite (bind_rows_length _ (Z.to_nat chunks_x)); [now rewrite length_seqZ|].
  intros cz. rewrite (bind_rows_length _ 1%nat); [rewrite length_seqZ; lia | reflexivity].
Qed.

Lemma chunk_plan_lookup (start_x start_z slot_number subsize chunks_x chunks_z cz cx : Z) :
  0 <= cz < chunks_z -> 0 <= cx < chunks_x ->
  chunk_plan start_x start_z slot_number subsize chunks_x chunks_z
    !! Z.to_nat (cz * chunks_x + cx)
  = Some (20 + (cz * chunks_x + cx) * subsize, start_x + cx, start_z + cz,
          slot_number + (cz * chunks_x + cx)).
Proof.
  intros Hcz Hcx. unfold chunk_plan, range.
  assert (Hrow : forall cz : Z,
            List.length (seqZ 0 chunks_x ≫= (fun cx : Z =>
              [(20 + (cz * chunks_x + cx) * subsize, start_x + cx, start_z + cz,
                slot_number + (cz * chunks_x + cx))])) = Z.to_nat chunks_x).
  { intros c. rewrite (bind_rows_length _ 1%nat); [rewrite length_seqZ; lia | reflexivity]. }
  replace (Z.to_nat (cz * chunks_x + cx))
    with (Z.to_nat cz * Z.to_nat chunks_x + Z.to_nat cx)%nat
    by (rewrite Z2Nat.inj_add, Z2Nat.inj_mul by (try apply Z.mul_nonneg_nonneg; lia);
        reflexivity).
  rewrite (bind_rows_lookup _ (Z.to_nat chunks_x) _ Hrow (Z.to_nat cz) (Z.to_nat cx) cz);
    [| rewrite lookup_seqZ_lt by lia; f_equal; lia | lia].
  replace (Z.to_nat cx) with (Z.to_nat cx * 1 + 0)%nat by lia.
  match goal with
  | |- (seqZ 0 chunks_x ≫= ?g) !! _ = _ =>
      rewrite (bind_rows_lookup g 1%nat _ (fun _ => eq_refl) (Z.to_nat cx) 0%nat cx);
        [reflexivity | rewrite lookup_seqZ_lt by lia; f_equal; lia | lia]
  end.
Qed.


(** ** Positions outside the 14-bit range *)

Lemma unwrap14_field (x : Z) : Z.land (unwrap14 x) (Z.ones 14) = x mod 2 ^ 14.
Proof.
  unfold unwrap14. change (Z.shiftl 1 14) with (1 * 2 ^ 14).
  destruct (x <? 0); rewrite Z.land_ones by lia; [apply Z_mod_plus_full | reflexivity].
Qed.

Lemma wrap14_mod (x : Z) : wrap14 (x mod 2 ^ 14) = (x + 8192) mod 16384 - 8192.
Proof.
  unfold wrap14. change (Z.shiftl 1 13) with 8192. change (Z.shiftl 1 14) with 16384.
  change (2 ^ 14) with 16384.
  destruct (Z.leb_spec 8192 (x mod 16384)); Z.to_euclidean_division_equations; lia.
Qed.

(** X15.  What a position becomes on the way through [encode_position]
    and back, for every input: each coordinate is reduced modulo 16384 into
    [-8192, 8191] and the dimension modulo 16.  Chunks 16384 apart in x or z
    share a position word. *)
Theorem decode_encode_any (x z dim : Z) :
  decode (encode_position x z dim)
  = ((x + 8192) mod 16384 - 8192, (z + 8192) mod 16384 - 8192, dim mod 16) /\
  encode_position (x + 16384) z dim = encode_position x z dim /\
  encode_position x (z + 16384) dim = encode_position x z dim.
Proof.
  split; [|split].
  - rewrite decode_unfold, encode_unfold.
    rewrite low_field, mid_field, high_field, !unwrap14_field, !wrap14_mod.
    rewrite Z.land_ones by lia. reflexivity.
  - rewrite !encode_unfold, !unwrap14_field.
    now rewrite (Z_mod_plus_full x 1 (2 ^ 14) : (x + 16384) mod 2 ^ 14 = _).
  - rewrite !encode_unfold, !unwrap14_field.
    now rewrite (Z_mod_plus_full z 1 (2 ^ 14) : (z + 16384) mod 2 ^ 14 = _).
Qed.

Lemma index_fields_position (x z dim slot_number : Z) :
  index_fields x z slot_number
  = [px (init (encode_position x z dim)); pz (init (encode_position x z dim));
     slot_number; 0; 0x20FF; 0xA; 0x1; 0x8000].
Proof.
  unfold index_fields, init; cbn [px pz].
  rewrite mask14, encode_unfold, low_field, mid_field, !unwrap14_field.
  do 2 f_equal; [|f_equal].
  - destruct (x <? 0); rewrite Z.land_ones by lia;
      [exact (Z_mod_plus_full x 1 (2 ^ 14)) | reflexivity].
  - destruct (z <? 0); rewrite Z.land_ones by lia;
      [exact (Z_mod_plus_full z 1 (2 ^ 14)) | reflexivity].
Qed.

(** X16.  The index record of a chunk and the position word of its chunk
    record agree: the x and z bit fields [update_index_entry] appends are
    the x and z fields [CDBPosition] reads out of [encode_position] of the
    same coordinates, in whatever dimension. *)
Theorem index_entry_matches_position (bytes : list Z) (x z dim slot_number : Z) :
  0 <= slot_number <= 0xFFFF ->
  exists record,
    update_index_entry (Some bytes) x z slot_number = Ok (Some (bytes ++ record)) /\
    unpack [fmt_H; fmt_H; fmt_H; fmt_H; fmt_H; fmt_H; fmt_H; fmt_H] record
    = Ok [px (init (encode_position x z dim)); pz (init (encode_position x z dim));
          slot_number; 0; 0x20FF; 0xA; 0x1; 0x8000].
Proof.
  intros Hslot.
  destruct (update_index_entry_one bytes x z slot_number Hslot) as (record & Hupd & _ & Hrec).
  exists record. split; [exact Hupd|].
  now rewrite <- (index_fields_position x z dim slot_number).
Qed.

(** ** The nibble plane *)

(** A loop over a range with an invariant that follows the loop variable. *)
Lemma for_in_range {S} (I : Z -> S -> Prop) (body : Z -> S -> result S) (lo n : Z) :
  0 <= n ->
  (forall i s s', lo <= i < lo + n -> I i s -> body i s = Ok s' -> I (i + 1) s') ->
  forall s s', I lo s -> for_in (seqZ lo n) body s = Ok s' -> I (lo + n) s'.
Proof.
  intros Hn. rewrite <- (Z2Nat.id n Hn). generalize (Z.to_nat n) as c. clear n Hn.
  intros c; revert lo; induction c as [|c IH]; intros lo Hstep s s' Hs H.
  - cbn in H. injection H as <-. now rewrite Z.add_0_r.
  - rewrite Nat2Z.inj_succ, seqZ_cons in H by lia.
    replace (Z.pred (Z.succ (Z.of_nat c))) with (Z.of_nat c) in H by lia.
    cbn [for_in] in H. inv_bind H as s1 Hs1.
    replace (lo + Z.of_nat (Datatypes.S c)) with (Z.succ lo + Z.of_nat c) by lia.
    apply (IH (Z.succ lo)) with (s := s1); [| |exact H].
    + intros i t t' Hi. apply Hstep. lia.
    + replace (Z.succ lo) with (lo + 1) by lia.
      apply (Hstep lo s s1); [lia | exact Hs | exact Hs1].
Qed.

Lemma local_index_parts (sub_y z x : Z) :
  0 <= z < 16 -> 0 <= x < 16 ->
  let li := sub_y * 256 + z * 16 + x in
  li mod 16 = x /\ (li / 16) mod 16 = z /\ li / 256 = sub_y.
Proof. intros Hz Hx li. subst li. Z.to_euclidean_division_equations. lia. Qed.

Section NibblePlane.

Variable flat : list (Z * Z).
Variables width height length : Z.
Variables chunk_x chunk_z s : Z.

Local Abbreviation nv :=
  (nibble_at (nibble_plane_value flat width height length chunk_x chunk_z s)).

Lemma nibble_value_eq (sub_y z x : Z) :
  0 <= z < 16 -> 0 <= x < 16 ->
  (if height <=? s * 16 + sub_y then Ok 0
   else flat_or flat ((s * 16 + sub_y) * (width * length) + (chunk_z * 16 + z) * width
                      + (chunk_x * 16 + x)) snd 0)
  = Ok (nv (sub_y * 256 + z * 16 + x)).
Proof.
  intros Hz Hx. unfold nibble_at.
  destruct (local_index_parts sub_y z x Hz Hx) as (-> & -> & ->).
  unfold nibble_plane_value. cbv zeta.
  destruct (height <=? s * 16 + sub_y); [reflexivity|]. now rewrite flat_or_eq.
Qed.

Lemma nibbles_upto_start : nibbles_upto nv 0 (zeros (Z.to_nat 0x1000)).
Proof.
  split; [apply length_replicate|]. intros j Hj. unfold zeros, nibble_byte.
  rewrite lookup_replicate_2 by lia.
  destruct (Z.ltb_spec (2 * j + 1) 0); [lia|]. destruct (Z.ltb_spec (2 * j) 0); [lia|].
  reflexivity.
Qed.

Lemma nibble_step (sub_y z x : Z) (b b' : list Z) :
  0 <= sub_y < 16 -> 0 <= z < 16 -> 0 <= x < 16 ->
  nibbles_upto nv (sub_y * 256 + z * 16 + x) b ->
  (nibble_value <-
     (if height <=? s * 16 + sub_y then Ok 0
      else flat_or flat ((s * 16 + sub_y) * (width * length) + (chunk_z * 16 + z) * width
                         + (chunk_x * 16 + x)) snd 0) ;;
   if Z.land (sub_y * 256 + z * 16 + x) 1 =? 0 then
     old <- getitem b (Z.shiftr (sub_y * 256 + z * 16 + x) 1) ;;
     bytearray_setitem b (Z.shiftr (sub_y * 256 + z * 16 + x) 1)
       (Z.lor (Z.land old 0xF0) nibble_value)
   else
     old <- getitem b (Z.shiftr (sub_y * 256 + z * 16 + x) 1) ;;
     bytearray_setitem b (Z.shiftr (sub_y * 256 + z * 16 + x) 1)
       (Z.lor (Z.land old 0x0F) (Z.shiftl nibble_value 4))) = Ok b' ->
  nibbles_upto nv (sub_y * 256 + z * 16 + x + 1) b'.
Proof.
  intros Hy Hz Hx [Hlen Hb] H.
  rewrite (nibble_value_eq sub_y z x Hz Hx) in H. cbn [bind] in H.
  set (k := sub_y * 256 + z * 16 + x) in *.
  assert (Hk : 0 <= k < 4096) by (subst k; lia).
  rewrite Z.shiftr_div_pow2 in H by lia. change (2 ^ 1) with 2 in H.
  change 1 with (Z.ones 1) in H at 1. rewrite Z.land_ones in H by lia.
  change (2 ^ 1) with 2 in H.
  set (j0 := k / 2) in *.
  assert (Hj0 : 0 <= j0 < 2048 /\ k = 2 * j0 + k mod 2 /\ 0 <= k mod 2 < 2)
    by (subst j0; Z.to_euclidean_division_equations; lia).
  destruct Hj0 as (Hj0 & Hkj & Hmod).
  destruct (getitem_in_range b j0 ltac:(lia)) as (old & Hget & Hold).
  rewrite (Hb j0 ltac:(lia)) in Hold. injection Hold as Hold.
  assert (Hset : exists v, b' = <[Z.to_nat j0 := v]> b /\ v = nibble_byte nv (k + 1) j0).
  { unfold nibble_byte in Hold |- *.
    destruct (Z.eqb_spec (k mod 2) 0) as [Heven|Hodd]; rewrite Hget in H; cbn [bind] in H;
      apply bytearray_setitem_Ok in H as (_ & -> & _); try lia;
      eexists; (split; [reflexivity|]).
    - destruct (Z.ltb_spec (2 * j0 + 1) k); [lia|]. destruct (Z.ltb_spec (2 * j0) k); [lia|].
      destruct (Z.ltb_spec (2 * j0 + 1) (k + 1)); [lia|].
      destruct (Z.ltb_spec (2 * j0) (k + 1)); [|lia].
      subst old. cbn [Z.land]. rewrite Z.lor_0_l. f_equal. lia.
    - destruct (Z.ltb_spec (2 * j0 + 1) k); [lia|]. destruct (Z.ltb_spec (2 * j0) k); [|lia].
      destruct (Z.ltb_spec (2 * j0 + 1) (k + 1)); [|lia].
      subst old. do 3 f_equal. lia. }
  destruct Hset as (v & -> & ->).
  split; [now rewrite length_insert|]. intros j Hj.
  destruct (decide (j = j0)) as [->|Hne].
  - apply list_lookup_insert_eq. lia.
  - rewrite list_lookup_insert_ne by lia. rewrite (Hb j Hj). f_equal.
    unfold nibble_byte.
    destruct (Z.ltb_spec (2 * j + 1) k), (Z.ltb_spec (2 * j + 1) (k + 1)),
             (Z.ltb_spec (2 * j) k), (Z.ltb_spec (2 * j) (k + 1)); (reflexivity || lia).
Qed.

Lemma nibble_plane_bytes (nibbles : list Z) :
  nibble_plane s chunk_x chunk_z flat width height length = Ok nibbles ->
  nibbles_upto nv 4096 nibbles.
Proof.
  unfold nibble_plane, range. cbv zeta. intros H.
  apply (for_in_range (fun sub_y b => nibbles_upto nv (sub_y * 256) b)) in H;
    [exact H|lia| |exact nibbles_upto_start].
  intros sub_y b b' Hy Hb Hz.
  apply (for_in_range (fun z b => nibbles_upto nv (sub_y * 256 + z * 16) b)) in Hz;
    [|lia| |].
  - now replace ((sub_y + 1) * 256) with (sub_y * 256 + (0 + 16) * 16) by lia.
  - intros z t t' Hz' Ht Hx.
    apply (for_in_range (fun x b => nibbles_upto nv (sub_y * 256 + z * 16 + x) b)) in Hx;
      [|lia| |].
    + now replace (sub_y * 256 + (z + 1) * 16) with (sub_y * 256 + z * 16 + (0 + 16)) by lia.
    + intros x u u' Hx' Hu Hbody. rewrite Z.add_assoc.
      apply nibble_step in Hbody; [exact Hbody|lia..|exact Hu].
    + now rewrite Z.add_0_r.
  - now rewrite Z.mul_0_l, Z.add_0_r.
Qed.

End NibblePlane.

(** The nibble plane and the zero bytes after it in the raw buffer: the
    6144 bytes that follow the byte plane of each subchunk. *)
Lemma chunk_raw_nibbles (chunk_x chunk_z : Z) (flat : list (Z * Z))
  (width height length : Z) (raw : list Z) :
  chunk_raw chunk_x chunk_z flat (width, height, length) = Ok raw ->
  forall s i, 0 <= s < (height + 15) / 16 -> 0 <= i < 6144 ->
    raw !! Z.to_nat (2 + s * 10240 + 4096 + i)
    = Some (if i <? 4096
            then nibble_byte
                   (nibble_at (nibble_plane_value flat width height length chunk_x chunk_z s))
                   4096 i
            else 0).
Proof.
  intros H s i Hs Hi. unfold chunk_raw in H.
  inv_bind H as count Hcount. apply pack_single in Hcount as [Hsc ->]. fmt_consts.
  inv_bind H as raw1 Hloop. inv_bind H as biomes Hbiomes. injection H as <-.
  pose (P := fun (s : Z) (j : nat) (b : Z) =>
               forall i, 0 <= i < 6144 -> j = Z.to_nat (4096 + i) ->
                 b = if i <? 4096
                     then nibble_byte
                            (nibble_at (nibble_plane_value flat width height length
                                          chunk_x chunk_z s)) 4096 i
                     else 0).
  unfold range in Hloop.
  apply (for_in_blocks (Z.to_nat 10240) P) in Hloop.
  - destruct Hloop as (planes & -> & Hlen & Hplanes).
    cbn [app]. rewrite <- !app_assoc.
    assert (Hlt : (Z.to_nat (s * 10240 + (4096 + i)) < List.length planes)%nat) by lia.
    rewrite lookup_app_r by (rewrite length_le_bytes; lia). rewrite length_le_bytes.
    replace (Z.to_nat (2 + s * 10240 + 4096 + i) - 2)%nat
      with (Z.to_nat (s * 10240 + (4096 + i))) by lia.
    rewrite lookup_app_l by exact Hlt.
    destruct (lookup_lt_is_Some_2 planes _ Hlt) as [b Hb]. rewrite Hb. f_equal.
    pose proof (Hplanes (Z.to_nat s) (Z.to_nat (4096 + i)) b ltac:(lia)) as Hp.
    replace (Z.to_nat s * Z.to_nat 10240 + Z.to_nat (4096 + i))%nat
      with (Z.to_nat (s * 10240 + (4096 + i))) in Hp by lia.
    replace (0 + Z.of_nat (Z.to_nat s)) with s in Hp by lia.
    exact (Hp Hb i Hi eq_refl).
  - intros t r r' Ht Hbody.
    inv_bind Hbody as r1 Hbp. inv_bind Hbody as nibbles Hnp. injection Hbody as <-.
    apply byte_plane_blocks in Hbp as (bs & -> & Hlen & _).
    apply nibble_plane_bytes in Hnp as [Hnlen Hnib].
    exists (bs ++ nibbles ++ zeros (Z.to_nat 0x800)). rewrite <- !app_assoc.
    split; [reflexivity|]. split.
    + unfold zeros. rewrite !length_app, length_replicate. lia.
    + intros j b Hb i' Hi' ->.
      rewrite lookup_app_r in Hb by lia. rewrite Hlen in Hb.
      replace (Z.to_nat (4096 + i') - 4096)%nat with (Z.to_nat i') in Hb by lia.
      destruct (Z.ltb_spec i' 4096).
      * rewrite lookup_app_l in Hb by lia. rewrite (Hnib i' ltac:(lia)) in Hb. congruence.
      * rewrite lookup_app_r in Hb by lia.
        unfold zeros in Hb. apply lookup_replicate_1 in Hb as [-> _]. reflexivity.
Qed.

(** X17.  The nibble plane of subchunk [s] of an encoded chunk is laid
    out with sub_y outermost, then z, then x, two voxels to a byte: byte
    sub_y*128 + z*8 + x/2 holds the metadata of the voxel at the even x in
    its low nibble and that of the voxel at x + 1 in its high nibble; the
    metadata is that of the voxel of the flat array at the linear index of
    world coordinates (chunk_x*16 + x, chunk_z*16 + z, s*16 + sub_y), and 0
    above the declared height or where the array has no voxel at that
    index. *)
Theorem nibble_plane_layout (chunk_x chunk_z : Z) (flat : list (Z * Z))
  (width height length : Z) (raw : list Z) :
  chunk_raw chunk_x chunk_z flat (width, height, length) = Ok raw ->
  forall s sub_y z half_x,
    0 <= s < (height + 15) / 16 -> 0 <= sub_y < 16 -> 0 <= z < 16 -> 0 <= half_x < 8 ->
    let value := nibble_plane_value flat width height length chunk_x chunk_z s in
    raw !! Z.to_nat (2 + s * 10240 + 4096 + (sub_y * 128 + z * 8 + half_x))
    = Some (Z.lor (Z.land (value (2 * half_x) z sub_y) 0x0F)
                  (Z.shiftl (value (2 * half_x + 1) z sub_y) 4)).
Proof.
  intros H s sub_y z half_x Hs Hy Hz Hx value.
  rewrite (chunk_raw_nibbles _ _ _ _ _ _ _ H s _ Hs) by lia.
  destruct (Z.ltb_spec (sub_y * 128 + z * 8 + half_x) 4096); [|lia].
  unfold nibble_byte.
  destruct (Z.ltb_spec (2 * (sub_y * 128 + z * 8 + half_x) + 1) 4096); [|lia].
  unfold nibble_at. fold value.
  replace (2 * (sub_y * 128 + z * 8 + half_x)) with (sub_y * 256 + z * 16 + 2 * half_x) by lia.
  destruct (local_index_parts sub_y z (2 * half_x) Hz ltac:(lia)) as (-> & -> & ->).
  replace (sub_y * 256 + z * 16 + 2 * half_x + 1)
    with (sub_y * 256 + z * 16 + (2 * half_x + 1)) by lia.
  destruct (local_index_parts sub_y z (2 * half_x + 1) Hz ltac:(lia)) as (-> & -> & ->).
  reflexivity.
Qed.

(** X18.  The parts of the raw buffer that are always zero: in every
    subchunk the upper 2048 bytes of the 4096-byte nibble buffer, which no
    iteration assigns, and the 2048 bytes of block data that follow it; and
    the 256 bytes between the last subchunk and the biome plane. *)
Theorem raw_zero_regions (chunk_x chunk_z : Z) (flat : list (Z * Z))
  (width height length : Z) (raw : list Z) :
  chunk_raw chunk_x chunk_z flat (width, height, length) = Ok raw ->
  (forall s i, 0 <= s < (height + 15) / 16 -> 2048 <= i < 6144 ->
     raw !! Z.to_nat (2 + s * 10240 + 4096 + i) = Some 0) /\
  (forall i, 0 <= i < 256 ->
     raw !! Z.to_nat (2 + (height + 15) / 16 * 10240 + i) = Some 0).
Proof.
  intros H. split.
  - intros s i Hs Hi. rewrite (chunk_raw_nibbles _ _ _ _ _ _ _ H s i Hs) by lia.
    destruct (Z.ltb_spec i 4096); [|reflexivity].
    unfold nibble_byte.
    destruct (Z.ltb_spec (2 * i + 1) 4096); [lia|].
    destruct (Z.ltb_spec (2 * i) 4096); [lia | reflexivity].
  - intros i Hi.
    apply chunk_raw_layout in H as (Hsc & planes & biomes & -> & Hlen & _).
    rewrite lookup_app_r by (rewrite length_le_bytes; lia). rewrite length_le_bytes.
    rewrite lookup_app_r by lia.
    rewrite lookup_app_l by (unfold zeros; rewrite length_replicate; lia).
    unfold zeros. apply lookup_replicate_2. lia.
Qed.

(** ** Block names *)

Lemma string_compare_trans (a b c : string) :
  String.compare a b <> Gt -> String.compare b c <> Gt -> String.compare a c <> Gt.
Proof.
  revert b c; induction a as [|c1 a IH]; intros [|c2 b] [|c3 c]; cbn; try congruence.
  unfold Ascii.compare.
  generalize (N_of_ascii c1) (N_of_ascii c2) (N_of_ascii c3). intros n1 n2 n3.
  destruct (N.compare_spec n1 n2), (N.compare_spec n2 n3), (N.compare_spec n1 n3);
    try congruence; try lia.
  apply IH.
Qed.

Lemma string_leb_trans (a b c : string) :
  String.leb a b = true -> String.leb b c = true -> String.leb a c = true.
Proof.
  unfold String.leb. intros Hab Hbc.
  pose proof (string_compare_trans a b c) as H.
  destruct (String.compare a b), (String.compare b c), (String.compare a c);
    try reflexivity; try discriminate; exfalso; apply H; congruence.
Qed.

(** Inserting two entries with different keys gives the same list in
    either order. *)
Lemma insert_item_comm (a b : string * tag) (l : list (string * tag)) :
  fst a <> fst b ->
  insert_item a (insert_item b l) = insert_item b (insert_item a l).
Proof.
  intros Hne.
  assert (Hanti : String.leb (fst a) (fst b) = true -> String.leb (fst b) (fst a) = false).
  { intros Hab. destruct (String.leb (fst b) (fst a)) eqn:Hba; [|reflexivity].
    exfalso. apply Hne. now apply String.leb_antisym. }
  assert (Htot : String.leb (fst a) (fst b) = false -> String.leb (fst b) (fst a) = true).
  { intros Hab. destruct (String.leb_total (fst a) (fst b)); congruence. }
  induction l as [|c l IH]; cbn [insert_item].
  - destruct (String.leb (fst a) (fst b)) eqn:Hab.
    + now rewrite (Hanti eq_refl).
    + now rewrite (Htot eq_refl).
  - destruct (String.leb (fst b) (fst c)) eqn:Hbc, (String.leb (fst a) (fst c)) eqn:Hac;
      cbn [insert_item].
    + destruct (String.leb (fst a) (fst b)) eqn:Hab.
      * now rewrite (Hanti eq_refl), Hbc.
      * now rewrite (Htot eq_refl), Hac.
    + destruct (String.leb (fst a) (fst b)) eqn:Hab.
      * now rewrite (string_leb_trans _ _ _ Hab Hbc) in Hac.
      * now rewrite Hac, Hbc.
    + destruct (String.leb (fst b) (fst a)) eqn:Hba.
      * now rewrite (string_leb_trans _ _ _ Hba Hac) in Hbc.
      * now rewrite Hbc, Hac.
    + now rewrite Hac, Hbc, IH.
Qed.

Lemma sorted_items_perm (m m' : list (string * tag)) :
  m ≡ₚ m' -> NoDup (fst <$> m) -> sorted_items m = sorted_items m'.
Proof.
  unfold sorted_items. induction 1 as [|x l l' Hp IH|x y l|l l' l'' Hp IH Hp' IH']; intros Hnd.
  - reflexivity.
  - cbn. rewrite IH; [reflexivity|]. now apply NoDup_cons in Hnd as [_ Hnd].
  - cbn. apply insert_item_comm.
    cbn in Hnd. apply NoDup_cons in Hnd as [Hnot _]. intros E. apply Hnot. rewrite E. left.
  - rewrite IH by exact Hnd. apply IH'. now rewrite <- Hp.
Qed.

(** X19.  The name [format_block_name] builds does not depend on the order
    in which the properties are stored: [sorted] puts them in the order of
    their keys, which are distinct in a dict. *)
Theorem format_block_name_order (repr_tag : tag -> string) (name : string)
  (m m' : list (string * tag)) :
  m ≡ₚ m' -> NoDup (fst <$> m) ->
  format_block_name repr_tag name (TCompound m)
  = format_block_name repr_tag name (TCompound m').
Proof.
  intros Hp Hnd. unfold format_block_name.
  rewrite (sorted_items_perm m m' Hp Hnd).
  destruct m as [|kv m], m' as [|kv' m']; cbn [truthy]; try reflexivity.
  - now apply Permutation_nil_cons in Hp.
  - symmetry in Hp. now apply Permutation_nil_cons in Hp.
Qed.

(** ** What the parser puts into the flat array *)

Section ParsedVoxels.

Variable int_of_str : string -> option Z.
Variable repr_tag : tag -> string.
Variable inverse_block_map : gmap string (Z * Z).
Variable P : Z * Z -> Prop.

Hypothesis air : P (0, 0).
Hypothesis mapped : forall name v, inverse_block_map !! name = Some v -> P v.

Lemma get_block_id_P (name : string) : P (get_block_id inverse_block_map name).
Proof.
  unfold get_block_id. destruct (inverse_block_map !! name) as [v|] eqn:E; cbn; eauto.
Qed.

Lemma setitem_Forall (l l' : list (Z * Z)) (i : Z) (v : Z * Z) :
  Forall P l -> P v -> setitem l i v = Ok l' -> Forall P l'.
Proof.
  unfold setitem. intros Hl Hv. destruct (norm_index _ _) as [n|]; [|discriminate].
  intros [= <-]. now apply Forall_insert.
Qed.

Lemma place_blocks_Forall (blocks : tag) (palmap : gmap Z string)
  (width length : Z) (flat flat' : list (Z * Z)) :
  Forall P flat ->
  place_blocks int_of_str inverse_block_map blocks palmap width length flat = Ok flat' ->
  Forall P flat'.
Proof.
  unfold place_blocks. intros Hflat H. inv_bind H as bs Hbs.
  apply (for_in_inv (Forall P)) in H; [assumption| |exact Hflat].
  intros b t t' _ Ht Hb.
  repeat (let a := fresh "a" in let Ha := fresh "Ha" in inv_bind Hb as a Ha).
  match type of Hb with
  | context [get_block_id _ ?n] => pose proof (get_block_id_P n) as Hid
  end.
  destruct (get_block_id _ _). exact (setitem_Forall _ _ _ _ Ht Hid Hb).
Qed.

Lemma parse_Forall (nbt_file : option tag) (flat : list (Z * Z)) (size : Z * Z * Z) :
  parse_nbt_structure int_of_str repr_tag inverse_block_map nbt_file = Ok (flat, size) ->
  Forall P flat.
Proof.
  unfold parse_nbt_structure.
  destruct (parse_fields _ _) as [[[blocks sz] palette]|]; [|discriminate].
  intros H. inv_bind H as palmap Hpal.
  destruct sz as [|w0 [|h0 [|l0 [|? ?]]]]; try discriminate.
  inv_bind H as flat' Hplace.
  destruct (negb _); [discriminate|]. injection H as <- <-.
  eapply place_blocks_Forall; [|exact Hplace]. apply Forall_replicate. exact air.
Qed.

End ParsedVoxels.

(** X20.  Every voxel of a parsed structure is air, (0, 0), or the
    (runtime id, metadata) pair the block map gives for some name: the
    parser invents no value of its own. *)
Theorem parsed_voxels (int_of_str : string -> option Z) (repr_tag : tag -> string)
  (inverse_block_map : gmap string (Z * Z)) (nbt_file : option tag)
  (flat : list (Z * Z)) (size : Z * Z * Z) :
  parse_nbt_structure int_of_str repr_tag inverse_block_map nbt_file = Ok (flat, size) ->
  Forall (fun v => v = (0, 0) \/ exists name, inverse_block_map !! name = Some v) flat.
Proof.
  apply (parse_Forall int_of_str repr_tag inverse_block_map
           (fun v => v = (0, 0) \/ exists name, inverse_block_map !! name = Some v)).
  - now left.
  - intros name v Hv. right. eauto.
Qed.

(** X21.  With a block map whose runtime ids are bytes and whose metadata
    values are nibbles, whatever [parse_nbt_structure] returns can be
    encoded: every chunk of it is built without an exception, provided the
    subchunk count fits a u16. *)
Theorem parsed_structure_is_encoded (int_of_str : string -> option Z)
  (repr_tag : tag -> string) (inverse_block_map : gmap string (Z * Z))
  (nbt_file : option tag) (flat : list (Z * Z)) (width height length : Z)
  (chunk_x chunk_z : Z) :
  map_Forall (fun _ v => 0 <= fst v < 256 /\ 0 <= snd v < 16) inverse_block_map ->
  parse_nbt_structure int_of_str repr_tag inverse_block_map nbt_file
  = Ok (flat, (width, height, length)) ->
  0 <= (height + 15) / 16 <= 0xFFFF ->
  Z.of_nat (List.length flat) = width * height * length /\
  exists raw,
    chunk_raw chunk_x chunk_z flat (width, height, length) = Ok raw /\
    Z.of_nat (List.length raw) = 2 + (height + 15) / 16 * 10240 + 512.
Proof.
  intros Hmap Hparse Hsc.
  assert (Hflat : encodable flat).
  { apply (parse_Forall int_of_str repr_tag inverse_block_map
             (fun v => 0 <= fst v < 256 /\ 0 <= snd v < 16)) in Hparse; [exact Hparse| |].
    - cbn. lia.
    - intros name v Hv. exact (Hmap name v Hv). }
  split.
  - revert Hparse. unfold parse_nbt_structure.
    destruct (parse_fields _ _) as [[[blocks sz] palette]|]; [|discriminate].
    intros H. inv_bind H as palmap Hpal.
    destruct sz as [|w0 [|h0 [|l0 [|? ?]]]]; try discriminate.
    inv_bind H as flat' Hplace.
    destruct (Z.eqb_spec (Z.of_nat (List.length flat')) (w0 * h0 * l0)) as [E|]; cbn in H;
      [|discriminate].
    now injection H as <- <- <- <-.
  - destruct (chunk_raw_Ok flat Hflat width height length chunk_x chunk_z Hsc) as [raw Hraw].
    exists raw. split; [exact Hraw|].
    rewrite (chunk_raw_length _ _ _ _ _ _ _ Hraw). lia.
Qed.

(** An insertion whose first index entry cannot be packed. *)
Lemma insert_structure_refused (compress : list Z -> list Z)
  (io_shared : list Z -> list (Z * Z) -> Z * Z * Z -> Z * Z -> Z * Z -> loop_state -> list Z)
  (w : world) (flat : list (Z * Z)) (width height length : Z)
  (start_x start_z slot_number : Z) (bytes index : list Z) :
  cdb_name w <> index_name ->
  cdb_file w = Some bytes -> (20 <= List.length bytes)%nat ->
  index_file w = Some index ->
  1 <= width -> 1 <= length -> ~ 0 <= slot_number <= 0xFFFF ->
  encodable flat -> 0 <= (height + 15) / 16 <= 0xFFFF ->
  (forall raw, chunk_raw start_x start_z flat (width, height, length) = Ok raw ->
               Z.of_nat (List.length (compress raw)) < 2 ^ 31) ->
  let r := insert_structure compress io_shared w flat (width, height, length)
             start_x start_z slot_number in
  snd r = Some StructError /\
  index_file (fst r) = Some index /\
  exists raw,
    chunk_raw start_x start_z flat (width, height, length) = Ok raw /\
    cdb_file (fst r)
    = Some (content (write {| content := bytes; position := 20 |}
                           (chunk_record start_x start_z (compress raw) raw))).
Proof.
  intros Hne Hcdb Hlen Hindex Hw Hl Hslot Hflat Hsc Hcomp. cbv zeta.
  destruct (write_chunk_to_subfile_Ok compress {| content := bytes; position := 20 |} 20
              start_x start_z flat width height length Hflat Hsc ltac:(lia) Hcomp)
    as [f1 Hwrite].
  destruct (insert_structure_run compress io_shared flat width height length
              start_x start_z w slot_number bytes Hcdb Hlen) as (subsize & _ & ->).
  unfold insert_loops.
  rewrite (range_cons ((length + 15) / 16)) by now apply chunks_positive.
  rewrite (range_cons ((width + 15) / 16)) by now apply chunks_positive.
  cbn [for_io].
  assert (E : insert_chunk compress io_shared (cdb_name w) bytes flat (width, height, length)
                start_x start_z subsize ((width + 15) / 16) 0 0
                {| st_f := {| content := bytes; position := 20 |};
                   st_index := index_file w; st_slot_number := slot_number |}
              = ({| st_f := f1; st_index := Some index; st_slot_number := slot_number |},
                 Some StructError)).
  { unfold insert_chunk. cbn [st_f st_index st_slot_number].
    replace (20 + (0 * ((width + 15) / 16) + 0) * subsize) with 20 by lia.
    rewrite !Z.add_0_r, Hwrite, Hindex, (distinct_names _ Hne).
    now rewrite (update_index_entry_overflow index start_x start_z slot_number Hslot). }
  rewrite E. cbn [fst snd st_f st_index].
  split; [reflexivity|]. split.
  - apply index_file_store; [exact Hne | now rewrite Hindex | discriminate].
  - apply write_chunk_record in Hwrite as (raw & Hraw & _ & ->).
    exists raw. split; [exact Hraw|]. apply (cdb_file_store w bytes), Hcdb.
Qed.


(** X23.  The raw buffer of a chunk opens with the subchunk count as a
    u16: the number of 16-block layers needed for the declared height,
    ceil(height / 16), which is 0 for a height of 0 (the buffer is then the
    count, 256 zero bytes and the biome plane, 514 bytes in all). *)
Theorem raw_subchunk_count (chunk_x chunk_z : Z) (flat : list (Z * Z))
  (width height length : Z) (raw : list Z) :
  chunk_raw chunk_x chunk_z flat (width, height, length) = Ok raw ->
  let subchunk_count := (height + 15) / 16 in
  unpack [fmt_H] (take 2 raw) = Ok [subchunk_count] /\
  16 * (subchunk_count - 1) < height <= 16 * subchunk_count /\
  0 <= subchunk_count <= 0xFFFF /\
  (height = 0 -> List.length raw = 514%nat).
Proof.
  intros H sc.
  pose proof (chunk_raw_length _ _ _ _ _ _ _ H) as Hlen. fold sc in Hlen.
  apply chunk_raw_layout in H as (Hsc & planes & biomes & -> & _). fold sc in Hsc.
  split; [|split; [|split]].
  - rewrite take_app_length' by (symmetry; apply length_le_bytes).
    apply (unpack_pack [fmt_H] [sc]). cbn [pack].
    rewrite pack1_in_range by (fmt_consts; lia). cbn [bind fmt_size].
    now rewrite app_nil_r.
  - subst sc. Z.to_euclidean_division_equations. lia.
  - exact Hsc.
  - intros Hh. assert (sc = 0) by (subst sc; rewrite Hh; reflexivity). lia.
Qed.

(** ** Writing the same chunk again *)

(** X24.  Writing a chunk a second time at the same offset leaves the
    database exactly as the first write left it: the record depends only on
    the chunk coordinates, the voxels and the size, and it covers the same
    bytes. *)
Theorem write_chunk_idempotent (compress : list Z -> list Z) (f f1 f2 : handle)
  (offset chunk_x chunk_z : Z) (flat : list (Z * Z)) (size : Z * Z * Z) :
  write_chunk_to_subfile compress f offset chunk_x chunk_z flat size = Ok f1 ->
  write_chunk_to_subfile compress f1 offset chunk_x chunk_z flat size = Ok f2 ->
  f2 = f1.
Proof.
  intros H1 H2.
  apply write_chunk_record in H1 as (raw & Hraw & Hoff & ->).
  apply write_chunk_record in H2 as (raw' & Hraw' & _ & ->).
  assert (raw' = raw) as -> by congruence.
  set (record := chunk_record chunk_x chunk_z (compress raw) raw).
  assert (Hne : record <> []) by apply chunk_record_nonempty.
  set (g := {| content := content f; position := Z.to_nat offset |}).
  assert (Hpos : position (write g record) = (Z.to_nat offset + length record)%nat)
    by (rewrite (write_nonempty _ _ Hne); reflexivity).
  assert (Hlen : (Z.to_nat offset + length record <= length (content (write g record)))%nat)
    by (rewrite (write_length _ _ Hne); cbn [position g]; lia).
  assert (Hcontent : content (write {| content := content (write g record);
                                       position := Z.to_nat offset |} record)
                     = content (write g record)).
  { apply list_eq. intros i. rewrite (write_lookup _ _ i Hne). cbn [content position].
    destruct (decide (i < Z.to_nat offset)%nat).
    - destruct (decide (i < length (content (write g record)))%nat); [reflexivity | lia].
    - destruct (decide (i < Z.to_nat offset + length record)%nat); [|reflexivity].
      rewrite (write_lookup g _ i Hne). cbn [position g].
      destruct (decide (i < Z.to_nat offset)%nat); [lia|].
      destruct (decide (i < Z.to_nat offset + length record)%nat); [reflexivity | lia]. }
  rewrite (write_nonempty _ _ Hne) at 1. cbn [content position].
  rewrite (write_nonempty _ _ Hne) in Hcontent. cbn [content position] in Hcontent.
  rewrite Hcontent. destruct (write g record) as [c p] eqn:E. cbn [position] in Hpos.
  cbn [content]. now rewrite Hpos.
Qed.

(** ** The palette *)

Lemma palmap_loop (repr_tag : tag -> string) (entries : list tag) :
  forall (lo : Z) (m m' : gmap Z string),
  for_in (zip (seqZ lo (Z.of_nat (length entries))) entries) (fun ie palmap =>
    let '(i, entry) := ie in
    name <- tag_get entry "Name" (TString "minecraft:air") ;;
    let name := py_str repr_tag name in
    props <- tag_get entry "Properties" (TCompound []) ;;
    formatted <- format_block_name repr_tag name props ;;
    Ok (<[i := formatted]> palmap)) m = Ok m' ->
  forall i,
    m' !! i = if decide (lo <= i < lo + Z.of_nat (length entries))
              then match entries !! Z.to_nat (i - lo) with
                   | Some entry => match palette_name repr_tag entry with
                                   | Ok formatted => Some formatted
                                   | Raise _ => None
                                   end
                   | None => None
                   end
              else m !! i.
Proof.
  induction entries as [|entry entries IH]; intros lo m m' H i.
  - cbn in H. injection H as <-. cbn [length]. destruct (decide _); [lia | reflexivity].
  - cbn [length] in H |- *. rewrite Nat2Z.inj_succ, seqZ_cons in H by lia.
    replace (Z.pred (Z.succ (Z.of_nat (length entries)))) with (Z.of_nat (length entries))
      in H by lia.
    cbn [zip zip_with for_in] in H. inv_bind H as m1 Hm1.
    inv_bind Hm1 as name Hname. inv_bind Hm1 as props Hprops.
    inv_bind Hm1 as formatted Hformatted. injection Hm1 as <-.
    rewrite (IH _ _ _ H i).
    assert (Hpn : palette_name repr_tag entry = Ok formatted)
      by (unfold palette_name; rewrite Hname; cbn [bind]; rewrite Hprops; exact Hformatted).
    destruct (decide (i = lo)) as [->|Hne].
    + destruct (decide (Z.succ lo <= lo < _)); [lia|].
      destruct (decide (lo <= lo < _)); [|lia].
      rewrite Z.sub_diag. change ((entry :: entries) !! Z.to_nat 0) with (Some entry).
      cbv beta iota. rewrite Hpn. apply lookup_insert_eq.
    + rewrite lookup_insert_ne by congruence. rewrite Nat2Z.inj_succ.
      destruct (decide (Z.succ lo <= i < Z.succ lo + Z.of_nat (length entries))),
               (decide (lo <= i < lo + Z.succ (Z.of_nat (length entries)))); try lia;
        [|reflexivity].
      replace (Z.to_nat (i - lo)) with (S (Z.to_nat (i - Z.succ lo))) by lia. reflexivity.
Qed.

(** X25.  The palette map [parse_nbt_structure] builds has exactly the
    indices of the palette entries as its keys, and maps index i to the
    block name of entry i: its Name (minecraft:air when absent) followed by
    its properties in brackets, as [format_block_name] puts them. *)
Theorem palmap_entries (repr_tag : tag -> string) (palette : tag) (palmap : gmap Z string) :
  build_palmap repr_tag palette = Ok palmap ->
  exists entries,
    tag_iter palette = Ok entries /\
    forall (i : Z) (formatted : string),
      palmap !! i = Some formatted <->
      0 <= i /\ exists entry, entries !! Z.to_nat i = Some entry /\
                              palette_name repr_tag entry = Ok formatted.
Proof.
  unfold build_palmap, enumerate. intros H. inv_bind H as entries Hentries.
  exists entries. split; [exact Hentries|]. intros i formatted.
  rewrite (palmap_loop repr_tag entries 0 ∅ palmap H i), Z.sub_0_r.
  destruct (decide (0 <= i < 0 + Z.of_nat (length entries))) as [Hi|Hi].
  - destruct (entries !! Z.to_nat i) as [entry|] eqn:Hentry.
    + destruct (palette_name repr_tag entry) as [s|e] eqn:Hs.
      * split.
        -- intros [= <-]. split; [lia|]. eauto.
        -- intros (_ & entry' & [= <-] & Hs'). congruence.
      * split; [discriminate|]. intros (_ & entry' & [= <-] & Hs'). congruence.
    + split; [discriminate|]. intros (_ & entry' & [=] & _).
  - rewrite lookup_empty. split; [discriminate|].
    intros (H0 & entry & Hentry & _). apply lookup_lt_Some in Hentry. lia.
Qed.

(** * The theorems at sample inputs *)

Import Samples.


Lemma fresh_world_names : cdb_name fresh_world <> index_name.
Proof. discriminate. Qed.

Lemma fresh_world_cdb : cdb_file fresh_world = Some db_header.
Proof. unfold cdb_file, fresh_world. cbn [cdb_name files]. apply lookup_insert_eq. Qed.

Lemma fresh_world_index : index_file fresh_world = Some [].
Proof.
  unfold index_file, fresh_world. cbn [files].
  rewrite lookup_insert_ne by discriminate. apply lookup_singleton_eq.
Qed.

Lemma lone_world_names : cdb_name lone_world <> index_name.
Proof. discriminate. Qed.

Lemma lone_world_cdb : cdb_file lone_world = Some db_header.
Proof. unfold cdb_file, lone_world. cbn [cdb_name files]. apply lookup_singleton_eq. Qed.

Lemma lone_world_index : index_file lone_world = None.
Proof.
  unfold index_file, lone_world. cbn [files]. apply lookup_singleton_ne. discriminate.
Qed.

Lemma db_header_bytes : all_bytes db_header.
Proof. unfold all_bytes, db_header. repeat (apply Forall_app; split); apply le_bytes_bytes. Qed.

Lemma db_header_length : (20 <= length db_header)%nat.
Proof. cbn. lia. Qed.

Lemma one_block_compressed (cx cz : Z) (raw : list Z) :
  chunk_raw cx cz [(5, 0)] (1, 1, 1) = Ok raw ->
  Z.of_nat (length (zlib_stored raw)) < 2 ^ 31.
Proof. now apply zlib_stored_chunk. Qed.

Lemma one_block_encodable : encodable [(5, 0)].
Proof. repeat constructor; cbn; lia. Qed.

Lemma four_blocks_encodable : encodable four_blocks.
Proof. repeat constructor; cbn; lia. Qed.

Lemma one_subchunk : 0 <= (1 + 15) / 16 <= 0xFFFF.
Proof. change ((1 + 15) / 16) with 1. lia. Qed.

Lemma one_block_written (chunk_x chunk_z : Z) :
  exists f', write_chunk_to_subfile zlib_stored db_handle 20 chunk_x chunk_z [(5, 0)] (1, 1, 1)
             = Ok f'.
Proof.
  apply write_chunk_to_subfile_Ok;
    [exact one_block_encodable | exact one_subchunk | lia |].
  intros raw. now apply zlib_stored_chunk.
Qed.

Lemma byte_plane_layout_witness :
  exists raw,
    chunk_raw 0 0 [(5, 0)] (1, 1, 1) = Ok raw /\
    raw !! Z.to_nat (2 + 0 * 10240 + (0 * 256 + 0 * 16 + 0)) = Some 5 /\
    raw !! Z.to_nat (2 + 0 * 10240 + (0 * 256 + 0 * 16 + 1)) = Some 0.
Proof.
  destruct (chunk_raw_Ok [(5, 0)] one_block_encodable 1 1 1 0 0 one_subchunk) as [raw Hraw].
  exists raw. split; [exact Hraw|]. split.
  - apply (byte_plane_layout 0 0 [(5, 0)] 1 1 1 raw Hraw 0 0 0 0);
      vm_compute; intuition congruence.
  - apply (byte_plane_layout 0 0 [(5, 0)] 1 1 1 raw Hraw 0 0 0 1);
      vm_compute; intuition congruence.
Defined.

Lemma biome_plane_layout_witness :
  exists raw,
    chunk_raw 0 0 four_blocks (2, 1, 2) = Ok raw /\
    raw !! Z.to_nat (2 + (1 + 15) / 16 * 10240 + 256 + (1 * 16 + 0)) = Some 2 /\
    raw !! Z.to_nat (2 + (1 + 15) / 16 * 10240 + 256 + (5 * 16 + 0)) = Some 1.
Proof.
  destruct (chunk_raw_Ok four_blocks four_blocks_encodable 2 1 2 0 0 one_subchunk)
    as [raw Hraw].
  exists raw. split; [exact Hraw|]. split.
  - apply (biome_plane_layout 0 0 four_blocks 2 1 2 raw Hraw 1 0);
      vm_compute; intuition congruence.
  - apply (biome_plane_layout 0 0 four_blocks 2 1 2 raw Hraw 5 0);
      vm_compute; intuition congruence.
Defined.

Lemma written_chunk_lengths_witness :
  exists f' raw,
    write_chunk_to_subfile zlib_stored db_handle 20 0 0 [(5, 0)] (1, 1, 1) = Ok f' /\
    chunk_raw 0 0 [(5, 0)] (1, 1, 1) = Ok raw /\
    16 * ((1 + 15) / 16 - 1) < 1 <= 16 * ((1 + 15) / 16) /\
    Z.of_nat (length raw) = 2 + (1 + 15) / 16 * (4096 + 4096 + 2048) + 256 + 256 /\
    unpack [fmt_i; fmt_i; fmt_i; fmt_i] (slice (content f') (20 + 16) 16)
    = Ok [0; 112; Z.of_nat (length (zlib_stored raw)); Z.of_nat (length raw)] /\
    slice (content f') (20 + 112) (length (zlib_stored raw)) = zlib_stored raw.
Proof.
  destruct (one_block_written 0 0) as [f' Hf'].
  destruct (written_chunk_lengths zlib_stored db_handle 20 0 0 [(5, 0)] 1 1 1 f' Hf')
    as (raw & H).
  exists f', raw. split; [exact Hf' | exact H].
Defined.

Lemma db_header_read :
  read_file_header {| content := db_header; position := 0 |}
  = (db_handle, Ok [1; 0; 1; 0; 0x4000; 0]).
Proof. vm_compute. reflexivity. Qed.



Lemma invalid_structure_witness :
  parse_nbt_structure decimal plain_repr stone (Some tall) = Raise InvalidNBT /\
  on_insert zlib_stored io_plain decimal plain_repr stone fresh_world (Some tall) 0 0 0
  = (fresh_world, Some InvalidNBT).
Proof.
  apply (proj1 (invalid_structure zlib_stored io_plain decimal plain_repr stone fresh_world 0 0 0)
           (Some tall)).
  right. eexists _, [TInt 1; TString "tall"; TInt 1].
  split; [reflexivity|]. split; [reflexivity|].
  exists (TString "tall"), IntError. split; [cbn; auto | reflexivity].
Defined.

(** * Where the specification and the code part ways *)

(** C2 as stated fails: the raw buffer of the one-block chunk has 10754
    bytes, not 2 + 1*(4096 + 2048 + 2048) + 256 + 256 = 8706. *)
Lemma raw_length_counterexample :
  exists f' raw,
    write_chunk_to_subfile zlib_stored db_handle 20 0 0 [(5, 0)] (1, 1, 1) = Ok f' /\
    chunk_raw 0 0 [(5, 0)] (1, 1, 1) = Ok raw /\
    Z.of_nat (length raw) = 10754 /\
    Z.of_nat (length raw) <> 2 + (1 + 15) / 16 * (4096 + 2048 + 2048) + 256 + 256.
Proof.
  destruct (one_block_written 0 0) as [f' Hf'].
  destruct (chunk_raw_Ok [(5, 0)] one_block_encodable 1 1 1 0 0 one_subchunk) as [raw Hraw].
  exists f', raw. split; [exact Hf'|]. split; [exact Hraw|].
  rewrite (chunk_raw_length _ _ _ _ _ _ _ Hraw).
  split; [reflexivity | discriminate].
Qed.




(** C5 as stated fails: without its palette and blocks keys the structure
    is parsed, to one voxel of air. *)
Lemma absent_keys_counterexample :
  assoc "palette" [("size"%string, TList [TInt 1; TInt 1; TInt 1])] = None /\
  assoc "blocks" [("size"%string, TList [TInt 1; TInt 1; TInt 1])] = None /\
  parse_nbt_structure decimal plain_repr stone (Some size_only) = Ok ([(0, 0)], (1, 1, 1)).
Proof. repeat split; vm_compute; reflexivity. Qed.

(** C6 as stated fails: local (x, z) = (2, 0) of chunk (0, 0) lies outside
    the 2 x 2 footprint, yet its biome cell holds 3, the runtime id of the
    voxel at (0, 0, 1), not the default 1. *)
Lemma biome_footprint_counterexample :
  exists raw,
    chunk_raw 0 0 four_blocks (2, 1, 2) = Ok raw /\
    ~ (0 <= 0 * 16 + 2 < 2) /\
    raw !! Z.to_nat (2 + (1 + 15) / 16 * 10240 + 256 + (2 * 16 + 0)) = Some 3.
Proof.
  destruct (chunk_raw_Ok four_blocks four_blocks_encodable 2 1 2 0 0 one_subchunk)
    as [raw Hraw].
  exists raw. split; [exact Hraw|]. split; [lia|].
  destruct (biome_cell 0 0 four_blocks 2 1 2 raw Hraw 2 0 ltac:(lia) ltac:(lia)) as [-> _].
  reflexivity.
Qed.

(** * The further properties at sample inputs *)

Lemma two_voxels_encodable : encodable [(5, 7); (6, 9)].
Proof. repeat constructor; cbn; lia. Qed.

Lemma written_record_head_witness :
  exists f',
    write_chunk_to_subfile zlib_stored db_handle 20 3 (-4) [(5, 0)] (1, 1, 1) = Ok f' /\
    unpack [fmt_I] (slice (content f') 20 4) = Ok [MAGIC_CDB] /\
    unpack [fmt_I] (slice (content f') (20 + 4) 4) = Ok [encode_position 3 (-4) 0] /\
    unpack [fmt_b; fmt_b] (slice (content f') (20 + 8) 2) = Ok [1; 0] /\
    unpack [fmt_H; fmt_H; fmt_H] (slice (content f') (20 + 10) 6) = Ok [0; 0; 0].
Proof.
  destruct (one_block_written 3 (-4)) as [f' Hf']. exists f'. split; [exact Hf'|].
  exact (written_record_head zlib_stored db_handle 20 3 (-4) [(5, 0)] (1, 1, 1) f' Hf').
Defined.

Lemma unused_section_slots_witness :
  exists f',
    write_chunk_to_subfile zlib_stored db_handle 20 3 (-4) [(5, 0)] (1, 1, 1) = Ok f' /\
    unpack [fmt_i; fmt_i; fmt_i; fmt_i] (slice (content f') (20 + (16 + 16 * 5)) 16)
    = Ok [-1; 0; 0; 0].
Proof.
  destruct (one_block_written 3 (-4)) as [f' Hf']. exists f'. split; [exact Hf'|].
  apply (unused_section_slots zlib_stored db_handle 20 3 (-4) [(5, 0)] (1, 1, 1) f' Hf' 5).
  lia.
Defined.

Lemma write_chunk_elsewhere_witness :
  exists f' raw,
    write_chunk_to_subfile zlib_stored db_handle 20 3 (-4) [(5, 0)] (1, 1, 1) = Ok f' /\
    chunk_raw 3 (-4) [(5, 0)] (1, 1, 1) = Ok raw /\
    position f' = (Z.to_nat 20 + (112 + length (zlib_stored raw)))%nat /\
    forall i : nat, (i < Z.to_nat 20 \/ Z.to_nat 20 + (112 + length (zlib_stored raw)) <= i)%nat ->
      (i < length (content db_handle))%nat -> content f' !! i = content db_handle !! i.
Proof.
  destruct (one_block_written 3 (-4)) as [f' Hf'].
  destruct (write_chunk_elsewhere zlib_stored db_handle 20 3 (-4) [(5, 0)] (1, 1, 1) f' Hf')
    as (raw & Hraw & Hpos & _ & Hkeep & _).
  exists f', raw. split; [exact Hf'|]. split; [exact Hraw|]. split; [exact Hpos | exact Hkeep].
Defined.

Lemma read_first_chunk_position_reads_witness :
  read_first_chunk_position (Some db_header) = Raise StructError /\
  read_first_chunk_position (Some (db_header ++ [0; 0; 0; 0; 7; 7; 7; 7; 3; 0xC0; 0xFF; 0x1F]))
  = Ok (decode (le_int (slice (db_header ++ [0; 0; 0; 0; 7; 7; 7; 7; 3; 0xC0; 0xFF; 0x1F]) 28 4))).
Proof.
  split.
  - apply (proj1 (read_first_chunk_position_reads db_header)). cbn. lia.
  - apply (proj2 (read_first_chunk_position_reads
                    (db_header ++ [0; 0; 0; 0; 7; 7; 7; 7; 3; 0xC0; 0xFF; 0x1F]))).
    cbn. lia.
Defined.

Lemma first_chunk_position_after_write_witness :
  exists f',
    write_chunk_to_subfile zlib_stored db_handle 20 3 (-4) [(5, 0)] (1, 1, 1) = Ok f' /\
    unpack [fmt_I] (slice (content f') 24 4) = Ok [encode_position 3 (-4) 0] /\
    read_first_chunk_position (Some (content f')) = Ok (1, 0, 0).
Proof.
  destruct (one_block_written 3 (-4)) as [f' Hf']. exists f'. split; [exact Hf'|].
  exact (first_chunk_position_after_write zlib_stored db_handle 3 (-4) [(5, 0)] (1, 1, 1)
           f' Hf').
Defined.

Lemma wide_id_raises : chunk_raw 0 0 [(256, 0)] (1, 1, 1) = Raise ByteRange.
Proof. vm_compute. reflexivity. Qed.



Lemma insert_structure_keeps_header_witness :
  exists bytes',
    cdb_file (fst (insert_structure zlib_stored io_plain fresh_world [(5, 0)] (1, 1, 1)
                     3 (-4) 9))
    = Some bytes' /\
    (length db_header <= length bytes')%nat /\
    forall i : nat, (i < 20)%nat -> bytes' !! i = db_header !! i.
Proof.
  exact (insert_structure_keeps_header zlib_stored io_plain fresh_world [(5, 0)] (1, 1, 1)
           3 (-4) 9 db_header fresh_world_cdb db_header_bytes).
Defined.


Lemma insert_structure_first_chunk_fails_witness :
  insert_structure zlib_stored io_plain fresh_world [(256, 0)] (1, 1, 1) 0 0 9
  = (fresh_world, Some ByteRange).
Proof.
  apply (insert_structure_first_chunk_fails zlib_stored io_plain fresh_world [(256, 0)]
           1 1 1 0 0 9 db_header ByteRange fresh_world_cdb db_header_length);
    [lia | lia | exact wide_id_raises].
Defined.


Lemma index_entry_matches_position_witness :
  exists record,
    update_index_entry (Some [1; 2]) (-1) 5 7 = Ok (Some ([1; 2] ++ record)) /\
    unpack [fmt_H; fmt_H; fmt_H; fmt_H; fmt_H; fmt_H; fmt_H; fmt_H] record
    = Ok [px (init (encode_position (-1) 5 0)); pz (init (encode_position (-1) 5 0));
          7; 0; 0x20FF; 0xA; 0x1; 0x8000].
Proof. apply (index_entry_matches_position [1; 2] (-1) 5 0 7). lia. Defined.

Lemma nibble_plane_layout_witness :
  exists raw,
    chunk_raw 0 0 [(5, 7); (6, 9)] (2, 1, 1) = Ok raw /\
    raw !! Z.to_nat (2 + 0 * 10240 + 4096 + (0 * 128 + 0 * 8 + 0)) = Some 151 /\
    raw !! Z.to_nat (2 + 0 * 10240 + 4096 + (0 * 128 + 0 * 8 + 1)) = Some 0.
Proof.
  destruct (chunk_raw_Ok [(5, 7); (6, 9)] two_voxels_encodable 2 1 1 0 0 one_subchunk)
    as [raw Hraw].
  exists raw. split; [exact Hraw|]. split.
  - apply (nibble_plane_layout 0 0 [(5, 7); (6, 9)] 2 1 1 raw Hraw 0 0 0 0);
      vm_compute; intuition congruence.
  - apply (nibble_plane_layout 0 0 [(5, 7); (6, 9)] 2 1 1 raw Hraw 0 0 0 1);
      vm_compute; intuition congruence.
Defined.

Lemma raw_zero_regions_witness :
  exists raw,
    chunk_raw 0 0 [(5, 7); (6, 9)] (2, 1, 1) = Ok raw /\
    (forall s i, 0 <= s < (1 + 15) / 16 -> 2048 <= i < 6144 ->
       raw !! Z.to_nat (2 + s * 10240 + 4096 + i) = Some 0) /\
    (forall i, 0 <= i < 256 -> raw !! Z.to_nat (2 + (1 + 15) / 16 * 10240 + i) = Some 0).
Proof.
  destruct (chunk_raw_Ok [(5, 7); (6, 9)] two_voxels_encodable 2 1 1 0 0 one_subchunk)
    as [raw Hraw].
  exists raw. split; [exact Hraw|].
  exact (raw_zero_regions 0 0 [(5, 7); (6, 9)] 2 1 1 raw Hraw).
Defined.

Lemma format_block_name_order_witness :
  format_block_name plain_repr "minecraft:log"
    (TCompound [("variant"%string, TString "oak"); ("axis"%string, TString "y")])
  = format_block_name plain_repr "minecraft:log"
      (TCompound [("axis"%string, TString "y"); ("variant"%string, TString "oak")]).
Proof.
  apply format_block_name_order.
  - apply perm_swap.
  - cbn. apply NoDup_cons. split.
    + intros H. apply list_elem_of_singleton in H. discriminate.
    + apply NoDup_singleton.
Defined.

Lemma one_block_parsed :
  parse_nbt_structure decimal plain_repr stone (Some one_block) = Ok ([(5, 0)], (1, 1, 1)).
Proof. vm_compute. reflexivity. Qed.

Lemma parsed_voxels_witness :
  Forall (fun v => v = (0, 0) \/ exists name, stone !! name = Some v) [(5, 0)].
Proof.
  exact (parsed_voxels decimal plain_repr stone (Some one_block) [(5, 0)] (1, 1, 1)
           one_block_parsed).
Defined.

Lemma parsed_structure_is_encoded_witness :
  Z.of_nat (length [(5, 0)]) = 1 * 1 * 1 /\
  exists raw,
    chunk_raw 3 (-4) [(5, 0)] (1, 1, 1) = Ok raw /\
    Z.of_nat (length raw) = 2 + (1 + 15) / 16 * 10240 + 512.
Proof.
  apply (parsed_structure_is_encoded decimal plain_repr stone (Some one_block)
           [(5, 0)] 1 1 1 3 (-4)).
  - apply map_Forall_singleton. cbn. lia.
  - exact one_block_parsed.
  - exact one_subchunk.
Defined.


Lemma raw_subchunk_count_witness :
  exists raw,
    chunk_raw 0 0 [(5, 7); (6, 9)] (2, 1, 1) = Ok raw /\
    unpack [fmt_H] (take 2 raw) = Ok [(1 + 15) / 16] /\
    16 * ((1 + 15) / 16 - 1) < 1 <= 16 * ((1 + 15) / 16) /\
    0 <= (1 + 15) / 16 <= 0xFFFF /\
    (1 = 0 -> length raw = 514%nat).
Proof.
  destruct (chunk_raw_Ok [(5, 7); (6, 9)] two_voxels_encodable 2 1 1 0 0 one_subchunk)
    as [raw Hraw].
  exists raw. split; [exact Hraw|].
  exact (raw_subchunk_count 0 0 [(5, 7); (6, 9)] 2 1 1 raw Hraw).
Defined.

Lemma one_block_rewritten (f : handle) (chunk_x chunk_z : Z) :
  exists f', write_chunk_to_subfile zlib_stored f 20 chunk_x chunk_z [(5, 0)] (1, 1, 1) = Ok f'.
Proof.
  apply write_chunk_to_subfile_Ok;
    [exact one_block_encodable | exact one_subchunk | lia |].
  intros raw. now apply zlib_stored_chunk.
Qed.

Lemma write_chunk_idempotent_witness :
  exists f1 f2,
    write_chunk_to_subfile zlib_stored db_handle 20 3 (-4) [(5, 0)] (1, 1, 1) = Ok f1 /\
    write_chunk_to_subfile zlib_stored f1 20 3 (-4) [(5, 0)] (1, 1, 1) = Ok f2 /\
    f2 = f1.
Proof.
  destruct (one_block_rewritten db_handle 3 (-4)) as [f1 Hf1].
  destruct (one_block_rewritten f1 3 (-4)) as [f2 Hf2].
  exists f1, f2. split; [exact Hf1|]. split; [exact Hf2|].
  exact (write_chunk_idempotent zlib_stored db_handle f1 f2 20 3 (-4) [(5, 0)] (1, 1, 1)
           Hf1 Hf2).
Defined.

Lemma stone_palmap :
  build_palmap plain_repr stone_palette = Ok (<[0 := "minecraft:stone"%string]> ∅).
Proof. vm_compute. reflexivity. Qed.

Lemma palmap_entries_witness :
  exists entries,
    tag_iter stone_palette = Ok entries /\
    forall (i : Z) (formatted : string),
      (<[0 := "minecraft:stone"%string]> ∅ : gmap Z string) !! i = Some formatted <->
      0 <= i /\ exists entry, entries !! Z.to_nat i = Some entry /\
                              palette_name plain_repr entry = Ok formatted.
Proof. exact (palmap_entries plain_repr stone_palette _ stone_palmap). Defined.
